(** * Radiography simulation: a shallow embedding of the attenuation engine

    The development follows the Python sources of the repository:

    - [Approach 3/simulate_marrow.py]   (module [Marrow]):   3D binary erosion
      and the skeleton-to-marrow reclassification;
    - [Approach 3/render_voxelgrid.py]  (module [GridRender]): the discrete
      grid integrator;
    - [Approach 2/raycasting.py]        (module [RayCast]):  the continuous
      ray-march integrator with its nested-volume stack;
    - [Approach 3/voxelgrid.py]         (module [VoxelGrid]): the point
      containment parity test and the per-ray fill loop of the grid builder;
    - [Approach 1/combine_results.py]   (module [Combine]):  multiplicative
      compositing of rendered layers.

    Python floats are read as real numbers ([R]); numpy arrays are nested
    lists; a computation that may raise returns a [result], [Ok] or [Raise]. *)

From Stdlib Require Import Reals Lra Lia ZArith.
From stdpp Require Import base option list gmap strings.

Open Scope string_scope.
Open Scope list_scope.

(** ** Python slices on one axis *)

Module NumPy.

(** A slice bound [i] of a sequence of length [n]: negative bounds count from
    the end, and the result is clamped to [0..n]. *)
Definition slice_bound (n : nat) (i : Z) : nat :=
  Z.to_nat (Z.max 0 (Z.min (Z.of_nat n)
                           (if (i <? 0)%Z then (i + Z.of_nat n)%Z else i))).

(** [l[start:stop]]; [stop = None] is the open slice [l[start:]]. *)
Definition py_slice {A} (start : Z) (stop : option Z) (l : list A) : list A :=
  let n := length l in
  let lo := slice_bound n start in
  let hi := from_option (slice_bound n) n stop in
  take (hi - lo) (drop lo l).

(** [len(l[s])] for a sequence of length [n]. *)
Definition slice_len (n : nat) (s : Z * option Z) : nat :=
  from_option (slice_bound n) n s.2 - slice_bound n s.1.

(** [l[start:stop] = v] done cell by cell with [upd]; on the innermost axis
    [upd] overwrites, on outer axes it recurses.  [v] has the shape of the
    slice (numpy raises otherwise). *)
Definition set_slice {A B} (upd : A -> B -> A) (start stop : Z)
    (l : list A) (v : list B) : list A :=
  let n := length l in
  let lo := slice_bound n start in
  let hi := slice_bound n stop in
  take lo l ++ zip_with upd (take (hi - lo) (drop lo l)) v ++ drop (lo `max` hi) l.

Abbreviation array3 A := (list (list (list A))).

(** [a[s0, s1, s2]] for three slices. *)
Definition slice3 {A} (s0 s1 s2 : Z * option Z) (a : array3 A) : array3 A :=
  (fun plane : list (list A) => py_slice s2.1 s2.2 <$> py_slice s1.1 s1.2 plane)
    <$> py_slice s0.1 s0.2 a.

(** [a[1:-1, 1:-1, 1:-1] = v]. *)
Definition set_inner3 {A} (a v : array3 A) : array3 A :=
  set_slice (set_slice (set_slice (fun _ b => b) 1 (-1)) 1 (-1)) 1 (-1) a v.

(** Elementwise binary operation on arrays of one shape. *)
Definition map2_3 {A B C} (f : A -> B -> C) (a : array3 A) (b : array3 B)
    : array3 C :=
  zip_with (zip_with (zip_with f)) a b.

Definition map3 {A B} (f : A -> B) (a : array3 A) : array3 B :=
  (fun plane : list (list A) => (fun row : list A => f <$> row) <$> plane) <$> a.

(** [a[i][j][k]], [None] out of range. *)
Definition at3 {A} (a : array3 A) (i j k : nat) : option A :=
  plane ← a !! i; row ← (plane : list (list A)) !! j; (row : list A) !! k.

(** A numpy array of shape [(X, Y, Z)]. *)
Definition shape3 {A} (X Y Z : nat) (a : array3 A) : Prop :=
  length a = X /\
  Forall (fun plane => length plane = Y /\ Forall (fun row => length row = Z) plane) a.

End NumPy.

(** ** simulate_marrow.py *)

Module Marrow.
Import NumPy.

Abbreviation mask3 := (array3 bool).

Definition SHELL_THICKNESS : nat := 1.

Definition zeros_like (a : mask3) : mask3 := map3 (fun _ => false) a.

(** One pass of the loop body of [erode_mask]. *)
Definition erode_pass (eroded : mask3) : mask3 :=
  let new_mask := zeros_like eroded in
  let inner := (1%Z, Some (-1)%Z) in
  let band := map2_3 andb in
  set_inner3 new_mask
    (band (band (band (band (band
       (slice3 (0%Z, Some (-2)%Z) inner inner eroded)
       (slice3 (2%Z, None) inner inner eroded))
       (slice3 inner (0%Z, Some (-2)%Z) inner eroded))
       (slice3 inner (2%Z, None) inner eroded))
       (slice3 inner inner (0%Z, Some (-2)%Z) eroded))
       (slice3 inner inner (2%Z, None) eroded)).

Fixpoint erode_loop (iterations : nat) (eroded : mask3) : mask3 :=
  match iterations with
  | O => eroded
  | S n => erode_loop n (erode_pass eroded)
  end.

Definition erode_mask (mask : mask3) (iterations : nat) : mask3 :=
  erode_loop iterations mask.

(** The truth value of a cell; cells outside the array count as false. *)
Definition cell (m : mask3) (i j k : nat) : bool := default false (at3 m i j k).

(** The cells of [new_mask[1:-1, 1:-1, 1:-1]] in an array of shape [(X, Y, Z)]:
    no index is at an end of its axis. *)
Definition interior (X Y Z i j k : nat) : Prop :=
  (1 <= i /\ i + 1 < X) /\ (1 <= j /\ j + 1 < Y) /\ (1 <= k /\ k + 1 < Z).

(** [a] is a subset of [b]: every true cell of [a] is true in [b]. *)
Definition subset (a b : mask3) : Prop :=
  forall i j k, cell a i j k = true -> cell b i j k = true.

Abbreviation grid3 := (array3 string).

(** [voxel_grid == 'skeleton'] *)
Definition skeleton_mask (voxel_grid : grid3) : mask3 :=
  map3 (fun t => bool_decide (t = "skeleton")) voxel_grid.

(** [g[mask] = v] with a boolean mask of the shape of [g]. *)
Definition mask_assign (g : grid3) (mask : mask3) (v : string) : grid3 :=
  map2_3 (fun t (b : bool) => if b then v else t) g mask.

(** The main part of the script, from the loaded grid to the saved one. *)
Definition simulate_marrow (shell : nat) (voxel_grid : grid3) : grid3 :=
  let skeleton := skeleton_mask voxel_grid in
  let interior_mask := erode_mask skeleton shell in
  let output_grid := voxel_grid in
  mask_assign output_grid interior_mask "marrow".

(** A 3x3x3 mask, false at the centre and true everywhere else. *)
Definition hollow : mask3 :=
  let t := [true; true; true] in
  [ [t; t; t]; [t; [true; false; true]; t]; [t; t; t] ].

(** A 5x5x5 checkerboard: true where [i + j + k] is even. *)
Definition checker : mask3 :=
  (fun i : nat => (fun j : nat => (fun k : nat => Nat.even (i + j + k)) <$> seq 0 5)
                    <$> seq 0 5) <$> seq 0 5.

(** A 3x3x3 grid of skeleton voxels around one muscle voxel. *)
Definition cavity : grid3 :=
  let s := ["skeleton"; "skeleton"; "skeleton"] in
  [ [s; s; s]; [s; ["skeleton"; "muscle"; "skeleton"]; s]; [s; s; s] ].

End Marrow.

(** ** Python values shared by the scripts *)

Module Py.

Inductive exn : Type :=
  | KeyError (key : string)
  | IndexError
  | TypeError
  | ValueError.

(** The outcome of a computation that may raise. *)
Inductive result (A : Type) : Type :=
  | Ok (a : A)
  | Raise (e : exn).
Arguments Ok {A} a.
Arguments Raise {A} e.

#[global] Instance result_ret : MRet result := fun A a => Ok a.
#[global] Instance result_bind : MBind result := fun A B f m =>
  match m with
  | Ok a => f a
  | Raise e => Raise e
  end.
#[global] Instance result_fmap : FMap result := fun A B f m =>
  match m with
  | Ok a => Ok (f a)
  | Raise e => Raise e
  end.

(** The computation ends in an exception. *)
Definition raises {A} (m : result A) : Prop := exists e, m = Raise e.

#[global] Instance Rlt_decision : RelDecision Rlt := Rlt_dec.
#[global] Instance Rle_decision : RelDecision Rle := Rle_dec.
#[global] Instance Req_decision : EqDecision R := Req_dec_T.

(** [mathutils.Vector] of size three. *)
Record Vector : Type := mkVector { vx : R; vy : R; vz : R }.

Definition vadd (a b : Vector) : Vector :=
  mkVector (vx a + vx b) (vy a + vy b) (vz a + vz b).
Definition vsub (a b : Vector) : Vector :=
  mkVector (vx a - vx b) (vy a - vy b) (vz a - vz b).
Definition vscale (a : Vector) (s : R) : Vector :=
  mkVector (vx a * s) (vy a * s) (vz a * s).
Definition vdot (a b : Vector) : R :=
  (vx a * vx b + vy a * vy b + vz a * vz b)%R.
Definition vlength (a : Vector) : R :=
  sqrt (vx a * vx a + vy a * vy a + vz a * vz a).
(** [v.normalized()]: the zero vector stays zero. *)
Definition normalized (a : Vector) : Vector :=
  if decide (vlength a = 0%R) then a
  else mkVector (vx a / vlength a) (vy a / vlength a) (vz a / vlength a).

(** The attenuation law shared by both integrators:
    [1.0 - exp(-total_density)]. *)
Definition intensity (optical_depth : R) : R := (1 - exp (- optical_depth))%R.

(** [sum(xs)]: Python adds from the left, starting at 0. *)
Definition py_sum (xs : list R) : R := fold_left Rplus xs 0%R.

End Py.

(** ** render_voxelgrid.py *)

Module GridRender.
Import NumPy Py.
Local Open Scope R_scope.

Definition DENSITY_MAPPING : gmap string R :=
  list_to_map [ ("skeleton", 0.5); ("muscle", 0.05); ("body", 0.02);
                ("marrow", 0.1); ("none", 0.0) ].

Section integrator.
Variable density_mapping : gmap string R.
Variable voxel_grid : array3 string.
Variables (width height : nat) (step : R) (depth_slices : nat).

(** [density_mapping[tag]] *)
Definition density_of (tag : string) : result R :=
  match density_mapping !! tag with
  | Some d => Ok d
  | None => Raise (KeyError tag)
  end.

(** [voxel_grid[j][i][k]] *)
Definition voxel (j i k : nat) : result string :=
  match at3 voxel_grid j i k with
  | Some tag => Ok tag
  | None => Raise IndexError
  end.

(** [sum(DENSITY_MAPPING[voxel_grid[j][i][k]] for k in ks)], from the
    accumulator [acc]. *)
Fixpoint sum_densities (j i : nat) (ks : list nat) (acc : R) : result R :=
  match ks with
  | [] => Ok acc
  | k :: ks' =>
      tag ← voxel j i k;
      d ← density_of tag;
      sum_densities j i ks' (acc + d)
  end.

(** The body of the two pixel loops. *)
Definition pixel (j i : nat) : result R :=
  raw_sum ← sum_densities j i (seq 0 depth_slices) 0;
  let total_density := raw_sum * step in
  Ok (intensity total_density).

Definition projection : result (list (list R)) :=
  mapM (fun j => mapM (fun i => pixel j i) (seq 0 width)) (seq 0 height).

(** The RGBA pixel buffer written to the image. *)
Definition pixels (proj : list (list R)) : list R :=
  row ← proj; val ← row;
  let gray := Rmax 0.0 (Rmin val 1.0) in
  [gray; gray; gray; 1.0].

(** The script from the loaded grid on: the image is created only after the
    projection loop has run to its end. *)
Definition render_voxelgrid : result (list R) :=
  proj ← projection;
  Ok (pixels proj).

(** Some cell has a tag the density map does not know. *)
Definition unknown_tag_in_grid : Prop :=
  exists j i k tag, at3 voxel_grid j i k = Some tag /\ density_mapping !! tag = None.

End integrator.

End GridRender.

(** ** raycasting.py *)

Module RayCast.
Import Py.
Local Open Scope R_scope.

Definition EPS_DIST : R := 1e-4.
Definition DOT_THRESHOLD : R := 1e-6.

(** What one pass of the [while] loop did to the stack. *)
Inductive event (Obj : Type) : Type :=
  | NoHit                 (* no intersection up to the far clip: [break] *)
  | SelfHit               (* [dist_to_hit < EPS_DIST]: skipped *)
  | Grazing               (* [abs(dot_val) < DOT_THRESHOLD]: stack untouched *)
  | Push (o : Obj)        (* entering hit: [inside_stack.append(hit_obj)] *)
  | Remove (o : Obj)      (* leaving hit: [inside_stack.remove(hit_obj)] *)
  | Outside (o : Obj).    (* leaving hit of a solid that is not on the stack *)
Arguments NoHit {Obj}.
Arguments SelfHit {Obj}.
Arguments Grazing {Obj}.
Arguments Push {Obj} o.
Arguments Remove {Obj} o.
Arguments Outside {Obj} o.

(** A hit that is neither skipped nor grazing, as the loop classifies it. *)
Inductive hit (Obj : Type) : Type :=
  | Entry (o : Obj)
  | Exit (o : Obj).
Arguments Entry {Obj} o.
Arguments Exit {Obj} o.

Section ray.
Context {Obj : Type} `{Countable Obj}.

(** [scene.ray_cast(depsgraph, origin, direction, distance=d)]: the nearest
    hit as [(hit_loc, hit_norm, hit_obj)], or [None] when [hit] is false. *)
Variable scene_ray_cast : Vector -> Vector -> R -> option (Vector * Vector * Obj).
Variable object_to_density : gmap Obj R.
Variables (cam_location ray_dir : Vector) (clip_start clip_end : R).

Record march : Type := mkMarch {
  inside_stack : list Obj;
  total_density : R;
  current_dist : R
}.

Inductive step : Type :=
  | Continue (s : march)
  | Break (s : march).

(** [object_to_density.get(o, 0.0)] *)
Definition density_get (o : Obj) : R := default 0.0 (object_to_density !! o).

(** [sum(object_to_density.get(o, 0.0) for o in inside_stack)] *)
Definition stack_density (stack : list Obj) : R := py_sum (density_get <$> stack).

(** [l.remove(x)]: drops the first occurrence. *)
Fixpoint list_remove (x : Obj) (l : list Obj) : list Obj :=
  match l with
  | [] => []
  | y :: l' => if decide (x = y) then l' else y :: list_remove x l'
  end.

(** The body of the [while] loop, with the stack event of the pass. *)
Definition march_body (s : march) : event Obj * step :=
  let seg_origin := vadd cam_location (vscale ray_dir (current_dist s)) in
  match scene_ray_cast seg_origin ray_dir (clip_end - current_dist s) with
  | None =>
      (NoHit,
       Break (mkMarch (inside_stack s)
                (total_density s
                 + stack_density (inside_stack s) * (clip_end - current_dist s))
                (current_dist s)))
  | Some (hit_loc, hit_norm, hit_obj) =>
      let dist_to_hit := vlength (vsub hit_loc seg_origin) in
      if decide (dist_to_hit < EPS_DIST) then
        (SelfHit,
         Continue (mkMarch (inside_stack s) (total_density s)
                     (current_dist s + EPS_DIST)))
      else
        let abs_hit := current_dist s + dist_to_hit in
        let total := total_density s
                     + stack_density (inside_stack s) * dist_to_hit in
        let dot_val := vdot ray_dir hit_norm in
        if decide (Rabs dot_val < DOT_THRESHOLD) then
          (Grazing, Continue (mkMarch (inside_stack s) total (abs_hit + EPS_DIST)))
        else if decide (dot_val < 0) then
          (Push hit_obj,
           Continue (mkMarch (inside_stack s ++ [hit_obj]) total
                       (abs_hit + Rmax EPS_DIST 1e-5)))
        else if decide (hit_obj ∈ inside_stack s) then
          (Remove hit_obj,
           Continue (mkMarch (list_remove hit_obj (inside_stack s)) total
                       (abs_hit + Rmax EPS_DIST 1e-5)))
        else
          (Outside hit_obj,
           Continue (mkMarch (inside_stack s) total
                       (abs_hit + Rmax EPS_DIST 1e-5)))
  end.

(** [while current_dist < clip_end: ...], at most [fuel] passes. *)
Fixpoint march_loop (fuel : nat) (s : march) : option march :=
  if decide (current_dist s < clip_end) then
    match fuel with
    | O => None
    | S fuel' =>
        match (march_body s).2 with
        | Continue s' => march_loop fuel' s'
        | Break s' => Some s'
        end
    end
  else Some s.

(** The passes of the loop in order: the event of each pass and the stack it
    leaves. *)
Fixpoint march_trace (fuel : nat) (s : march) : list (event Obj * list Obj) :=
  if decide (current_dist s < clip_end) then
    match fuel with
    | O => []
    | S fuel' =>
        match march_body s with
        | (e, Continue s') => (e, inside_stack s') :: march_trace fuel' s'
        | (e, Break s') => [(e, inside_stack s')]
        end
    end
  else [].

Definition ray_start : march := mkMarch [] 0.0 clip_start.

(** [projection[j][i]] for the ray of one pixel. *)
Definition ray_pixel (fuel : nat) : option R :=
  (fun s => intensity (total_density s)) <$> march_loop fuel ray_start.

End ray.

Arguments mkMarch {Obj} _ _ _.
Arguments Continue {Obj} s.
Arguments Break {Obj} s.

Section hits.
Context {Obj : Type} `{EqDecision Obj}.

Definition hit_of (e : event Obj) : option (hit Obj) :=
  match e with
  | Push o => Some (Entry o)
  | Remove o | Outside o => Some (Exit o)
  | NoHit | SelfHit | Grazing => None
  end.

(** The entering and leaving hits of a trace, in order. *)
Definition hits (tr : list (event Obj * list Obj)) : list (hit Obj) :=
  omap (fun p => hit_of p.1) tr.

Definition is_entry (e : event Obj) : bool :=
  match e with Push _ => true | _ => false end.
Definition is_exit (e : event Obj) : bool :=
  match e with Remove _ | Outside _ => true | _ => false end.
Definition is_stack_op (e : event Obj) : bool :=
  match e with Push _ | Remove _ => true | _ => false end.

(** The pushes and removals of a trace, in order. *)
Definition stack_ops (tr : list (event Obj * list Obj)) : list (event Obj) :=
  filter (fun e => is_stack_op e = true) tr.*1.

(** The hits of a ray through pairwise disjoint solids: the ray is inside at
    most one solid at a time ([inside]), no solid is entered before the
    current one is left, and a leaving hit while inside [o] is a hit of [o]. *)
Fixpoint alternating (inside : option Obj) (hs : list (hit Obj)) : Prop :=
  match hs with
  | [] => True
  | Entry o :: hs' => inside = None /\ alternating (Some o) hs'
  | Exit o :: hs' =>
      match inside with Some o' => o = o' | None => True end
      /\ alternating None hs'
  end.

(** The stack of a ray through disjoint solids: [[]] outside every solid and
    [[o]] inside [o]. *)
Definition stack_of (inside : option Obj) : list Obj :=
  match inside with Some o => [o] | None => [] end.

(** Pushes and removals come in pairs: each push is followed by the removal
    of the same solid before the next push. *)
Fixpoint paired (ops : list (event Obj)) : Prop :=
  match ops with
  | [] => True
  | [Push _] => True
  | Push o :: Remove o' :: ops' => o = o' /\ paired ops'
  | _ => False
  end.

End hits.

(** A scene with one solid, a slab between the planes [x = 1] and [x = 2]
    whose faces have outward normals along the x axis, answering for rays
    along [+x]. *)
Definition slab_scene (origin direction : Vector) (distance : R)
    : option (Vector * Vector * string) :=
  if decide (vx origin < 1) then Some (mkVector 1 0 0, mkVector (-1) 0 0, "bone")
  else if decide (vx origin < 2) then Some (mkVector 2 0 0, mkVector 1 0 0, "bone")
  else None.

End RayCast.

(** ** voxelgrid.py *)

Module VoxelGrid.
Import Py.
Local Open Scope R_scope.

Definition DEPTH_SLICES : nat := 150.
Definition SUB_STEPS : nat := 2.
Definition PIXEL_JITTER_STRENGTH : R := 0.2.
Definition MAX_EMPTY : nat := 200.
Definition EPSILON : R := 1e-5.

(** *** The point containment test *)

Section point_in_mesh.
Context {Obj : Type}.

(** [obj.ray_cast(origin, end)]: the hit location, or [None] when [hit] is
    false. *)
Variable ray_cast : Obj -> Vector -> Vector -> option Vector.
(** [obj.matrix_world.inverted() @ p] *)
Variable matrix_world_inverted : Obj -> Vector -> Vector.

Definition direction_local : Vector := mkVector 1 0 0.

Record probe : Type := mkProbe {
  origin : Vector;
  max_dist : R;
  hits : nat
}.

Inductive probe_step : Type :=
  | Again (p : probe)
  | Done (hits : nat).

(** The body of [while True]. *)
Definition probe_body (obj : Obj) (point_local : Vector) (p : probe) : probe_step :=
  let end_ := vadd (origin p) (vscale direction_local (max_dist p)) in
  match ray_cast obj (origin p) end_ with
  | None => Done (hits p)
  | Some loc =>
      let hits' := (hits p + 1)%nat in
      let offset := 1e-4 in
      let origin' := vadd loc (vscale direction_local offset) in
      let max_dist' := max_dist p - vlength (vsub loc point_local) in
      if decide (max_dist' <= 0) then Done hits'
      else Again (mkProbe origin' max_dist' hits')
  end.

Fixpoint probe_loop (fuel : nat) (obj : Obj) (point_local : Vector) (p : probe)
    : option nat :=
  match fuel with
  | O => None
  | S fuel' =>
      match probe_body obj point_local p with
      | Done h => Some h
      | Again p' => probe_loop fuel' obj point_local p'
      end
  end.

Definition probe_start (point_local : Vector) : probe :=
  mkProbe (vadd point_local (vscale direction_local 1e-4)) 1e8 0.

(** The number of hits counted when the loop ends. *)
Definition count_hits (fuel : nat) (obj : Obj) (point_world : Vector) : option nat :=
  let point_local := matrix_world_inverted obj point_world in
  probe_loop fuel obj point_local (probe_start point_local).

Definition point_in_mesh_local (fuel : nat) (obj : Obj) (point_world : Vector)
    : option bool :=
  (fun h => bool_decide (h `mod` 2 = 1)%nat) <$> count_hits fuel obj point_world.

(** The probe is past the start of the ray: at least [1e-4] along [+x] from
    the point tested. *)
Definition probe_ahead (point_local : Vector) (p : probe) : Prop :=
  vx point_local + 1e-4 <= vx (origin p).

End point_in_mesh.

(** A mesh with one face in the plane [x = 1], seen from every origin to its
    left. *)
Definition one_face (obj : string) (origin end_ : Vector) : option Vector :=
  if decide (vx origin < 1) then Some (mkVector 1 (vy origin) (vz origin))
  else None.

(** *** Filling the grid *)

Section fill.
Context {Obj : Type}.

(** The result of [point_in_mesh_local(o, pt)]. *)
Variable inside : Obj -> Vector -> bool.
(** [objects_by_type[name]] *)
Variable objects_by_type : string -> list Obj.
(** The successive values of [random.random()]. *)
Variable random : nat -> R.
(** [cam_world_matrix @ p] *)
Variable cam_world_matrix : Vector -> Vector.
Variables (cam_location : Vector) (fov_y aspect shift_x shift_y : R).
Variables (width height : nat).
(** The user adjustable parameters. *)
Variables (depth_slices sub_steps max_empty : nat) (jitter : R).
Variables (min_dist step : R).

Definition get_tag (pt : Vector) : string :=
  if existsb (fun o => inside o pt) (objects_by_type "skeleton") then "skeleton"
  else if existsb (fun o => inside o pt) (objects_by_type "muscle") then "muscle"
  else if existsb (fun o => inside o pt) (objects_by_type "body") then "body"
  else "none".

(** [depth_values], with the index [enumerate] gives each. *)
Definition depth_values : list (nat * R) :=
  (fun k : nat => (k, min_dist + INR k * step)) <$> seq 0 depth_slices.

(** The state of one ray: its row [voxel_grid[j][i]], the three loop
    variables, and the number of random values drawn so far. *)
Record ray_state : Type := mkRay {
  row : list string;
  found_geometry : bool;
  exited_geometry : bool;
  empty_count : nat;
  draws : nat
}.

(** [for s in range(SUB_STEPS)]: the tags of the sub-samples of one slice. *)
Fixpoint sample_tags (ray_dir_world : Vector) (base_dist : R) (s : nat) (n : nat)
    : list string * nat :=
  match s with
  | O => ([], n)
  | S s' =>
      let frac := random n in
      let dist_sub := base_dist + frac * step in
      let pt_sample :=
        vadd (vadd cam_location (vscale ray_dir_world dist_sub))
             (vscale ray_dir_world EPSILON) in
      let '(tags, n') := sample_tags ray_dir_world base_dist s' (S n) in
      (get_tag pt_sample :: tags, n')
  end.

Definition voxel_tag_of (tags : list string) : string :=
  if bool_decide ("skeleton" ∈ tags) then "skeleton"
  else if bool_decide ("muscle" ∈ tags) then "muscle"
  else if bool_decide ("body" ∈ tags) then "body"
  else "none".

(** The body of the slice loop, past the [break] test. *)
Definition slice_body (ray_dir_world : Vector) (k : nat) (base_dist : R)
    (s : ray_state) : ray_state :=
  let '(tags, n') := sample_tags ray_dir_world base_dist sub_steps (draws s) in
  let voxel_tag := voxel_tag_of tags in
  let row' := <[k := voxel_tag]> (row s) in
  if bool_decide (voxel_tag ≠ "none") then
    mkRay row' true (exited_geometry s) 0 n'
  else if found_geometry s then
    let empty_count' := (empty_count s + 1)%nat in
    if bool_decide (max_empty < empty_count')%nat then
      mkRay row' (found_geometry s) true empty_count' n'
    else
      mkRay row' (found_geometry s) (exited_geometry s) empty_count' n'
  else
    mkRay row' (found_geometry s) (exited_geometry s) (empty_count s) n'.

(** [for k, base_dist in enumerate(depth_values)] *)
Fixpoint fill_slices (ray_dir_world : Vector) (slices : list (nat * R))
    (s : ray_state) : ray_state :=
  match slices with
  | [] => s
  | (k, base_dist) :: rest =>
      if exited_geometry s then s
      else fill_slices ray_dir_world rest (slice_body ray_dir_world k base_dist s)
  end.

(** [exited_geometry] is set exactly when geometry has been seen and the run
    of empty slices is longer than [max_empty]. *)
Definition exit_inv (s : ray_state) : Prop :=
  exited_geometry s = true <->
  found_geometry s = true /\ (max_empty < empty_count s)%nat.

(** The state of a ray before its first slice; [n] random values have been
    drawn so far. *)
Definition ray_init (n : nat) : ray_state :=
  mkRay (replicate depth_slices "none") false false 0 n.

(** The camera ray through the jittered position of pixel [(j, i)], drawing
    [jx] and [jy]. *)
Definition pixel_ray (j i : nat) (n : nat) : Vector * nat :=
  let v := (INR j + 0.5) / INR height in
  let u := (INR i + 0.5) / INR width in
  let jx := (random n - 0.5) * jitter / INR width in
  let jy := (random (S n) - 0.5) * jitter / INR height in
  let u_j := u + jx in
  let v_j := v + jy in
  let screen_x := (u_j - 0.5) * 2.0 - shift_x * 2.0 in
  let screen_y := (v_j - 0.5) * 2.0 - shift_y * 2.0 in
  let px := screen_x * aspect * tan (fov_y * 0.5) in
  let py := screen_y * tan (fov_y * 0.5) in
  let pz := -1.0 in
  let local_point := mkVector px py pz in
  let world_point := cam_world_matrix local_point in
  (normalized (vsub world_point cam_location), S (S n)).

(** The body of the two pixel loops: the row of pixel [(j, i)] and the
    number of random values drawn after it. *)
Definition fill_pixel (j i : nat) (n : nat) : list string * nat :=
  let '(ray_dir_world, n') := pixel_ray j i n in
  let s := fill_slices ray_dir_world depth_values (ray_init n') in
  (row s, draws s).

Fixpoint fill_row (j : nat) (cols : list nat) (n : nat)
    : list (list string) * nat :=
  match cols with
  | [] => ([], n)
  | i :: cols' =>
      let '(r, n') := fill_pixel j i n in
      let '(rs, n'') := fill_row j cols' n' in
      (r :: rs, n'')
  end.

Fixpoint fill_rows (js : list nat) (n : nat)
    : list (list (list string)) * nat :=
  match js with
  | [] => ([], n)
  | j :: js' =>
      let '(p, n') := fill_row j (seq 0 width) n in
      let '(ps, n'') := fill_rows js' n' in
      (p :: ps, n'')
  end.

(** [voxel_grid] after the fill loops. *)
Definition fill_grid : list (list (list string)) := (fill_rows (seq 0 height) 0).1.

End fill.

(** A random source that always answers [r]. *)
Definition constant_source (r : R) (n : nat) : R := r.

(** A scene with one skeleton solid, the half space [x < 0.5]. *)
Definition near_solid (o : string) (pt : Vector) : bool :=
  bool_decide (vx pt < 0.5).
Definition bone_only (name : string) : list string :=
  if bool_decide (name = "skeleton") then ["bone"] else [].

(** A scene with one skeleton solid, the half space [z < -0.5], in front of
    a camera at the origin that looks down the [-z] axis. *)
Definition far_solid (o : string) (pt : Vector) : bool :=
  bool_decide (vz pt < -0.5).

(** A random source that leaves the pixel position at the pixel centre
    (both jitter draws are 0.5) and answers [frac] from then on. *)
Definition centred_source (frac : R) (n : nat) : R :=
  if (n <? 2)%nat then 0.5 else frac.

(** The grid of one pixel and one slice of length 1 built in that scene. *)
Definition one_voxel_grid (random : nat -> R) : list (list (list string)) :=
  fill_grid far_solid bone_only random (fun p => p) (mkVector 0 0 0)
    0.8 1 0 0 1 1 1 SUB_STEPS MAX_EMPTY PIXEL_JITTER_STRENGTH 0 1.

End VoxelGrid.

(** ** combine_results.py *)

Module Combine.
Import Py.
Local Open Scope R_scope.

(** [np.clip(x, lo, hi)] *)
Definition clip (x lo hi : R) : R := Rmin (Rmax x lo) hi.

(** [np.power(x, y)] for [x >= 0]. *)
Definition power (x y : R) : R :=
  if decide (0 < x) then Rpower x y
  else if decide (y = 0) then 1 else 0.

Definition srgb_to_linear (img : list R) (gamma : R) : list R :=
  (fun x => power (clip x 0 1) gamma) <$> img.

Definition linear_to_srgb (img : list R) (gamma : R) : list R :=
  (fun x => power (clip x 0 1) (1.0 / gamma)) <$> img.

(** [1.0 - srgb_to_linear(img)] *)
Definition transmission (img : list R) : list R :=
  (fun x => 1.0 - x) <$> srgb_to_linear img 2.2.

(** [combined_transmission *= transmission], in place.  An image is read as
    its pixel buffer, an array of one axis, so its shape is its length: two
    arrays of one shape are multiplied pixel by pixel, a layer of a single
    pixel is broadcast over the product, and any other layer cannot be
    broadcast to the shape of the product, which raises [ValueError]. *)
Definition imul (c t : list R) : result (list R) :=
  if decide (length t = length c) then Ok (zip_with Rmult c t)
  else match t with
       | [x] => Ok ((fun y => y * x) <$> c)
       | _ => Raise ValueError
       end.

(** [for img_path in image_files]; the images are those read and scaled to
    [0..1]. *)
Fixpoint combine_loop (images : list (list R))
    (combined_transmission : option (list R)) : result (option (list R)) :=
  match images with
  | [] => Ok combined_transmission
  | img :: rest =>
      let t := transmission img in
      let c := match combined_transmission with
               | None => (fun _ => 1) <$> t        (* np.ones_like *)
               | Some c => c
               end in
      match imul c t with
      | Ok c' => combine_loop rest (Some c')
      | Raise e => Raise e
      end
  end.

(** [composite_srgb]; with no image, [1.0 - None] raises. *)
Definition composite_srgb (images : list (list R)) : result (list R) :=
  match combine_loop images None with
  | Raise e => Raise e
  | Ok None => Raise TypeError
  | Ok (Some c) =>
      let composite_linear := (fun x => 1.0 - x) <$> c in
      Ok (linear_to_srgb composite_linear 2.2)
  end.

(** [combined_transmission] after the loop. *)
Definition combined (images : list (list R)) : result (option (list R)) :=
  combine_loop images None.

(** The optical depth of a layer of transmittance [t]. *)
Definition optical_depth (t : R) : R := - ln t.

(** [ts] are the linear transmittances of the layers at pixel [p]. *)
Definition layers_at (p : nat) (images : list (list R)) (ts : list R) : Prop :=
  Forall2 (fun img t => transmission img !! p = Some t) images ts.

Definition product (ts : list R) : R := foldr Rmult 1 ts.
Definition total (xs : list R) : R := foldr Rplus 0 xs.

(** The encoded value a single pass of optical depth [tau] gives a pixel. *)
Definition single_pass (tau : R) : R := power (clip (intensity tau) 0 1) (1.0 / 2.2).

End Combine.

(** ** Regions of a mask and neighbourhoods of a grid *)

Module MarrowSpec.
Import NumPy Marrow.

(** The cells at least [n] steps away from each face of an array of shape
    [(X, Y, Z)]. *)
Definition inset (n X Y Z i j k : nat) : Prop :=
  (n <= i /\ i + n < X) /\ (n <= j /\ j + n < Y) /\ (n <= k /\ k + n < Z).

(** The six face neighbours of a cell are [tag] in the grid. *)
Definition neighbours_are (g : grid3) (tag : string) (i j k : nat) : Prop :=
  at3 g (i - 1) j k = Some tag /\ at3 g (i + 1) j k = Some tag /\
  at3 g i (j - 1) k = Some tag /\ at3 g i (j + 1) k = Some tag /\
  at3 g i j (k - 1) = Some tag /\ at3 g i j (k + 1) = Some tag.

End MarrowSpec.

(** ** Grids, density maps and pixel buffers of the integrator *)

Module GridRenderSpec.
Import NumPy Py GridRender.
Local Open Scope R_scope.

(** Two grids hold the same tags at every index the metadata covers. *)
Definition agree_within (height width depth_slices : nat)
    (g g' : array3 string) : Prop :=
  forall j i k, (j < height)%nat -> (i < width)%nat -> (k < depth_slices)%nat ->
    at3 g j i k = at3 g' j i k.

(** Every tag of the grid has a density. *)
Definition known_tags (dm : gmap string R) (g : array3 string) : Prop :=
  forall j i k tag, at3 g j i k = Some tag -> is_Some (dm !! tag).

(** No density is negative. *)
Definition nonneg_densities (dm : gmap string R) : Prop :=
  forall tag d, dm !! tag = Some d -> 0 <= d.

(** The densities [ds] of the tags of column [(j, i)], slice by slice. *)
Definition column_densities (dm : gmap string R) (g : array3 string)
    (j i : nat) (ds : list R) : Prop :=
  forall k d, ds !! k = Some d ->
    exists tag, at3 g j i k = Some tag /\ dm !! tag = Some d.

(** The pixel buffer without the clamp to [0..1]. *)
Definition rgba (proj : list (list R)) : list R :=
  row ← proj; val ← row; [val; val; val; 1.0].

End GridRenderSpec.

(** ** Density maps and a slab scene for the ray caster *)

Module RayCastSpec.
Import Py RayCast.
Local Open Scope R_scope.

(** No solid has a negative density. *)
Definition nonneg_object_densities {Obj : Type} `{Countable Obj}
    (object_to_density : gmap Obj R) : Prop :=
  forall o d, object_to_density !! o = Some d -> 0 <= d.

(** A scene with one solid [o], a slab between the planes [x = a] and
    [x = b] with outward normals along the x axis, answering for rays along
    [+x]: the nearest face ahead of the origin, when it is no farther than
    [distance]. *)
Definition slab {Obj : Type} (a b : R) (o : Obj)
    (origin direction : Vector) (distance : R)
    : option (Vector * Vector * Obj) :=
  if decide (vx origin < a) then
    if decide (a - vx origin <= distance)
    then Some (mkVector a 0 0, mkVector (-1) 0 0, o) else None
  else if decide (vx origin < b) then
    if decide (b - vx origin <= distance)
    then Some (mkVector b 0 0, mkVector 1 0 0, o) else None
  else None.

End RayCastSpec.

(** ** Names and objects of the scene *)

Module Scene.
Import Py.

(** [c.lower()] for an ASCII character; other bytes are kept. *)
Definition lower_ascii (c : Ascii.ascii) : Ascii.ascii :=
  let n := Ascii.nat_of_ascii c in
  if (65 <=? n)%nat && (n <=? 90)%nat then Ascii.ascii_of_nat (n + 32) else c.

(** [s.lower()] on a name of ASCII characters.  Names with other characters
    are outside this model: Python also lowers some of them to ASCII letters
    (U+212A, the Kelvin sign, becomes [k]), which [lower] keeps as they
    are. *)
Fixpoint lower (s : string) : string :=
  match s with
  | EmptyString => EmptyString
  | String c s' => String (lower_ascii c) (lower s')
  end.

(** [sub in s] for strings. *)
Fixpoint contains (sub s : string) : bool :=
  if String.prefix sub s then true
  else match s with
       | EmptyString => false
       | String _ s' => contains sub s'
       end.

(** A scene object, as far as the scripts look at it: [obj.name] (unique in
    a Blender file) and [obj.type]. *)
Record blender_object : Type := mkObject { obj_name : string; obj_type : string }.

(** Objects are compared and hashed through the pair of their fields. *)
Definition object_fields (obj : blender_object) : string * string :=
  (obj_name obj, obj_type obj).

Definition object_of_fields (p : string * string) : blender_object :=
  mkObject p.1 p.2.

Definition object_of_fields_inv (obj : blender_object)
    : object_of_fields (object_fields obj) = obj :=
  match obj with mkObject _ _ => eq_refl end.

#[global] Instance blender_object_eq_dec : EqDecision blender_object :=
  fun a b =>
    match decide (object_fields a = object_fields b) with
    | left Heq =>
        left (eq_trans (eq_sym (object_of_fields_inv a))
                (eq_trans (f_equal object_of_fields Heq) (object_of_fields_inv b)))
    | right Hne => right (fun Hab => Hne (f_equal object_fields Hab))
    end.

#[global] Instance blender_object_countable : Countable blender_object :=
  inj_countable' object_fields object_of_fields object_of_fields_inv.

End Scene.

(** ** raycasting.py: the classification of the objects *)

Module RayCastSetup.
Import Py RayCast Scene.
Local Open Scope R_scope.

Definition DENSITY_VALUES : gmap string R :=
  list_to_map [ ("Bone", 0.5); ("Muscle", 0.08); ("Skin", 0.05) ].

Definition classify_object (obj : blender_object) : option string :=
  let name := lower (obj_name obj) in
  if contains "skeleton" name then Some "Bone"
  else if contains "muscles" name then Some "Muscle"
  else if contains "body" name then Some "Skin"
  else None.

(** [for obj in scene.objects: ...] filling [object_to_density]. *)
Fixpoint build_object_to_density (objects : list blender_object)
    (object_to_density : gmap blender_object R)
    : result (gmap blender_object R) :=
  match objects with
  | [] => Ok object_to_density
  | obj :: rest =>
      if bool_decide (obj_type obj = "MESH") then
        match classify_object obj with
        | Some cls =>
            match DENSITY_VALUES !! cls with
            | Some d => build_object_to_density rest (<[obj := d]> object_to_density)
            | None => Raise (KeyError cls)
            end
        | None => build_object_to_density rest object_to_density
        end
      else build_object_to_density rest object_to_density
  end.

(** The density the loop gives an object: that of its class, for a mesh
    with a class. *)
Definition assigned_density (obj : blender_object) : option R :=
  if bool_decide (obj_type obj = "MESH") then
    cls ← classify_object obj; DENSITY_VALUES !! cls
  else None.

End RayCastSetup.

(** ** voxelgrid.py: the classification of the objects *)

Module VoxelGridSetup.
Import Py VoxelGrid Scene.

(** The bucket the classification loop appends a scene object to. *)
Definition bucket_of (obj : blender_object) : option string :=
  if bool_decide (obj_type obj = "MESH") then
    let lower_name := lower (obj_name obj) in
    if contains "skeleton" lower_name then Some "skeleton"
    else if contains "muscle" lower_name then Some "muscle"
    else if contains "body" lower_name then Some "body"
    else None
  else None.

Definition empty_buckets : gmap string (list blender_object) :=
  list_to_map [ ("skeleton", []); ("muscle", []); ("body", []) ].

(** [for obj in scene.objects: ...] filling [objects_by_type]. *)
Fixpoint classify_objects (objects : list blender_object)
    (objects_by_type : gmap string (list blender_object))
    : gmap string (list blender_object) :=
  match objects with
  | [] => objects_by_type
  | obj :: rest =>
      match bucket_of obj with
      | Some key =>
          classify_objects rest
            (<[key := default [] (objects_by_type !! key) ++ [obj]]> objects_by_type)
      | None => classify_objects rest objects_by_type
      end
  end.

End VoxelGridSetup.

(** ** voxelgrid.py: field of view and depth range *)

Module VoxelGridRange.
Import Py VoxelGrid.
Local Open Scope R_scope.

(** [compute_fov(camera_data)]; [None] stands for the [ZeroDivisionError]
    of a lens of 0. *)
Definition compute_fov (sensor_fit : string) (sensor_height sensor_width lens : R)
    : option R :=
  let sensor_size :=
    if bool_decide (sensor_fit = "VERTICAL") then sensor_height else sensor_width in
  if decide (lens = 0) then None
  else Some (2.0 * atan ((sensor_size * 0.5) / lens)).

Section depth_range.
Context {Obj : Type}.
(** [obj.data.vertices] as the list of [v.co]; [None] when [obj.data] has no
    attribute [vertices]. *)
Variable vertices : Obj -> option (list Vector).
(** [obj.matrix_world @ p] and [cam_inv @ p]. *)
Variable matrix_world : Obj -> Vector -> Vector.
Variable cam_inv : Vector -> Vector.

(** The pair [(min_dist, max_dist)] of the scan; [None] stands for the
    initial pair [(inf, -inf)], which the first vertex in front of the
    camera replaces in both components. *)
Definition see (range : option (R * R)) (dist : R) : option (R * R) :=
  match range with
  | None => Some (dist, dist)
  | Some (min_dist, max_dist) => Some (Rmin min_dist dist, Rmax max_dist dist)
  end.

(** The body of [for v in obj.data.vertices]. *)
Definition see_vertex (obj : Obj) (range : option (R * R)) (co : Vector)
    : option (R * R) :=
  let world_co := matrix_world obj co in
  let cam_co := cam_inv world_co in
  if decide (vz cam_co < 0) then see range (- vz cam_co) else range.

Definition scan_object (range : option (R * R)) (obj : Obj) : option (R * R) :=
  match vertices obj with
  | None => range
  | Some vs => foldl (see_vertex obj) range vs
  end.

(** [for obj_list in objects_by_type.values(): for obj in obj_list: ...] *)
Definition scan_buckets (buckets : list (list Obj)) : option (R * R) :=
  foldl (foldl scan_object) None buckets.

(** The distances in front of the camera of the vertices the scan visits. *)
Definition front_distances (buckets : list (list Obj)) : list R :=
  obj_list ← buckets; obj ← obj_list;
  co ← default [] (vertices obj);
  let z := vz (cam_inv (matrix_world obj co)) in
  if decide (z < 0) then [- z] else [].

End depth_range.

(** [(min_dist, max_dist)] after the fallbacks and the clamp to the clip
    range. *)
Definition depth_bounds (range : option (R * R)) (clip_start clip_end : R)
    : R * R :=
  let '(min_dist, max_dist) :=
    match range with
    | None => (clip_start, clip_end)
    | Some p => p
    end in
  let min_dist := Rmax min_dist clip_start in
  let max_dist := Rmin max_dist clip_end in
  let depth_range := max_dist - min_dist in
  if decide (depth_range <= 0) then (clip_start, clip_end)
  else (min_dist, max_dist).

(** The tags the builder writes. *)
Definition builder_tag (tag : string) : Prop :=
  tag = "skeleton" \/ tag = "muscle" \/ tag = "body" \/ tag = "none".

(** Every cell of the grid satisfies [P]. *)
Definition all_tags (P : string -> Prop) (g : list (list (list string))) : Prop :=
  Forall (Forall (Forall P)) g.

End VoxelGridRange.

(** ** Layers of the composite *)

Module CombineSpec.
Import Py Combine.
Local Open Scope R_scope.

(** The transmittances of the layers at pixel [p]; 0 where a layer has no
    such pixel. *)
Definition transmittances (p : nat) (images : list (list R)) : list R :=
  (fun img => default 0 (transmission img !! p)) <$> images.

(** All images have [n] pixels. *)
Definition same_size (n : nat) (images : list (list R)) : Prop :=
  Forall (fun img => length img = n) images.

End CombineSpec.

(** ** The hits the containment test counts *)

Module ProbeCount.
Import Py VoxelGrid.
Local Open Scope R_scope.

Section counted.
Context {Obj : Type}.
Variable ray_cast : Obj -> Vector -> Vector -> option Vector.
Variables (obj : Obj) (point_local : Vector).

(** The end point of the ray a probe casts. *)
Definition probe_end (p : probe) : Vector :=
  vadd (origin p) (vscale direction_local (max_dist p)).

(** [counted p n]: from the probe [p] on, the ray caster reports [n] hits in
    a row.  Each hit after the first is looked for from [1e-4] past the one
    before, with the budget lowered by the distance of that hit from the
    point tested; the row ends when the ray caster reports no hit, or with
    the hit that uses the budget up. *)
Inductive counted : probe -> nat -> Prop :=
  | counted_no_hit p :
      ray_cast obj (origin p) (probe_end p) = None ->
      counted p 0
  | counted_last p loc :
      ray_cast obj (origin p) (probe_end p) = Some loc ->
      max_dist p - vlength (vsub loc point_local) <= 0 ->
      counted p 1
  | counted_next p loc n :
      ray_cast obj (origin p) (probe_end p) = Some loc ->
      0 < max_dist p - vlength (vsub loc point_local) ->
      counted (mkProbe (vadd loc (vscale direction_local 1e-4))
                 (max_dist p - vlength (vsub loc point_local))
                 (hits p + 1)) n ->
      counted p (S n).

End counted.

(** A point to the left of the face of [one_face] and a point to its
    right. *)
Definition left_of_face : Vector := mkVector 0 0 0.
Definition right_of_face : Vector := mkVector 2 0 0.

End ProbeCount.

(** ** The crossings of a ray with the solids of the scene *)

Module RayCrossings.
Import Py RayCast.
Local Open Scope R_scope.

(** A crossing of the ray with the surface of a solid: its distance from the
    camera along the ray, the surface normal there, and the solid. *)
Record crossing (Obj : Type) : Type := mkCrossing {
  at_dist : R;
  normal : Vector;
  solid : Obj
}.
Arguments mkCrossing {Obj} _ _ _.
Arguments at_dist {Obj} _.
Arguments normal {Obj} _.
Arguments solid {Obj} _.

Section crossings.
Context {Obj : Type}.
Variables (cam_location ray_dir : Vector) (clip_start clip_end : R).

(** The first crossing beyond the distance [t]; the list is in the order of
    the ray. *)
Fixpoint next_crossing (xs : list (crossing Obj)) (t : R) : option (crossing Obj) :=
  match xs with
  | [] => None
  | x :: xs' => if decide (t < at_dist x) then Some x else next_crossing xs' t
  end.

(** What [scene.ray_cast] returns for a crossing. *)
Definition reported (x : crossing Obj) : Vector * Vector * Obj :=
  (vadd cam_location (vscale ray_dir (at_dist x)), normal x, solid x).

(** The scene answers the march with the crossings [xs] of the ray: from
    every distance [t] in the clip range it reports the first crossing beyond
    [t], and no hit when there is none. *)
Definition sees
    (scene_ray_cast : Vector -> Vector -> R -> option (Vector * Vector * Obj))
    (xs : list (crossing Obj)) : Prop :=
  forall t, clip_start <= t < clip_end ->
    scene_ray_cast (vadd cam_location (vscale ray_dir t)) ray_dir (clip_end - t)
    = reported <$> next_crossing xs t.

(** A crossing that is not grazing: the ray goes into the solid, or out of
    it. *)
Definition entering (x : crossing Obj) : Prop :=
  vdot ray_dir (normal x) <= - DOT_THRESHOLD.
Definition leaving (x : crossing Obj) : Prop :=
  DOT_THRESHOLD <= vdot ray_dir (normal x).

(** The crossings of a ray through pairwise disjoint solids: the ray goes
    into a solid only from outside every solid, and the next crossing takes
    it out of that solid. *)
Fixpoint disjoint_solids (inside : option Obj) (xs : list (crossing Obj)) : Prop :=
  match xs with
  | [] => True
  | x :: xs' =>
      match inside with
      | None => entering x /\ disjoint_solids (Some (solid x)) xs'
      | Some o => leaving x /\ solid x = o /\ disjoint_solids None xs'
      end
  end.

(** The crossings come in the order of the ray, after the distance [t]. *)
Fixpoint in_ray_order (t : R) (xs : list (crossing Obj)) : Prop :=
  match xs with
  | [] => True
  | x :: xs' => t < at_dist x /\ in_ray_order (at_dist x) xs'
  end.

(** Each crossing lies at least [EPS_DIST] beyond the distance from which
    the march looks for it: the first at least [EPS_DIST] after [t], each
    other one at least [2 * EPS_DIST] after the one before. *)
Fixpoint separated (t : R) (xs : list (crossing Obj)) : Prop :=
  match xs with
  | [] => True
  | x :: xs' => t + EPS_DIST <= at_dist x /\ separated (at_dist x + EPS_DIST) xs'
  end.

(** The hit and the stack operation that belong to a crossing. *)
Definition hit_of_crossing (x : crossing Obj) : hit Obj :=
  if decide (vdot ray_dir (normal x) < 0) then Entry (solid x) else Exit (solid x).
Definition op_of_crossing (x : crossing Obj) : event Obj :=
  if decide (vdot ray_dir (normal x) < 0) then Push (solid x) else Remove (solid x).

End crossings.

End RayCrossings.

(** ** What the outputs of the three voxel scripts depend on *)

Module Dependence.
Import NumPy Py Marrow.

(** The distance between two indices of one axis. *)
Definition axis_dist (a b : nat) : nat := (a - b) + (b - a).

(** The cell [(a, b, c)] is at most [n] steps along the axes away from
    [(i, j, k)]. *)
Definition within_steps (n i j k a b c : nat) : Prop :=
  axis_dist a i + axis_dist b j + axis_dist c k <= n.

(** Two masks hold the same values within [n] steps of [(i, j, k)]. *)
Definition masks_agree_near (n i j k : nat) (m m' : mask3) : Prop :=
  forall a b c, within_steps n i j k a b c -> cell m a b c = cell m' a b c.

(** Two density maps give the same density, or none, to every tag the grid
    holds at an index the metadata covers. *)
Definition densities_agree_within (height width depth_slices : nat)
    (g : array3 string) (dm dm' : gmap string R) : Prop :=
  forall j i k tag, j < height -> i < width -> k < depth_slices ->
    at3 g j i k = Some tag -> dm !! tag = dm' !! tag.

(** Two random sources give the same first [n] values. *)
Definition sources_agree (n : nat) (random random' : nat -> R) : Prop :=
  forall idx, idx < n -> random idx = random' idx.

(** The random source that follows [random] for [n] draws and answers [r]
    from then on. *)
Definition source_then (random : nat -> R) (n : nat) (r : R) (idx : nat) : R :=
  if (idx <? n)%nat then random idx else r.

End Dependence.

(* ================================================================== *)
(** * Properties *)
(* ================================================================== *)

(** ** Lookups through slices, slice assignment and elementwise maps *)

Module NumPyFacts.
Import NumPy.


Lemma slice_bound_nonneg n (i : nat) : slice_bound n (Z.of_nat i) = i `min` n.
Proof. unfold slice_bound. destruct (Z.ltb_spec (Z.of_nat i) 0); lia. Qed.

Lemma slice_bound_neg n (i : nat) :
  slice_bound n (- Z.of_nat (S i)) = n - S i.
Proof. unfold slice_bound. destruct (Z.ltb_spec (- Z.of_nat (S i)) 0); lia. Qed.

Lemma lookup_py_slice {A} start stop (l : list A) i :
  py_slice start stop l !! i =
    if decide (i < from_option (slice_bound (length l)) (length l) stop
                   - slice_bound (length l) start)
    then l !! (slice_bound (length l) start + i) else None.
Proof.
  unfold py_slice. case_decide.
  - by rewrite lookup_take_lt, lookup_drop.
  - apply lookup_take_ge. lia.
Qed.

Lemma length_py_slice {A} start stop (l : list A) :
  length (py_slice start stop l) =
    from_option (slice_bound (length l)) (length l) stop
      - slice_bound (length l) start.
Proof.
  unfold py_slice. rewrite length_take, length_drop.
  assert (slice_bound (length l) start <= length l) by (unfold slice_bound; lia).
  destruct stop as [s|]; simpl; [|lia].
  assert (slice_bound (length l) s <= length l) by (unfold slice_bound; lia). lia.
Qed.

Lemma lookup_set_inner {A B} (upd : A -> B -> A) (l : list A) (v : list B) i :
  length v = length l - 2 ->
  set_slice upd 1 (-1) l v !! i =
    if decide (1 <= i /\ i + 1 < length l)
    then x ← l !! i; y ← v !! (i - 1); Some (upd x y)
    else l !! i.
Proof.
  intros Hv. unfold set_slice.
  change 1%Z with (Z.of_nat 1). change (-1)%Z with (- Z.of_nat 1)%Z.
  rewrite slice_bound_nonneg, slice_bound_neg.
  set (n := length l) in *.
  assert (Hn : length l = n) by done.
  case_decide as Hi.
  - rewrite lookup_app_r by (rewrite length_take; lia).
    rewrite length_take, Hn.
    rewrite lookup_app_l by (rewrite length_zip_with, length_take, length_drop; lia).
    rewrite lookup_zip_with, lookup_take_lt, lookup_drop by lia.
    replace ((1 `min` n) `min` n) with 1 by lia.
    replace (1 `min` n) with 1 by lia.
    replace (1 + (i - 1)) with i by lia. done.
  - destruct (decide (i < 1 `min` n)).
    + rewrite lookup_app_l by (rewrite length_take; lia).
      by rewrite lookup_take_lt.
    + rewrite lookup_app_r by (rewrite length_take; lia).
      rewrite length_take, Hn.
      destruct (decide (n <= i)).
      * rewrite (lookup_ge_None_2 l i) by lia.
        apply lookup_ge_None_2.
        rewrite length_app, length_zip_with, length_take, !length_drop. lia.
      * rewrite lookup_app_r
          by (rewrite length_zip_with, length_take, length_drop; lia).
        rewrite length_zip_with, length_take, length_drop, lookup_drop.
        f_equal. lia.
Qed.

Lemma length_set_slice {A B} (upd : A -> B -> A) start stop (l : list A) (v : list B) :
  length v = slice_bound (length l) stop - slice_bound (length l) start ->
  length (set_slice upd start stop l v) = length l.
Proof.
  intros Hv. unfold set_slice.
  assert (slice_bound (length l) start <= length l) by (unfold slice_bound; lia).
  assert (slice_bound (length l) stop <= length l) by (unfold slice_bound; lia).
  rewrite !length_app, length_zip_with, !length_take, !length_drop. lia.
Qed.

Section shape.
Context {A : Type}.
Implicit Types a b : array3 A.

Lemma shape3_plane X Y Z a i (p : list (list A)) :
  shape3 X Y Z a -> a !! i = Some p ->
  length p = Y /\ Forall (fun row => length row = Z) p.
Proof. intros [_ H] Hi. by eapply (Forall_lookup_1 _ _ _ _ H). Qed.

Lemma shape3_row X Y Z a i j (p : list (list A)) (r : list A) :
  shape3 X Y Z a -> a !! i = Some p -> p !! j = Some r -> length r = Z.
Proof.
  intros Ha Hi Hj. destruct (shape3_plane _ _ _ _ _ _ Ha Hi) as [_ H].
  by eapply (Forall_lookup_1 _ _ _ _ H).
Qed.

Lemma at3_is_Some X Y Z a i j k :
  shape3 X Y Z a -> is_Some (at3 a i j k) <-> i < X /\ j < Y /\ k < Z.
Proof.
  intros Ha. unfold at3. split.
  - intros [x Hx]. destruct (a !! i) as [p|] eqn:Hp; [|done]. simpl in Hx.
    destruct (p !! j) as [r|] eqn:Hr; [|done]. simpl in Hx.
    destruct (shape3_plane _ _ _ _ _ _ Ha Hp) as [HY _].
    pose proof (shape3_row _ _ _ _ _ _ _ _ Ha Hp Hr) as HZ.
    apply lookup_lt_Some in Hp, Hr, Hx. destruct Ha as [HX _]. lia.
  - intros (Hi & Hj & Hk). destruct Ha as [HX HF].
    destruct (lookup_lt_is_Some_2 a i) as [p Hp]; [lia|].
    pose proof (Forall_lookup_1 _ _ _ _ HF Hp) as [HY HR].
    destruct (lookup_lt_is_Some_2 p j) as [r Hr]; [lia|].
    pose proof (Forall_lookup_1 _ _ _ _ HR Hr) as HZ. simpl in HZ.
    rewrite Hp. simpl. rewrite Hr. simpl. apply lookup_lt_is_Some_2. lia.
Qed.

Lemma at3_None X Y Z a i j k :
  shape3 X Y Z a -> ~ (i < X /\ j < Y /\ k < Z) -> at3 a i j k = None.
Proof.
  intros Ha Hn. apply eq_None_not_Some. by rewrite (at3_is_Some X Y Z).
Qed.

End shape.

Lemma at3_map2_3 {A B C} (f : A -> B -> C) (a : array3 A) (b : array3 B) i j k :
  at3 (map2_3 f a b) i j k = x ← at3 a i j k; y ← at3 b i j k; Some (f x y).
Proof.
  unfold at3, map2_3. rewrite lookup_zip_with.
  destruct (a !! i) as [p|]; simpl; [|done].
  destruct (b !! i) as [q|]; simpl.
  2:{ by destruct (p !! j ≫= _). }
  rewrite lookup_zip_with.
  destruct (p !! j) as [r|]; simpl; [|done].
  destruct (q !! j) as [s|]; simpl.
  2:{ by destruct (r !! k). }
  by rewrite lookup_zip_with.
Qed.

Lemma at3_map3 {A B} (f : A -> B) (a : array3 A) i j k :
  at3 (map3 f a) i j k = f <$> at3 a i j k.
Proof.
  unfold at3, map3. rewrite list_lookup_fmap.
  destruct (a !! i) as [p|]; simpl; [|done].
  rewrite list_lookup_fmap.
  destruct (p !! j) as [r|]; simpl; [|done].
  by rewrite list_lookup_fmap.
Qed.

Lemma shape3_map3 {A B} (f : A -> B) X Y Z (a : array3 A) :
  shape3 X Y Z a -> shape3 X Y Z (map3 f a).
Proof.
  intros [HX HF]. split; unfold map3.
  - by rewrite length_fmap.
  - apply Forall_fmap. eapply Forall_impl; [exact HF|].
    intros p [HY HR]. simpl. split; [by rewrite length_fmap|].
    apply Forall_fmap. eapply Forall_impl; [exact HR|].
    intros r HZ. simpl. by rewrite length_fmap.
Qed.

Lemma shape3_map2_3 {A B C} (f : A -> B -> C) X Y Z (a : array3 A) (b : array3 B) :
  shape3 X Y Z a -> shape3 X Y Z b -> shape3 X Y Z (map2_3 f a b).
Proof.
  intros [HX HF] [HX' HF']. split; unfold map2_3.
  - rewrite length_zip_with. lia.
  - apply Forall_lookup. intros i pq Hpq.
    apply lookup_zip_with_Some in Hpq as (p & q & -> & Hp & Hq).
    destruct (Forall_lookup_1 _ _ _ _ HF Hp) as [HY HR].
    destruct (Forall_lookup_1 _ _ _ _ HF' Hq) as [HY' HR'].
    split; [rewrite length_zip_with; lia|].
    apply Forall_lookup. intros j rs Hrs.
    apply lookup_zip_with_Some in Hrs as (r & s & -> & Hr & Hs).
    pose proof (Forall_lookup_1 _ _ _ _ HR Hr) as HZ.
    pose proof (Forall_lookup_1 _ _ _ _ HR' Hs) as HZ'. simpl in HZ, HZ'.
    rewrite length_zip_with. lia.
Qed.

Lemma Forall_py_slice {A} (P : A -> Prop) start stop (l : list A) :
  Forall P l -> Forall P (py_slice start stop l).
Proof. intros H. unfold py_slice. by apply Forall_take, Forall_drop. Qed.

Lemma shape3_slice3 {A} s0 s1 s2 X Y Z (a : array3 A) :
  shape3 X Y Z a ->
  shape3 (slice_len X s0) (slice_len Y s1) (slice_len Z s2) (slice3 s0 s1 s2 a).
Proof.
  intros [HX HF]. unfold slice3, slice_len. split.
  - by rewrite length_fmap, length_py_slice, HX.
  - apply Forall_fmap, Forall_py_slice.
    eapply Forall_impl; [exact HF|]. intros p [HY HR]. cbv beta. split.
    + by rewrite length_fmap, length_py_slice, HY.
    + apply Forall_fmap, Forall_py_slice.
      eapply Forall_impl; [exact HR|]. intros r HZ. unfold compose.
      by rewrite length_py_slice, HZ.
Qed.

Lemma at3_slice3 {A} s0 s1 s2 X Y Z (a : array3 A) i j k :
  shape3 X Y Z a ->
  at3 (slice3 s0 s1 s2 a) i j k =
    if decide (i < slice_len X s0 /\ j < slice_len Y s1 /\ k < slice_len Z s2)
    then at3 a (slice_bound X s0.1 + i) (slice_bound Y s1.1 + j)
               (slice_bound Z s2.1 + k)
    else None.
Proof.
  intros Ha. case_decide as Hd.
  2:{ eapply at3_None; [by apply shape3_slice3|done]. }
  destruct Hd as (Hi & Hj & Hk). unfold slice_len in *.
  pose proof Ha as [HX HF].
  unfold at3, slice3. rewrite list_lookup_fmap, lookup_py_slice, HX.
  rewrite decide_True by done.
  destruct (a !! (slice_bound X s0.1 + i)) as [p|] eqn:Hp; simpl; [|done].
  destruct (shape3_plane _ _ _ _ _ _ Ha Hp) as [HY HR].
  rewrite list_lookup_fmap, lookup_py_slice, HY.
  rewrite decide_True by done.
  destruct (p !! (slice_bound Y s1.1 + j)) as [r|] eqn:Hr; simpl; [|done].
  pose proof (Forall_lookup_1 _ _ _ _ HR Hr) as HZ. simpl in HZ.
  rewrite lookup_py_slice, HZ. by rewrite decide_True.
Qed.

Lemma at3_set_inner3 {A} X Y Z (a v : array3 A) i j k :
  shape3 X Y Z a -> shape3 (X - 2) (Y - 2) (Z - 2) v ->
  at3 (set_inner3 a v) i j k =
    if decide ((1 <= i /\ i + 1 < X) /\ (1 <= j /\ j + 1 < Y) /\ (1 <= k /\ k + 1 < Z))
    then at3 v (i - 1) (j - 1) (k - 1)
    else at3 a i j k.
Proof.
  intros Ha Hv. pose proof Ha as [HX HF]. pose proof Hv as [HX' HF'].
  unfold at3 at 1. unfold set_inner3.
  rewrite lookup_set_inner by lia. rewrite HX.
  destruct (decide (1 <= i /\ i + 1 < X)) as [Hi|Hi].
  2:{ rewrite decide_False by tauto. done. }
  destruct (lookup_lt_is_Some_2 a i) as [p Hp]; [lia|].
  destruct (lookup_lt_is_Some_2 v (i - 1)) as [q Hq]; [lia|].
  destruct (shape3_plane _ _ _ _ _ _ Ha Hp) as [HY HR].
  destruct (shape3_plane _ _ _ _ _ _ Hv Hq) as [HY' HR'].
  rewrite Hp, Hq. simpl.
  rewrite lookup_set_inner by lia. rewrite HY.
  destruct (decide (1 <= j /\ j + 1 < Y)) as [Hj|Hj].
  2:{ rewrite decide_False by tauto. unfold at3. by rewrite Hp. }
  destruct (lookup_lt_is_Some_2 p j) as [r Hr]; [lia|].
  destruct (lookup_lt_is_Some_2 q (j - 1)) as [s Hs]; [lia|].
  pose proof (Forall_lookup_1 _ _ _ _ HR Hr) as HZ.
  pose proof (Forall_lookup_1 _ _ _ _ HR' Hs) as HZ'. simpl in HZ, HZ'.
  rewrite Hr, Hs. simpl.
  rewrite lookup_set_inner by lia. rewrite HZ.
  destruct (decide (1 <= k /\ k + 1 < Z)) as [Hk|Hk].
  2:{ rewrite decide_False by tauto. unfold at3. by rewrite Hp; simpl; rewrite Hr. }
  rewrite decide_True by tauto.
  destruct (lookup_lt_is_Some_2 r k) as [x Hx]; [lia|].
  unfold at3. rewrite Hq. simpl. rewrite Hs. simpl.
  rewrite Hx. simpl. by destruct (s !! (k - 1)).
Qed.

Lemma shape3_set_inner3 {A} X Y Z (a v : array3 A) :
  shape3 X Y Z a -> shape3 (X - 2) (Y - 2) (Z - 2) v ->
  shape3 X Y Z (set_inner3 a v).
Proof.
  intros Ha Hv. pose proof Ha as [HX HF]. pose proof Hv as [HX' HF'].
  assert (Hb : forall n, slice_bound n (-1) - slice_bound n 1 = n - 2).
  { intros n. change 1%Z with (Z.of_nat 1). change (-1)%Z with (- Z.of_nat 1)%Z.
    rewrite slice_bound_nonneg, slice_bound_neg. lia. }
  unfold set_inner3. split.
  - rewrite length_set_slice; [done|]. rewrite Hb. lia.
  - apply Forall_lookup. intros i p' Hp'.
    rewrite lookup_set_inner in Hp' by lia.
    assert (exists p, a !! i = Some p /\
              (p' = p \/ exists q, v !! (i - 1) = Some q /\
                 p' = set_slice (set_slice (fun _ b => b) 1 (-1)) 1 (-1) p q))
      as (p & Hp & Hcase).
    { case_decide.
      - destruct (a !! i) as [p|]; [|done]. simpl in Hp'.
        destruct (v !! (i - 1)) as [q|]; [|done]. simpl in Hp'.
        exists p. split; [done|]. right. exists q. split; congruence.
      - exists p'. auto. }
    destruct (shape3_plane _ _ _ _ _ _ Ha Hp) as [HY HR].
    destruct Hcase as [->|(q & Hq & ->)]; [done|].
    destruct (shape3_plane _ _ _ _ _ _ Hv Hq) as [HY' HR'].
    split.
    + rewrite length_set_slice; [done|]. rewrite Hb. lia.
    + apply Forall_lookup. intros j r' Hr'.
      rewrite lookup_set_inner in Hr' by lia.
      case_decide.
      * destruct (p !! j) as [r|] eqn:Hr; [|done]. simpl in Hr'.
        destruct (q !! (j - 1)) as [s|] eqn:Hs; [|done]. simpl in Hr'.
        pose proof (Forall_lookup_1 _ _ _ _ HR Hr) as HZ.
        pose proof (Forall_lookup_1 _ _ _ _ HR' Hs) as HZ'. simpl in HZ, HZ'.
        injection Hr' as <-. rewrite length_set_slice; [done|]. rewrite Hb. lia.
      * by apply (Forall_lookup_1 _ _ _ _ HR Hr').
Qed.

End NumPyFacts.

(** ** What one erosion pass computes *)

Module MarrowFacts.
Import NumPy NumPyFacts Marrow.

Lemma slice_len_low n : slice_len n (0%Z, Some (-2)%Z) = n - 2.
Proof.
  unfold slice_len. simpl. change 0%Z with (Z.of_nat 0).
  change (-2)%Z with (- Z.of_nat 2)%Z.
  rewrite slice_bound_nonneg, slice_bound_neg. lia.
Qed.

Lemma slice_len_inner n : slice_len n (1%Z, Some (-1)%Z) = n - 2.
Proof.
  unfold slice_len. simpl. change 1%Z with (Z.of_nat 1).
  change (-1)%Z with (- Z.of_nat 1)%Z.
  rewrite slice_bound_nonneg, slice_bound_neg. lia.
Qed.

Lemma slice_len_high n : slice_len n (2%Z, None) = n - 2.
Proof.
  unfold slice_len. simpl. change 2%Z with (Z.of_nat 2).
  rewrite slice_bound_nonneg. lia.
Qed.

Lemma shape3_shrink {A} s0 s1 s2 X Y Z (a : array3 A) :
  shape3 X Y Z a ->
  slice_len X s0 = X - 2 -> slice_len Y s1 = Y - 2 -> slice_len Z s2 = Z - 2 ->
  shape3 (X - 2) (Y - 2) (Z - 2) (slice3 s0 s1 s2 a).
Proof. intros Ha <- <- <-. by apply shape3_slice3. Qed.

Lemma at3_shrink {A} s0 s1 s2 X Y Z (a : array3 A) i j k :
  shape3 X Y Z a ->
  slice_len X s0 = X - 2 -> slice_len Y s1 = Y - 2 -> slice_len Z s2 = Z - 2 ->
  i < X - 2 -> j < Y - 2 -> k < Z - 2 ->
  at3 (slice3 s0 s1 s2 a) i j k =
    at3 a (slice_bound X s0.1 + i) (slice_bound Y s1.1 + j) (slice_bound Z s2.1 + k).
Proof.
  intros Ha H0 H1 H2 Hi Hj Hk. rewrite (at3_slice3 _ _ _ X Y Z) by done.
  rewrite decide_True; [done|]. lia.
Qed.

Lemma cell_Some (m : mask3) i j k b : at3 m i j k = Some b -> cell m i j k = b.
Proof. unfold cell. by intros ->. Qed.

Lemma shape3_erode_pass X Y Z (m : mask3) :
  shape3 X Y Z m -> shape3 X Y Z (erode_pass m).
Proof.
  intros Hm. unfold erode_pass.
  apply shape3_set_inner3; [by apply shape3_map3|].
  repeat apply shape3_map2_3;
    apply shape3_shrink;
    auto using slice_len_low, slice_len_inner, slice_len_high.
Qed.

Lemma cell_erode_pass X Y Z (m : mask3) i j k :
  shape3 X Y Z m ->
  cell (erode_pass m) i j k =
    bool_decide (interior X Y Z i j k) &&
    (cell m (i - 1) j k && cell m (i + 1) j k &&
     cell m i (j - 1) k && cell m i (j + 1) k &&
     cell m i j (k - 1) && cell m i j (k + 1)).
Proof.
  intros Hm. unfold cell at 1, erode_pass.
  rewrite (at3_set_inner3 X Y Z).
  2:{ by apply shape3_map3. }
  2:{ repeat apply shape3_map2_3;
        apply shape3_shrink;
        auto using slice_len_low, slice_len_inner, slice_len_high. }
  fold (interior X Y Z i j k).
  destruct (decide (interior X Y Z i j k)) as [Hin|Hout].
  2:{ rewrite bool_decide_eq_false_2 by done. simpl.
      unfold zeros_like. rewrite at3_map3. by destruct (at3 m i j k). }
  rewrite bool_decide_eq_true_2 by done. simpl.
  destruct Hin as ((Hi1 & Hi2) & (Hj1 & Hj2) & (Hk1 & Hk2)).
  rewrite !at3_map2_3.
  rewrite !(at3_shrink _ _ _ X Y Z)
    by (auto using slice_len_low, slice_len_inner, slice_len_high; lia).
  simpl.
  change 0%Z with (Z.of_nat 0). change 1%Z with (Z.of_nat 1).
  change 2%Z with (Z.of_nat 2). rewrite !slice_bound_nonneg.
  replace (0 `min` X + (i - 1)) with (i - 1) by lia.
  replace (2 `min` X + (i - 1)) with (i + 1) by lia.
  replace (1 `min` X + (i - 1)) with i by lia.
  replace (0 `min` Y + (j - 1)) with (j - 1) by lia.
  replace (2 `min` Y + (j - 1)) with (j + 1) by lia.
  replace (1 `min` Y + (j - 1)) with j by lia.
  replace (0 `min` Z + (k - 1)) with (k - 1) by lia.
  replace (2 `min` Z + (k - 1)) with (k + 1) by lia.
  replace (1 `min` Z + (k - 1)) with k by lia.
  destruct (proj2 (at3_is_Some X Y Z m (i - 1) j k Hm)) as [b1 H1]; [lia|].
  destruct (proj2 (at3_is_Some X Y Z m (i + 1) j k Hm)) as [b2 H2]; [lia|].
  destruct (proj2 (at3_is_Some X Y Z m i (j - 1) k Hm)) as [b3 H3]; [lia|].
  destruct (proj2 (at3_is_Some X Y Z m i (j + 1) k Hm)) as [b4 H4]; [lia|].
  destruct (proj2 (at3_is_Some X Y Z m i j (k - 1) Hm)) as [b5 H5]; [lia|].
  destruct (proj2 (at3_is_Some X Y Z m i j (k + 1) Hm)) as [b6 H6]; [lia|].
  rewrite (cell_Some _ _ _ _ _ H1), (cell_Some _ _ _ _ _ H2),
    (cell_Some _ _ _ _ _ H3), (cell_Some _ _ _ _ _ H4),
    (cell_Some _ _ _ _ _ H5), (cell_Some _ _ _ _ _ H6).
  rewrite H1, H2, H3, H4, H5, H6. done.
Qed.


Example erode_hollow : erode_mask hollow 1 =
  let f := [false; false; false] in
  [ [f; f; f]; [f; [false; true; false]; f]; [f; f; f] ].
Proof. reflexivity. Qed.

Example erode_full_inner :
  cell (erode_mask (map3 (fun _ => true) checker) 1) 2 2 2 = true /\
  cell (erode_mask (map3 (fun _ => true) checker) 2) 2 2 2 = true /\
  cell (erode_mask (map3 (fun _ => true) checker) 2) 1 2 2 = false.
Proof. repeat split; reflexivity. Qed.

End MarrowFacts.

Module AttenuationFacts.
Import Py.
Local Open Scope R_scope.

Lemma intensity_0 : intensity 0 = 0.
Proof. unfold intensity. rewrite Ropp_0, exp_0. lra. Qed.

Lemma intensity_increasing a b : a < b -> intensity a < intensity b.
Proof.
  intros Hab. unfold intensity.
  assert (exp (- b) < exp (- a)) by (apply exp_increasing; lra). lra.
Qed.

Lemma intensity_range tau : 0 <= tau -> 0 <= intensity tau < 1.
Proof.
  intros Ht. unfold intensity. pose proof (exp_pos (- tau)).
  assert (exp (- tau) <= 1).
  { destruct Ht as [Ht| <-].
    - left. rewrite <- exp_0. apply exp_increasing. lra.
    - rewrite Ropp_0, exp_0. lra. }
  lra.
Qed.

Lemma intensity_limit eps :
  0 < eps -> exists T, 0 <= T /\ forall tau, T < tau -> Rabs (intensity tau - 1) < eps.
Proof.
  intros Heps. exists (Rmax 0 (- ln eps)). split; [apply Rmax_l|].
  intros tau Htau. unfold intensity.
  replace (1 - exp (- tau) - 1) with (- exp (- tau)) by lra.
  rewrite Rabs_Ropp, Rabs_right by (left; apply exp_pos).
  apply Rlt_le_trans with (exp (ln eps)); [|by rewrite exp_ln; [lra|]].
  apply exp_increasing. pose proof (Rmax_r 0 (- ln eps)). lra.
Qed.

End AttenuationFacts.

Module GridRenderFacts.
Import NumPy NumPyFacts Py GridRender.
Local Open Scope R_scope.

Lemma mapM_raise {A B} (f : A -> result B) (l : list A) e :
  mapM f l = Raise e -> exists x, x ∈ l /\ f x = Raise e.
Proof.
  induction l as [|x l IH]; simpl; [done|].
  destruct (f x) as [y|e'] eqn:Hx; simpl.
  - destruct (mapM f l) as [ys|e'] eqn:Hl; simpl; [done|].
    intros [= ->]. destruct IH as (x' & Hin & Hx'); [done|].
    exists x'. split; [by right|done].
  - intros [= ->]. exists x. split; [by left|done].
Qed.

Lemma mapM_raises {A B} (f : A -> result B) (l : list A) x :
  x ∈ l -> raises (f x) -> raises (mapM f l).
Proof.
  intros Hin Hx. induction l as [|y l IH]; [by apply elem_of_nil in Hin|].
  simpl. destruct (f y) as [b|e] eqn:Hy; simpl; [|by exists e].
  apply elem_of_cons in Hin as [->|Hin].
  - destruct Hx as [e He]. congruence.
  - destruct (IH Hin) as [e ->]. by exists e.
Qed.

Section integrator.
Variable dm : gmap string R.
Variable g : array3 string.
Variables (width height : nat) (step : R) (depth_slices : nat).

Lemma sum_densities_raise j i ks acc e :
  sum_densities dm g j i ks acc = Raise e ->
  exists k, k ∈ ks /\
    (at3 g j i k = None /\ e = IndexError \/
     exists tag, at3 g j i k = Some tag /\ dm !! tag = None /\ e = KeyError tag).
Proof.
  revert acc. induction ks as [|k ks IH]; intros acc; simpl; [done|].
  unfold voxel, density_of.
  destruct (at3 g j i k) as [tag|] eqn:Hk; simpl.
  2:{ intros [= <-]. exists k. split; [by left|]. by left. }
  destruct (dm !! tag) as [d|] eqn:Hd; simpl.
  - intros Hs. destruct (IH _ Hs) as (k' & Hin & Hk'). exists k'. split; [by right|done].
  - intros [= <-]. exists k. split; [by left|]. right. by exists tag.
Qed.

Lemma sum_densities_raises j i ks acc k tag :
  k ∈ ks -> at3 g j i k = Some tag -> dm !! tag = None ->
  raises (sum_densities dm g j i ks acc).
Proof.
  intros Hin Hk Hd. revert acc. induction ks as [|k' ks IH]; intros acc.
  { by apply elem_of_nil in Hin. }
  simpl. destruct (voxel g j i k') as [tag'|e] eqn:Hv; simpl; [|by exists e].
  destruct (density_of dm tag') as [d|e] eqn:Hd'; simpl; [|by exists e].
  apply elem_of_cons in Hin as [->|Hin]; [|by apply IH].
  unfold voxel in Hv. rewrite Hk in Hv. injection Hv as <-.
  unfold density_of in Hd'. by rewrite Hd in Hd'.
Qed.

Lemma pixel_raise j i e :
  pixel dm g step depth_slices j i = Raise e ->
  exists k, (k < depth_slices)%nat /\
    (at3 g j i k = None /\ e = IndexError \/
     exists tag, at3 g j i k = Some tag /\ dm !! tag = None /\ e = KeyError tag).
Proof.
  unfold pixel.
  destruct (sum_densities dm g j i (seq 0 depth_slices) 0) as [r|e'] eqn:Hs;
    simpl; [done|].
  intros [= ->]. destruct (sum_densities_raise _ _ _ _ _ Hs) as (k & Hin & Hk).
  exists k. split; [|done]. apply elem_of_seq in Hin. lia.
Qed.

Lemma pixel_raises j i k tag :
  (k < depth_slices)%nat -> at3 g j i k = Some tag -> dm !! tag = None ->
  raises (pixel dm g step depth_slices j i).
Proof.
  intros Hk Ht Hd. unfold pixel.
  destruct (sum_densities_raises j i (seq 0 depth_slices) 0 k tag) as [e ->];
    [apply elem_of_seq; lia|done|done|].
  by exists e.
Qed.

Lemma projection_raise e :
  projection dm g width height step depth_slices = Raise e ->
  exists j i k, (j < height)%nat /\ (i < width)%nat /\ (k < depth_slices)%nat /\
    (at3 g j i k = None /\ e = IndexError \/
     exists tag, at3 g j i k = Some tag /\ dm !! tag = None /\ e = KeyError tag).
Proof.
  unfold projection. intros Hp.
  apply mapM_raise in Hp as (j & Hj & Hp).
  apply mapM_raise in Hp as (i & Hi & Hp).
  apply pixel_raise in Hp as (k & Hk & Hp).
  apply elem_of_seq in Hj, Hi. exists j, i, k. repeat split; [lia..|done].
Qed.

Lemma projection_raises j i k tag :
  (j < height)%nat -> (i < width)%nat -> (k < depth_slices)%nat ->
  at3 g j i k = Some tag -> dm !! tag = None ->
  raises (projection dm g width height step depth_slices).
Proof.
  intros Hj Hi Hk Ht Hd. unfold projection.
  eapply (mapM_raises _ _ j); [apply elem_of_seq; lia|].
  eapply (mapM_raises _ _ i); [apply elem_of_seq; lia|].
  by eapply pixel_raises.
Qed.

Lemma render_raise_iff e :
  render_voxelgrid dm g width height step depth_slices = Raise e <->
  projection dm g width height step depth_slices = Raise e.
Proof.
  unfold render_voxelgrid.
  destruct (projection dm g width height step depth_slices); simpl;
    split; congruence.
Qed.

End integrator.

End GridRenderFacts.

Module RayCastFacts.
Import Py RayCast.
Local Open Scope R_scope.

Lemma vlength_nonneg v : 0 <= vlength v.
Proof. apply sqrt_pos. Qed.

Lemma EPS_DIST_pos : 0 < EPS_DIST.
Proof. unfold EPS_DIST. lra. Qed.

Lemma margin_eq : Rmax EPS_DIST 1e-5 = EPS_DIST.
Proof. apply Rmax_left. unfold EPS_DIST. lra. Qed.

Section ray.
Context {Obj : Type} `{Countable Obj}.
Variable scene_ray_cast : Vector -> Vector -> R -> option (Vector * Vector * Obj).
Variable object_to_density : gmap Obj R.
Variables (cam_location ray_dir : Vector) (clip_start clip_end : R).

Local Abbreviation body := (march_body scene_ray_cast object_to_density cam_location ray_dir clip_end).
Local Abbreviation loop := (march_loop scene_ray_cast object_to_density cam_location ray_dir clip_end).
Local Abbreviation trace := (march_trace scene_ray_cast object_to_density cam_location ray_dir clip_end).

Lemma density_get_fallback o :
  object_to_density !! o = None -> density_get object_to_density o = 0.
Proof. unfold density_get. intros ->. simpl. lra. Qed.

(** Every pass that does not leave the loop moves at least [EPS_DIST]
    towards the far clip. *)
Lemma march_body_advance s s' :
  (body s).2 = Continue s' -> current_dist s + EPS_DIST <= current_dist s'.
Proof.
  unfold march_body.
  destruct (scene_ray_cast _ _ _) as [[[hit_loc hit_norm] hit_obj]|]; [|done].
  set (d := vlength _). pose proof (vlength_nonneg (vsub hit_loc
    (vadd cam_location (vscale ray_dir (current_dist s))))) as Hd. fold d in Hd.
  rewrite margin_eq.
  repeat case_decide; simpl; intros [= <-]; simpl; lra.
Qed.

Lemma march_loop_bounded (n : nat) s :
  clip_end - current_dist s <= INR n * EPS_DIST ->
  exists s', loop n s = Some s'.
Proof.
  revert s. induction n as [|n IH]; intros s Hs.
  - simpl in *. rewrite decide_False by lra. eauto.
  - simpl. case_decide; [|eauto].
    destruct (body s).2 as [s'|s'] eqn:Hb; [|eauto].
    apply IH. apply march_body_advance in Hb.
    rewrite S_INR in Hs. lra.
Qed.

(** The loop ends for every ray and every answer of the scene. *)
Lemma march_loop_terminates s : exists fuel s', loop fuel s = Some s'.
Proof.
  destruct (INR_unbounded ((clip_end - current_dist s) / EPS_DIST)) as [n Hn].
  exists n. apply march_loop_bounded.
  pose proof EPS_DIST_pos.
  apply Rmult_lt_compat_r with (r := EPS_DIST) in Hn; [|done].
  unfold Rdiv in Hn. rewrite Rmult_assoc, Rinv_l in Hn by lra. lra.
Qed.

Lemma list_remove_singleton (o : Obj) : list_remove o [o] = [].
Proof. simpl. by rewrite decide_True. Qed.

(** What a pass does to a stack that holds at most one solid. *)
Lemma march_body_event s e st :
  body s = (e, st) ->
  let s' := match st with Continue s' | Break s' => s' end in
  match e with
  | Push o => inside_stack s' = inside_stack s ++ [o]
  | Remove o =>
      o ∈ inside_stack s /\ inside_stack s' = list_remove o (inside_stack s)
  | Outside o => (o ∉ inside_stack s) /\ inside_stack s' = inside_stack s
  | NoHit | SelfHit | Grazing => inside_stack s' = inside_stack s
  end.
Proof.
  unfold march_body.
  destruct (scene_ray_cast _ _ _) as [[[hit_loc hit_norm] hit_obj]|].
  - repeat case_decide; intros [= <- <-]; simpl; auto.
  - intros [= <- <-]. done.
Qed.

Lemma stack_ops_cons e st (tr : list (event Obj * list Obj)) :
  stack_ops ((e, st) :: tr) =
    if is_stack_op e then e :: stack_ops tr else stack_ops tr.
Proof.
  unfold stack_ops. simpl. destruct (is_stack_op e) eqn:He.
  - by rewrite filter_cons_True.
  - rewrite filter_cons_False; [done|]. by rewrite He.
Qed.

Lemma hits_cons e st (tr : list (event Obj * list Obj)) :
  hits ((e, st) :: tr) =
    match hit_of e with Some h => h :: hits tr | None => hits tr end.
Proof. done. Qed.

Lemma trace_invariant fuel s inside :
  inside_stack s = stack_of inside ->
  alternating inside (hits (trace fuel s)) ->
  Forall (fun p => is_exit p.1 = true -> p.2 = []) (trace fuel s) /\
  (inside = None -> paired (stack_ops (trace fuel s))) /\
  (forall o, inside = Some o ->
     stack_ops (trace fuel s) = [] \/
     exists ops, stack_ops (trace fuel s) = Remove o :: ops /\ paired ops).
Proof.
  revert s inside. induction fuel as [|fuel IH]; intros s inside Hs Halt; simpl in *.
  { case_decide; simpl; auto. }
  case_decide; [|simpl; auto].
  destruct (body s) as [e st] eqn:Hb.
  pose proof (march_body_event _ _ _ Hb) as He. simpl in He.
  destruct st as [s'|s'].
  - (* the loop goes on *)
    rewrite hits_cons in Halt. rewrite stack_ops_cons.
    destruct e as [| | |o|o|o]; simpl in *.
    + destruct (IH s' inside) as (H1 & H2 & H3); [congruence|done|].
      split_and!; [constructor; [done|done]|done|done].
    + destruct (IH s' inside) as (H1 & H2 & H3); [congruence|done|].
      split_and!; [constructor; [done|done]|done|done].
    + destruct (IH s' inside) as (H1 & H2 & H3); [congruence|done|].
      split_and!; [constructor; [done|done]|done|done].
    + destruct Halt as [-> Halt].
      destruct (IH s' (Some o)) as (H1 & H2 & H3).
      { rewrite He, Hs. done. }
      { done. }
      split_and!; [constructor; [done|done]| |done].
      intros _. destruct (H3 o eq_refl) as [->|(ops & -> & Hops)]; simpl; done.
    + destruct Halt as [Hin Halt]. destruct He as [Ho He].
      destruct inside as [o'|]; simpl in *.
      2:{ rewrite Hs in Ho. by apply elem_of_nil in Ho. }
      subst o'. rewrite Hs, list_remove_singleton in He.
      destruct (IH s' None) as (H1 & H2 & H3); [done|done|].
      split_and!; [constructor; [done|done]|done|].
      intros o' [= <-]. right. eexists. split; [done|]. by apply H2.
    + destruct Halt as [Hin Halt]. destruct He as [Ho He].
      destruct inside as [o'|]; simpl in *.
      { subst o'. rewrite Hs in Ho. exfalso. apply Ho. by left. }
      destruct (IH s' None) as (H1 & H2 & H3); [simpl; congruence|done|].
      split_and!; [constructor; [|done]|done|done].
      simpl. intros _. congruence.
  - (* [break] *)
    unfold march_body in Hb.
    destruct (scene_ray_cast _ _ _) as [[[hit_loc hit_norm] hit_obj]|].
    { repeat case_decide; done. }
    injection Hb as <- <-. rewrite stack_ops_cons. simpl.
    split_and!; [constructor; [done|done]|done|auto].
Qed.

(** Before the first entering hit nothing has been pushed. *)
Lemma trace_before_entry fuel s :
  inside_stack s = [] ->
  forall n, Forall (fun p => is_entry p.1 = false) (take (S n) (trace fuel s)) ->
  Forall (fun p => p.2 = []) (take (S n) (trace fuel s)).
Proof.
  revert s. induction fuel as [|fuel IH]; intros s Hs n Hn; simpl in *.
  { case_decide; simpl; constructor. }
  case_decide; [|constructor].
  destruct (body s) as [e st] eqn:Hb.
  pose proof (march_body_event _ _ _ Hb) as He. simpl in He.
  assert (is_entry e = false ->
          inside_stack (match st with Continue s' | Break s' => s' end) = []) as Hst.
  { destruct e; simpl in *; try done; try congruence.
    - destruct He as [He _]. rewrite Hs in He. by apply elem_of_nil in He.
    - destruct He as [_ He]. congruence. }
  destruct st as [s'|s']; simpl in *.
  - apply Forall_cons in Hn as [He0 Hn]. simpl in He0.
    constructor; [by apply Hst|].
    destruct n as [|n]; [rewrite take_0; constructor|].
    apply IH; [by apply Hst|done].
  - apply Forall_cons in Hn as [He0 Hn]. simpl in He0.
    constructor; [by apply Hst|]. rewrite take_nil. constructor.
Qed.

(** The three kinds of pass that touch the stack or leave the loop. *)
Lemma march_body_no_hit s :
  scene_ray_cast (vadd cam_location (vscale ray_dir (current_dist s))) ray_dir
    (clip_end - current_dist s) = None ->
  body s = (NoHit,
            Break (mkMarch (inside_stack s)
                     (total_density s + stack_density object_to_density
                        (inside_stack s) * (clip_end - current_dist s))
                     (current_dist s))).
Proof. unfold march_body. by intros ->. Qed.

Lemma march_body_hit s hit_loc hit_norm hit_obj d :
  scene_ray_cast (vadd cam_location (vscale ray_dir (current_dist s))) ray_dir
    (clip_end - current_dist s) = Some (hit_loc, hit_norm, hit_obj) ->
  vlength (vsub hit_loc (vadd cam_location (vscale ray_dir (current_dist s)))) = d ->
  EPS_DIST <= d ->
  DOT_THRESHOLD <= Rabs (vdot ray_dir hit_norm) ->
  let total := total_density s
               + stack_density object_to_density (inside_stack s) * d in
  let next := current_dist s + d + EPS_DIST in
  body s =
    if decide (vdot ray_dir hit_norm < 0) then
      (Push hit_obj, Continue (mkMarch (inside_stack s ++ [hit_obj]) total next))
    else if decide (hit_obj ∈ inside_stack s) then
      (Remove hit_obj,
       Continue (mkMarch (list_remove hit_obj (inside_stack s)) total next))
    else
      (Outside hit_obj, Continue (mkMarch (inside_stack s) total next)).
Proof.
  intros Hc Hd He Hn. unfold march_body. rewrite Hc, Hd, margin_eq.
  rewrite decide_False by lra. rewrite decide_False by lra. simpl.
  by repeat case_decide.
Qed.

End ray.

Lemma vlength_x x : vlength (mkVector x 0 0) = Rabs x.
Proof.
  unfold vlength. simpl.
  replace (x * x + 0 * 0 + 0 * 0) with (Rsqr x) by (unfold Rsqr; lra).
  apply sqrt_Rsqr_abs.
Qed.

(** The ray along [+x] from the origin through the slab: one push, one
    removal, then no further hit. *)
Lemma slab_trace :
  march_trace slab_scene ∅ (mkVector 0 0 0) (mkVector 1 0 0) 3 3
    (ray_start 0) =
  [(Push "bone", ["bone"]); (Remove "bone", []); (NoHit, [])].
Proof.
  pose proof margin_eq as Hm. unfold EPS_DIST in Hm.
  unfold ray_start.
  cbn [march_trace current_dist]. rewrite decide_True by lra.
  erewrite (march_body_hit _ _ _ _ _ _ _ _ _ 1).
  2:{ unfold slab_scene. simpl. rewrite decide_True by lra. done. }
  2:{ transitivity (vlength (mkVector 1 0 0)).
      - unfold vsub, vadd, vscale. simpl. do 2 f_equal; lra.
      - rewrite vlength_x. apply Rabs_right. lra. }
  2:{ unfold EPS_DIST. lra. }
  2:{ unfold vdot, DOT_THRESHOLD. simpl.
      replace (1 * -1 + 0 * 0 + 0 * 0) with (- (1)) by lra.
      rewrite Rabs_Ropp, Rabs_right; lra. }
  rewrite decide_True by (unfold vdot; simpl; lra).
  f_equal.
  cbn [march_trace current_dist inside_stack total_density].
  rewrite decide_True by (unfold EPS_DIST; lra).
  erewrite (march_body_hit _ _ _ _ _ _ _ _ _ 0.9999).
  2:{ unfold slab_scene. simpl. unfold EPS_DIST.
      rewrite decide_False by lra. rewrite decide_True by lra. done. }
  2:{ transitivity (vlength (mkVector 0.9999 0 0)).
      - unfold vsub, vadd, vscale, EPS_DIST. simpl. do 2 f_equal; lra.
      - rewrite vlength_x. apply Rabs_right. lra. }
  2:{ unfold EPS_DIST. lra. }
  2:{ unfold vdot, DOT_THRESHOLD. simpl.
      replace (1 * 1 + 0 * 0 + 0 * 0) with 1 by lra.
      rewrite Rabs_right; lra. }
  rewrite decide_False by (unfold vdot; simpl; lra).
  rewrite decide_True by (simpl; by left).
  f_equal.
  cbn [march_trace current_dist inside_stack total_density app list_remove].
  rewrite (decide_True (P := "bone" = "bone")) by done.
  rewrite decide_True by (unfold EPS_DIST; lra).
  rewrite march_body_no_hit; [done|].
  unfold slab_scene, EPS_DIST. simpl.
  rewrite decide_False by lra. rewrite decide_False by lra. done.
Qed.

End RayCastFacts.

Module ProbeFacts.
Import Py VoxelGrid ProbeCount.
Local Open Scope R_scope.

Lemma vlength_ge_x v : Rabs (vx v) <= vlength v.
Proof.
  unfold vlength. rewrite <- sqrt_Rsqr_abs. apply sqrt_le_1_alt.
  unfold Rsqr. nra.
Qed.

Lemma odd_mod2 h : bool_decide (h `mod` 2 = 1)%nat = Nat.odd h.
Proof.
  rewrite <- Nat.bit0_odd, Nat.bit0_eqb.
  case_bool_decide as Hd; symmetry; [by apply Nat.eqb_eq|by apply Nat.eqb_neq].
Qed.

Section point_in_mesh.
Context {Obj : Type}.
Variable ray_cast : Obj -> Vector -> Vector -> option Vector.
Variable matrix_world_inverted : Obj -> Vector -> Vector.
Variable obj : Obj.
Variable point_local : Vector.

(** The contract of the ray caster that the loop relies on: a hit is not
    behind the origin of the ray along [+x]. *)
Hypothesis hit_ahead :
  forall o e loc, ray_cast obj o e = Some loc -> vx o <= vx loc.

Local Abbreviation body := (probe_body ray_cast obj point_local).
Local Abbreviation loop := (fun fuel => probe_loop ray_cast fuel obj point_local).

Lemma probe_start_ahead : probe_ahead point_local (probe_start point_local).
Proof. unfold probe_ahead, probe_start, direction_local. simpl. lra. Qed.

(** A pass that goes on: the origin moves past the hit and the budget
    shrinks by at least [1e-4]. *)
Lemma probe_body_again p p' :
  probe_ahead point_local p -> body p = Again p' ->
  exists loc,
    ray_cast obj (origin p)
      (vadd (origin p) (vscale direction_local (max_dist p))) = Some loc /\
    origin p' = vadd loc (vscale direction_local 1e-4) /\
    vx loc < vx (origin p') /\
    max_dist p' <= max_dist p - 1e-4 /\
    0 < max_dist p' /\
    hits p' = S (hits p) /\
    probe_ahead point_local p'.
Proof.
  unfold probe_ahead, probe_body. intros Hp.
  destruct (ray_cast _ _ _) as [loc|] eqn:Hc; [|done].
  case_decide as Hm; [done|]. intros [= <-]. simpl.
  apply hit_ahead in Hc.
  pose proof (vlength_ge_x (vsub loc point_local)) as Hl.
  simpl in Hl. rewrite Rabs_right in Hl by lra.
  exists loc. split_and!; try done; try lra.
  f_equal. lia.
Qed.

(** A pass that ends the loop: no further hit, or the budget is used up. *)
Lemma probe_body_done p h :
  body p = Done h ->
  (ray_cast obj (origin p)
     (vadd (origin p) (vscale direction_local (max_dist p))) = None /\
   h = hits p) \/
  (exists loc,
     ray_cast obj (origin p)
       (vadd (origin p) (vscale direction_local (max_dist p))) = Some loc /\
     max_dist p - vlength (vsub loc point_local) <= 0 /\ h = S (hits p)).
Proof.
  unfold probe_body.
  destruct (ray_cast _ _ _) as [loc|] eqn:Hc.
  - case_decide as Hm; [|done]. intros [= <-]. right. exists loc.
    split_and!; [done|done|lia].
  - intros [= <-]. by left.
Qed.

Lemma probe_loop_bounded (n : nat) p :
  probe_ahead point_local p -> max_dist p <= INR n * 1e-4 ->
  exists h, loop (S n) p = Some h.
Proof.
  revert p. induction n as [|n IH]; intros p Hp Hn.
  - simpl in *. destruct (body p) as [p'|h] eqn:Hb; [|eauto].
    apply probe_body_again in Hb as (loc & _ & _ & _ & Hm & Hpos & _); [|done].
    lra.
  - cbn [probe_loop]. destruct (body p) as [p'|h] eqn:Hb; [|eauto].
    apply probe_body_again in Hb as (loc & _ & _ & _ & Hm & _ & _ & Hp'); [|done].
    apply IH; [done|]. rewrite S_INR in Hn. lra.
Qed.

Lemma probe_loop_mono fuel fuel' p h :
  loop fuel p = Some h -> (fuel <= fuel')%nat -> loop fuel' p = Some h.
Proof.
  revert fuel' p. induction fuel as [|fuel IH]; intros fuel' p; [done|].
  intros Hl Hf. destruct fuel' as [|fuel']; [lia|].
  simpl in *. destruct (body p) as [p'|h']; [|done].
  apply IH; [done|lia].
Qed.

Lemma probe_loop_terminates :
  exists fuel h, loop fuel (probe_start point_local) = Some h.
Proof.
  destruct (INR_unbounded (1e8 / 1e-4)) as [n Hn].
  exists (S n). apply probe_loop_bounded; [apply probe_start_ahead|].
  simpl. lra.
Qed.

End point_in_mesh.

(** *** The count is the number of hits the ray caster reports *)

Section counted.
Context {Obj : Type}.
Variable ray_cast : Obj -> Vector -> Vector -> option Vector.
Variable obj : Obj.
Variable point_local : Vector.

Local Abbreviation loop := (fun fuel => probe_loop ray_cast fuel obj point_local).
Local Abbreviation counted := (counted ray_cast obj point_local).

(** The row of hits reported from a probe has one length only. *)
Lemma counted_unique p n m : counted p n -> counted p m -> n = m.
Proof.
  intros Hn. revert m. induction Hn as [p Hc|p loc Hc Hb|p loc n Hc Hb Hn IH];
    intros m Hm; inversion Hm as [? Hc'|? loc' Hc' Hb'|? loc' m' Hc' Hb' Hm'];
    subst; try congruence.
  - rewrite Hc in Hc'. injection Hc' as <-. lra.
  - rewrite Hc in Hc'. injection Hc' as <-. lra.
  - rewrite Hc in Hc'. injection Hc' as <-. f_equal. by apply IH.
Qed.

(** Run on a row of [n] reported hits, the loop ends after [n + 1] passes at
    most and has counted [n] hits more. *)
Lemma probe_loop_S fuel p :
  loop (S fuel) p =
    match probe_body ray_cast obj point_local p with
    | Done h => Some h
    | Again p' => loop fuel p'
    end.
Proof. done. Qed.

Lemma counted_probe_loop p n :
  counted p n -> loop (S n) p = Some (hits p + n)%nat.
Proof.
  induction 1 as [p Hc|p loc Hc Hb|p loc n Hc Hb Hn IH].
  - simpl. unfold probe_body. fold (probe_end p). rewrite Hc. f_equal. lia.
  - simpl. unfold probe_body. fold (probe_end p). rewrite Hc.
    by rewrite decide_True.
  - rewrite probe_loop_S. unfold probe_body. fold (probe_end p). rewrite Hc.
    cbv zeta. rewrite decide_False by lra. rewrite IH. simpl. f_equal. lia.
Qed.

(** When the loop ends, what it has added to the count is the length of the
    row of hits reported. *)
Lemma probe_loop_counted fuel p h :
  loop fuel p = Some h -> exists n, counted p n /\ h = (hits p + n)%nat.
Proof.
  revert p. induction fuel as [|fuel IH]; intros p; [done|].
  simpl. unfold probe_body. fold (probe_end p).
  destruct (ray_cast obj (origin p) (probe_end p)) as [loc|] eqn:Hc.
  - cbv zeta. case_decide as Hb.
    + intros [= <-]. exists 1%nat. split; [by eapply counted_last|done].
    + intros Hl. apply IH in Hl as (n & Hn & ->). simpl.
      exists (S n). split; [|lia].
      eapply counted_next; [done|lra|done].
  - intros [= <-]. exists 0%nat. split; [by apply counted_no_hit|lia].
Qed.

End counted.

(** The face of [one_face] is hit once from the left and not at all from
    the right. *)
Lemma one_face_ahead o e loc : one_face "bone" o e = Some loc -> vx o <= vx loc.
Proof.
  unfold one_face. case_decide; [|done]. intros [= <-]. simpl. lra.
Qed.

Lemma one_face_counted_left :
  counted (fun _ => one_face "bone") "bone" left_of_face
    (probe_start left_of_face) 1.
Proof.
  eapply counted_next.
  - unfold one_face, probe_start, left_of_face, direction_local. simpl.
    rewrite decide_True by lra. done.
  - unfold probe_start, left_of_face. cbn [max_dist origin].
    assert (Hl : vlength (vsub (mkVector 1 (0 + 0 * 1e-4) (0 + 0 * 1e-4))
                            (mkVector 0 0 0)) = 1).
    { unfold vlength, vsub. simpl.
      replace ((1 - 0) * (1 - 0) + (0 + 0 * 1e-4 - 0) * (0 + 0 * 1e-4 - 0)
               + (0 + 0 * 1e-4 - 0) * (0 + 0 * 1e-4 - 0)) with 1 by lra.
      apply sqrt_1. }
    unfold direction_local. simpl. simpl in Hl. rewrite Hl. lra.
  - apply counted_no_hit.
    unfold one_face, probe_start, left_of_face, direction_local. simpl.
    rewrite decide_False by lra. done.
Qed.

Lemma one_face_counted_right :
  counted (fun _ => one_face "bone") "bone" right_of_face
    (probe_start right_of_face) 0.
Proof.
  apply counted_no_hit.
  unfold one_face, probe_start, right_of_face, direction_local. simpl.
  rewrite decide_False by lra. done.
Qed.

(** ** C9 *)

(** C9.  For every object whose ray caster reports hits that are not behind
    the ray origin, and every world point, the parity test terminates: a pass
    that goes on has moved the origin past the hit and has strictly reduced
    the positive distance budget, and a pass ends the loop when there is no
    further hit or when the budget has reached zero.  The row of hits the ray
    caster reports from the start of the probe is finite, its length [n] is
    what the loop counts, and with enough fuel the test answers that the
    point is inside exactly when [n] is odd. *)
Theorem point_in_mesh_local_terminates {Obj : Type}
    (ray_cast : Obj -> Vector -> Vector -> option Vector)
    (matrix_world_inverted : Obj -> Vector -> Vector)
    (obj : Obj) (point_world : Vector) :
  (forall o e loc, ray_cast obj o e = Some loc -> vx o <= vx loc) ->
  let point_local := matrix_world_inverted obj point_world in
  (forall p, probe_ahead point_local p ->
     match probe_body ray_cast obj point_local p with
     | Again p' =>
         exists loc,
           ray_cast obj (origin p)
             (vadd (origin p) (vscale direction_local (max_dist p))) = Some loc /\
           origin p' = vadd loc (vscale direction_local 1e-4) /\
           vx loc < vx (origin p') /\
           0 < max_dist p' < max_dist p /\
           hits p' = S (hits p) /\
           probe_ahead point_local p'
     | Done h =>
         (ray_cast obj (origin p)
            (vadd (origin p) (vscale direction_local (max_dist p))) = None /\
          h = hits p) \/
         (exists loc,
            ray_cast obj (origin p)
              (vadd (origin p) (vscale direction_local (max_dist p))) = Some loc /\
            max_dist p - vlength (vsub loc point_local) <= 0 /\ h = S (hits p))
     end) /\
  probe_ahead point_local (probe_start point_local) /\
  exists fuel n,
    counted ray_cast obj point_local (probe_start point_local) n /\
    (forall m, counted ray_cast obj point_local (probe_start point_local) m ->
               m = n) /\
    forall fuel', (fuel <= fuel')%nat ->
      count_hits ray_cast matrix_world_inverted fuel' obj point_world = Some n /\
      point_in_mesh_local ray_cast matrix_world_inverted fuel' obj point_world
        = Some (Nat.odd n).
Proof.
  intros Hahead point_local. split_and!.
  - intros p Hp. destruct (probe_body ray_cast obj point_local p) as [p'|h] eqn:Hb.
    + destruct (probe_body_again ray_cast obj point_local Hahead p p' Hp Hb)
        as (loc & H1 & H2 & H3 & H4 & H5 & H6 & H7).
      exists loc. split_and!; try done. lra.
    + by apply probe_body_done.
  - apply probe_start_ahead.
  - destruct (probe_loop_terminates ray_cast obj point_local Hahead)
      as (fuel & h & Hl).
    destruct (probe_loop_counted ray_cast obj point_local fuel _ h Hl)
      as (n & Hn & Hh).
    simpl in Hh. subst h.
    exists fuel, n. split; [done|].
    split; [intros m Hm; by eapply counted_unique|].
    intros fuel' Hf.
    unfold point_in_mesh_local, count_hits. fold point_local.
    rewrite (probe_loop_mono ray_cast obj point_local fuel fuel' _ n Hl Hf).
    split; [done|]. simpl. by rewrite <- odd_mod2.
Qed.

Lemma point_in_mesh_local_terminates_witness :
  (forall o e loc, one_face "bone" o e = Some loc -> vx o <= vx loc) /\
  (exists fuel, forall fuel', (fuel <= fuel')%nat ->
     point_in_mesh_local (fun _ => one_face "bone") (fun _ p => p) fuel' "bone"
       left_of_face = Some true) /\
  (exists fuel, forall fuel', (fuel <= fuel')%nat ->
     point_in_mesh_local (fun _ => one_face "bone") (fun _ p => p) fuel' "bone"
       right_of_face = Some false).
Proof.
  split; [exact one_face_ahead|]. split.
  - destruct (point_in_mesh_local_terminates
                (fun _ => one_face "bone") (fun _ p => p) "bone" left_of_face
                one_face_ahead) as (_ & _ & fuel & n & _ & Huniq & Hrun).
    exists fuel. intros fuel' Hf.
    rewrite <- (Huniq 1%nat one_face_counted_left) in Hrun.
    exact (proj2 (Hrun fuel' Hf)).
  - destruct (point_in_mesh_local_terminates
                (fun _ => one_face "bone") (fun _ p => p) "bone" right_of_face
                one_face_ahead) as (_ & _ & fuel & n & _ & Huniq & Hrun).
    exists fuel. intros fuel' Hf.
    rewrite <- (Huniq 0%nat one_face_counted_right) in Hrun.
    exact (proj2 (Hrun fuel' Hf)).
Defined.

End ProbeFacts.

Module FillFacts.
Import Py VoxelGrid.
Local Open Scope R_scope.

Section fill.
Context {Obj : Type}.
Variable inside : Obj -> Vector -> bool.
Variable objects_by_type : string -> list Obj.
Variable random : nat -> R.
Variable cam_location : Vector.
Variables (sub_steps max_empty : nat).
Variable step : R.
Variable ray_dir_world : Vector.

Local Abbreviation body :=
  (slice_body inside objects_by_type random cam_location sub_steps max_empty
     step ray_dir_world).
Local Abbreviation fill :=
  (fill_slices inside objects_by_type random cam_location sub_steps max_empty
     step ray_dir_world).

Local Abbreviation exit_inv := (exit_inv max_empty).

Lemma sample_tags_draws base s n :
  (sample_tags inside objects_by_type random cam_location step ray_dir_world
     base s n).2 = (n + s)%nat.
Proof.
  revert n. induction s as [|s IH]; intros n; simpl; [lia|].
  specialize (IH (S n)).
  destruct (sample_tags _ _ _ _ _ _ _ _ _) as [tags n']. simpl in *. lia.
Qed.

Lemma slice_body_row k base s j :
  j <> k -> row (body k base s) !! j = row s !! j.
Proof.
  intros Hj. unfold slice_body.
  destruct (sample_tags _ _ _ _ _ _ _ _ _) as [tags n'].
  repeat case_bool_decide; destruct (found_geometry s); simpl;
    by rewrite list_lookup_insert_ne.
Qed.

Lemma slice_body_draws k base s :
  draws (body k base s) = (draws s + sub_steps)%nat.
Proof.
  unfold slice_body.
  pose proof (sample_tags_draws base sub_steps (draws s)) as Hd.
  destruct (sample_tags _ _ _ _ _ _ _ _ _) as [tags n']. simpl in Hd. subst n'.
  by repeat case_bool_decide; destruct (found_geometry s).
Qed.

Lemma slice_body_inv k base s :
  exited_geometry s = false -> exit_inv s -> exit_inv (body k base s).
Proof.
  unfold exit_inv, slice_body. intros Hex Hs.
  destruct (sample_tags _ _ _ _ _ _ _ _ _) as [tags n'].
  case_bool_decide; simpl.
  { rewrite Hex. split; [done|]. intros [_ ?]. lia. }
  destruct (found_geometry s) eqn:Hf; simpl.
  - case_bool_decide; simpl; [tauto|].
    rewrite Hex. split; [done|]. intros [_ ?]. lia.
  - rewrite Hex. split; [done|]. by intros [? _].
Qed.

Lemma fill_exited slices s : exited_geometry s = true -> fill slices s = s.
Proof. intros Hs. destruct slices as [|[k base] rest]; simpl; [done|]. by rewrite Hs. Qed.

Lemma fill_app l1 l2 s : fill (l1 ++ l2) s = fill l2 (fill l1 s).
Proof.
  revert s. induction l1 as [|[k base] l1 IH]; intros s; simpl; [done|].
  destruct (exited_geometry s) eqn:Hs; [|apply IH].
  by rewrite fill_exited.
Qed.

Lemma fill_inv slices s : exit_inv s -> exit_inv (fill slices s).
Proof.
  revert s. induction slices as [|[k base] rest IH]; intros s Hs; simpl; [done|].
  destruct (exited_geometry s) eqn:Hex; [done|].
  by apply IH, slice_body_inv.
Qed.

Lemma fill_row slices s j :
  j ∉ slices.*1 -> row (fill slices s) !! j = row s !! j.
Proof.
  revert s. induction slices as [|[k base] rest IH]; intros s Hj; simpl; [done|].
  simpl in Hj. apply not_elem_of_cons in Hj as [Hjk Hj].
  destruct (exited_geometry s); [done|].
  rewrite IH by done. by apply slice_body_row.
Qed.

End fill.

Lemma ray_init_inv max_empty depth_slices n :
  exit_inv max_empty (ray_init depth_slices n).
Proof. unfold exit_inv, ray_init. simpl. split; [done|]. by intros [? _]. Qed.

Lemma depth_values_take depth_slices min_dist step n :
  (take n (depth_values depth_slices min_dist step)).*1
  = seq 0%nat (n `min` depth_slices).
Proof.
  unfold depth_values. rewrite <- fmap_take, take_seq.
  induction (seq 0%nat (n `min` depth_slices)) as [|k l IH]; simpl; [done|].
  by f_equal.
Qed.

(** The ray along [+x] from the origin in the scene [near_solid], with three
    slices of length 1, one sample per slice and no tolerated empty slice:
    the first slice is skeleton, the second is empty and ends the ray. *)
Lemma near_solid_two_slices :
  fill_slices near_solid bone_only (constant_source 0) (mkVector 0 0 0) 1 0 1
    (mkVector 1 0 0) (take 2 (depth_values 3 0 1)) (ray_init 3 0)
  = mkRay ["skeleton"; "none"; "none"] true true 1 2.
Proof.
  assert (Hin : forall d, d + 1e-5 < 0.5 ->
    get_tag near_solid bone_only
      (vadd (vadd (mkVector 0 0 0) (vscale (mkVector 1 0 0) d))
         (vscale (mkVector 1 0 0) EPSILON)) = "skeleton").
  { intros d Hd. unfold get_tag, near_solid, bone_only, EPSILON. simpl.
    rewrite bool_decide_eq_true_2; [done|]. lra. }
  assert (Hout : forall d, 0.5 <= d ->
    get_tag near_solid bone_only
      (vadd (vadd (mkVector 0 0 0) (vscale (mkVector 1 0 0) d))
         (vscale (mkVector 1 0 0) EPSILON)) = "none").
  { intros d Hd. unfold get_tag, near_solid, bone_only, EPSILON. simpl.
    rewrite bool_decide_eq_false_2; [done|]. lra. }
  assert (H1 : slice_body near_solid bone_only (constant_source 0) (mkVector 0 0 0)
                 1 0 1 (mkVector 1 0 0) 0 (0 + INR 0 * 1) (ray_init 3 0)
               = mkRay ["skeleton"; "none"; "none"] true false 0 1).
  { unfold slice_body. cbn [sample_tags draws ray_init].
    rewrite Hin by (unfold constant_source; simpl; lra). reflexivity. }
  assert (H2 : slice_body near_solid bone_only (constant_source 0) (mkVector 0 0 0)
                 1 0 1 (mkVector 1 0 0) 1 (0 + INR 1 * 1)
                 (mkRay ["skeleton"; "none"; "none"] true false 0 1)
               = mkRay ["skeleton"; "none"; "none"] true true 1 2).
  { unfold slice_body. cbn [sample_tags draws].
    rewrite Hout by (unfold constant_source; simpl; lra). reflexivity. }
  unfold depth_values.
  cbn [seq fmap list_fmap take fill_slices exited_geometry ray_init].
  change (mkRay (replicate 3 "none") false false 0 0) with (ray_init 3 0).
  rewrite H1. cbn [exited_geometry]. rewrite H2. reflexivity.
Qed.

(** ** C7 *)



End FillFacts.

Module CombineFacts.
Import Py Combine CombineSpec.
Local Open Scope R_scope.

Lemma transmission_length img : length (transmission img) = length img.
Proof. unfold transmission, srgb_to_linear. by rewrite !length_fmap. Qed.

Lemma transmission_lookup img p :
  transmission img !! p = (fun e => 1.0 - power (clip e 0 1) 2.2) <$> img !! p.
Proof.
  unfold transmission, srgb_to_linear. rewrite !list_lookup_fmap.
  by destruct (img !! p).
Qed.

(** On arrays of one shape the product is taken pixel by pixel. *)
Lemma imul_same_size (c t : list R) :
  length t = length c -> imul c t = Ok (zip_with Rmult c t).
Proof. intros Hl. unfold imul. by rewrite decide_True. Qed.

(** A layer of another shape, unless it is a single pixel, ends the loop. *)
Lemma imul_shape_mismatch (c t : list R) :
  length t <> length c -> length t <> 1%nat -> imul c t = Raise ValueError.
Proof.
  intros Hl H1. unfold imul. rewrite decide_False by done.
  by destruct t as [|x [|y t]].
Qed.

Lemma product_cons t ts : product (t :: ts) = t * product ts.
Proof. done. Qed.

Lemma transmittances_cons p img images :
  transmittances p (img :: images)
  = default 0 (transmission img !! p) :: transmittances p images.
Proof. done. Qed.

Lemma combine_loop_same_size n images (c : list R) :
  same_size n images -> length c = n ->
  exists c',
    combine_loop images (Some c) = Ok (Some c') /\ length c' = n /\
    forall p, c' !! p = (fun x => x * product (transmittances p images)) <$> c !! p.
Proof.
  intros Hs. revert c. induction Hs as [|img images Himg _ IH]; intros c Hc.
  - exists c. split; [done|]. split; [done|]. intros p.
    destruct (c !! p) as [x|]; simpl; [|done]. f_equal. unfold product. simpl. lra.
  - cbn [combine_loop]. cbv zeta.
    rewrite imul_same_size by (rewrite transmission_length; lia).
    destruct (IH (zip_with Rmult c (transmission img))) as (c' & Hl & Hlen & Hp).
    { rewrite length_zip_with, transmission_length. lia. }
    exists c'. split; [done|]. split; [done|]. intros p.
    rewrite Hp, lookup_zip_with.
    destruct (c !! p) as [x|] eqn:Hx; simpl; [|done].
    destruct (lookup_lt_is_Some_2 (transmission img) p) as [t Ht].
    { rewrite transmission_length. apply lookup_lt_Some in Hx. lia. }
    rewrite Ht. simpl. f_equal. ring.
Qed.

Lemma combined_same_size n img images :
  same_size n (img :: images) ->
  exists c,
    combined (img :: images) = Ok (Some c) /\ length c = n /\
    forall p, (p < n)%nat ->
      c !! p = Some (product (transmittances p (img :: images))).
Proof.
  intros Hs. apply Forall_cons in Hs as [Himg Hs]. unfold combined.
  cbn [combine_loop]. cbv zeta.
  rewrite imul_same_size by (by rewrite length_fmap).
  destruct (combine_loop_same_size n images
              (zip_with Rmult ((fun _ => 1) <$> transmission img) (transmission img)))
    as (c & Hl & Hlen & Hp); [done| |].
  { rewrite length_zip_with, length_fmap, transmission_length. lia. }
  exists c. split; [done|]. split; [done|]. intros p Hlt.
  rewrite Hp, lookup_zip_with, list_lookup_fmap.
  destruct (lookup_lt_is_Some_2 (transmission img) p) as [t Ht].
  { rewrite transmission_length. lia. }
  rewrite Ht. simpl. rewrite ?Ht. simpl. f_equal. ring.
Qed.

Lemma layers_at_transmittances p images ts :
  layers_at p images ts -> transmittances p images = ts.
Proof.
  induction 1 as [|img t images ts Ht _ IH]; [done|].
  rewrite transmittances_cons, IH, Ht. done.
Qed.

Lemma combined_at n p img images ts :
  same_size n (img :: images) -> layers_at p (img :: images) ts ->
  exists c, combined (img :: images) = Ok (Some c) /\ c !! p = Some (product ts).
Proof.
  intros Hs Hl.
  destruct (combined_same_size n img images Hs) as (c & Hc & _ & Hp).
  exists c. split; [done|].
  rewrite <- (layers_at_transmittances p _ ts Hl). apply Hp.
  inversion Hl as [|? t ? ts' Ht _]; subst.
  apply lookup_lt_Some in Ht. rewrite transmission_length in Ht.
  apply Forall_cons in Hs as [<- _]. done.
Qed.

(** Two layers of different sizes, neither a single pixel: the script ends
    in the [ValueError] of the in-place product. *)
Example composite_shape_mismatch :
  composite_srgb [[0.5; 0.5]; [0.1; 0.2; 0.3; 0.4]] = Raise ValueError.
Proof.
  unfold composite_srgb. cbn [combine_loop]. cbv zeta.
  rewrite imul_same_size by done.
  rewrite imul_shape_mismatch; [done|simpl; lia..].
Qed.

(** Multiplying transmittances adds optical depths. *)
Lemma product_exp ts :
  Forall (fun t => 0 < t <= 1) ts ->
  product ts = exp (- total (optical_depth <$> ts)).
Proof.
  induction 1 as [|t ts [Ht _] _ IH].
  - unfold product, total. simpl. by rewrite Ropp_0, exp_0.
  - change (product (t :: ts)) with (t * product ts).
    change (total (optical_depth <$> t :: ts))
      with (optical_depth t + total (optical_depth <$> ts)).
    rewrite IH. rewrite <- (exp_ln t) at 1 by done.
    rewrite <- exp_plus. f_equal.
    assert (optical_depth t = - ln t) as -> by done. lra.
Qed.

Lemma clip_unit x : 0 <= x <= 1 -> clip x 0 1 = x.
Proof.
  intros Hx. unfold clip. rewrite Rmax_left by lra. apply Rmin_left. lra.
Qed.

Lemma power_0 y : y <> 0 -> power 0 y = 0.
Proof.
  intros Hy. unfold power. rewrite decide_False by lra. by rewrite decide_False.
Qed.

Lemma power_unit x y : 0 < x < 1 -> 0 < y -> 0 < power x y < 1.
Proof.
  intros Hx Hy. unfold power. rewrite decide_True by lra. unfold Rpower.
  split; [apply exp_pos|]. rewrite <- exp_0. apply exp_increasing.
  assert (ln x < 0) by (rewrite <- ln_1; apply ln_increasing; lra). nra.
Qed.

(** ** C5 *)



End CombineFacts.

Module BuilderFacts.
Import Py VoxelGrid.
Local Open Scope R_scope.

Lemma normalized_unit_z : normalized (mkVector 0 0 (-1)) = mkVector 0 0 (-1).
Proof.
  assert (Hl : vlength (mkVector 0 0 (-1)) = 1).
  { unfold vlength. simpl. replace (0 * 0 + 0 * 0 + -1 * -1) with 1 by lra.
    apply sqrt_1. }
  unfold normalized. rewrite Hl. rewrite decide_False by lra. simpl.
  f_equal; lra.
Qed.

(** With both jitter draws at 0.5 the ray of the only pixel is the camera
    axis. *)
Lemma centred_pixel_ray frac :
  pixel_ray (centred_source frac) (fun p => p) (mkVector 0 0 0) 0.8 1 0 0 1 1
    PIXEL_JITTER_STRENGTH 0 0 0
  = (mkVector 0 0 (-1), 2%nat).
Proof.
  unfold pixel_ray, centred_source, PIXEL_JITTER_STRENGTH. simpl.
  f_equal. etrans; [|apply normalized_unit_z]. f_equal.
  unfold vsub. simpl. f_equal; [| |lra].
  - replace (((0 + 0.5) / 1 + (0.5 - 0.5) * 0.2 / 1 - 0.5) * 2.0 - 0 * 2.0)
      with 0 by lra. lra.
  - replace (((0 + 0.5) / 1 + (0.5 - 0.5) * 0.2 / 1 - 0.5) * 2.0 - 0 * 2.0)
      with 0 by lra. lra.
Qed.

Lemma centred_sample frac :
  get_tag far_solid bone_only
    (vadd (vadd (mkVector 0 0 0) (vscale (mkVector 0 0 (-1)) (0 + INR 0 * 1 + frac * 1)))
       (vscale (mkVector 0 0 (-1)) EPSILON))
  = if decide (0.5 < frac + 1e-5) then "skeleton" else "none".
Proof.
  unfold get_tag, far_solid, bone_only, EPSILON. simpl.
  case_decide.
  - rewrite bool_decide_eq_true_2; [done|]. lra.
  - rewrite bool_decide_eq_false_2; [done|]. lra.
Qed.

Lemma one_voxel_grid_centred frac :
  one_voxel_grid (centred_source frac)
  = [[[if decide (0.5 < frac + 1e-5) then "skeleton" else "none"]]].
Proof.
  unfold one_voxel_grid, fill_grid. cbn [seq fill_rows fill_row].
  unfold fill_pixel. rewrite centred_pixel_ray.
  unfold depth_values, ray_init, SUB_STEPS.
  cbn [seq fmap list_fmap fill_slices exited_geometry replicate].
  unfold slice_body. cbn [sample_tags draws].
  change (centred_source frac 2) with frac.
  change (centred_source frac 3) with frac.
  rewrite centred_sample. by case_decide.
Qed.

(** Two runs of the builder on one scene, with two random sources, that
    give two grids. *)
Lemma builder_depends_on_randomness :
  one_voxel_grid (centred_source 0.9) <> one_voxel_grid (centred_source 0).
Proof.
  rewrite !one_voxel_grid_centred.
  rewrite decide_True by lra. rewrite decide_False by lra. done.
Qed.

End BuilderFacts.

Module MarrowClaims.
Import NumPy NumPyFacts Marrow MarrowFacts.

(** What one pass does keep: the border is cleared and a surviving cell has
    its six face neighbours set in the input. *)
Lemma erode_pass_border X Y Z (m : mask3) i j k :
  shape3 X Y Z m -> ~ interior X Y Z i j k -> cell (erode_pass m) i j k = false.
Proof.
  intros Hm Hb. rewrite (cell_erode_pass X Y Z) by done.
  by rewrite bool_decide_eq_false_2.
Qed.

Lemma erode_pass_neighbours X Y Z (m : mask3) i j k :
  shape3 X Y Z m -> cell (erode_pass m) i j k = true ->
  interior X Y Z i j k /\
  cell m (i - 1) j k = true /\ cell m (i + 1) j k = true /\
  cell m i (j - 1) k = true /\ cell m i (j + 1) k = true /\
  cell m i j (k - 1) = true /\ cell m i j (k + 1) = true.
Proof.
  intros Hm. rewrite (cell_erode_pass X Y Z) by done.
  rewrite !andb_true_iff, bool_decide_eq_true. tauto.
Qed.

(** Erosion is monotone in its argument. *)
Lemma erode_pass_mono X Y Z (a b : mask3) :
  shape3 X Y Z a -> shape3 X Y Z b ->
  subset a b -> subset (erode_pass a) (erode_pass b).
Proof.
  intros Ha Hb Hab i j k.
  rewrite !(cell_erode_pass X Y Z) by done.
  rewrite !andb_true_iff. intros (? & ((((? & ?) & ?) & ?) & ?) & ?).
  repeat split; try done; by apply Hab.
Qed.

Lemma shape3_erode_mask X Y Z (m : mask3) n :
  shape3 X Y Z m -> shape3 X Y Z (erode_mask m n).
Proof.
  unfold erode_mask. revert m. induction n as [|n IH]; intros m Hm; simpl; [done|].
  by apply IH, shape3_erode_pass.
Qed.

(** The reclassification touches the cells of the interior mask only, and
    writes [marrow] there. *)
Lemma simulate_marrow_at X Y Z (g : grid3) shell i j k :
  shape3 X Y Z g ->
  at3 (simulate_marrow shell g) i j k =
    if cell (erode_mask (skeleton_mask g) shell) i j k
    then (fun _ => "marrow") <$> at3 g i j k
    else at3 g i j k.
Proof.
  intros Hg. unfold simulate_marrow, mask_assign. rewrite at3_map2_3.
  assert (Hm : shape3 X Y Z (erode_mask (skeleton_mask g) shell)).
  { apply shape3_erode_mask. unfold skeleton_mask. by apply shape3_map3. }
  unfold cell.
  destruct (decide (i < X /\ j < Y /\ k < Z)) as [Hin|Hout].
  - destruct (proj2 (at3_is_Some X Y Z g i j k Hg) Hin) as [t ->].
    destruct (proj2 (at3_is_Some X Y Z _ i j k Hm) Hin) as [b ->].
    simpl. by destruct b.
  - rewrite (at3_None X Y Z g) by done.
    rewrite (at3_None X Y Z (erode_mask _ _)) by done. done.
Qed.

(** ** C1 *)

(** C1.  The eroded mask is not always a subset of the input.  One pass on
    the 3x3x3 mask [hollow] (false at the centre only) sets the centre, so
    [erode_mask hollow 1] is not a subset of [erode_mask hollow 0 = hollow];
    on the 5x5x5 checkerboard the second pass sets the centre that the first
    pass has cleared, so the inclusion fails at N = 1 as well. *)
Theorem erode_mask_not_subset :
  erode_mask hollow 0 = hollow /\
  cell hollow 1 1 1 = false /\
  cell (erode_mask hollow 1) 1 1 1 = true /\
  ~ subset (erode_mask hollow 1) (erode_mask hollow 0) /\
  ~ subset (erode_mask checker 2) (erode_mask checker 1).
Proof.
  split_and!; [reflexivity..| |].
  - intros Hs. specialize (Hs 1 1 1 eq_refl). discriminate Hs.
  - intros Hs. specialize (Hs 2 2 2 eq_refl). discriminate Hs.
Qed.

(** ** C2 *)

(** C2.  One erosion pass does not look at the cell itself: on the 3x3x3
    mask [hollow] the centre is false in the input, its six face neighbours
    are true, and the centre is true in the output.  The border cells of the
    output are false. *)
Theorem erode_pass_ignores_centre :
  cell hollow 1 1 1 = false /\
  (cell hollow 0 1 1 && cell hollow 2 1 1 && cell hollow 1 0 1 &&
   cell hollow 1 2 1 && cell hollow 1 1 0 && cell hollow 1 1 2) = true /\
  cell (erode_pass hollow) 1 1 1 = true /\
  (forall i j k, ~ interior 3 3 3 i j k -> cell (erode_pass hollow) i j k = false).
Proof.
  split_and!; [reflexivity..|].
  intros i j k Hb. apply (erode_pass_border 3 3 3); [|done].
  repeat constructor.
Qed.

(** ** C3 *)

(** C3.  The reclassification changes a voxel that was not skeleton: in the
    3x3x3 grid [cavity] the centre is [muscle] in the input and [marrow] in
    the output, because the eroded interior mask is true there. *)
Theorem marrow_in_cavity :
  at3 cavity 1 1 1 = Some "muscle" /\
  cell (erode_mask (skeleton_mask cavity) SHELL_THICKNESS) 1 1 1 = true /\
  at3 (simulate_marrow SHELL_THICKNESS cavity) 1 1 1 = Some "marrow".
Proof. split_and!; reflexivity. Qed.

End MarrowClaims.

Module IntegratorClaims.
Import NumPy NumPyFacts Py GridRender RayCast VoxelGrid Marrow.
Import AttenuationFacts GridRenderFacts RayCastFacts BuilderFacts.
Local Open Scope R_scope.

(** ** C4 *)

(** C4.  Both integrators turn the accumulated optical depth into the pixel
    value [1 - exp(-optical_depth)]: the grid integrator applies it to
    [raw_sum * step], the ray march to [total_density].  On optical depths
    [>= 0] that function is 0 at 0, increasing (strictly, hence also
    weakly), takes its values in [0,1), and tends to 1 at infinity. *)
Theorem attenuation_law :
  (forall dm g step depth_slices j i,
     pixel dm g step depth_slices j i =
       (fun raw_sum => 1 - exp (- (raw_sum * step)))
         <$> sum_densities dm g j i (seq 0%nat depth_slices) 0) /\
  (forall (scene_ray_cast : Vector -> Vector -> R -> option (Vector * Vector * string))
          otd cam_location ray_dir clip_start clip_end fuel,
     ray_pixel scene_ray_cast otd cam_location ray_dir clip_start clip_end fuel =
       (fun s => 1 - exp (- total_density s))
         <$> march_loop scene_ray_cast otd cam_location ray_dir clip_end fuel
               (ray_start clip_start)) /\
  intensity 0 = 0 /\
  (forall a b, 0 <= a -> a < b -> intensity a < intensity b) /\
  (forall a b, 0 <= a -> a <= b -> intensity a <= intensity b) /\
  (forall tau, 0 <= tau -> 0 <= intensity tau < 1) /\
  (forall eps, 0 < eps ->
     exists T, 0 <= T /\ forall tau, T < tau -> Rabs (intensity tau - 1) < eps).
Proof.
  split_and!.
  - intros. unfold pixel. by destruct (sum_densities _ _ _ _ _ _).
  - done.
  - apply intensity_0.
  - intros a b _ Hab. by apply intensity_increasing.
  - intros a b _ [Hab| ->]; [left; by apply intensity_increasing|right; done].
  - apply intensity_range.
  - apply intensity_limit.
Qed.

Lemma attenuation_law_witness :
  (0 <= 1 /\ 1 < 2 /\ 0 < 0.5) /\
  intensity 1 < intensity 2 /\
  0 <= intensity 1 < 1 /\
  exists T, 0 <= T /\ forall tau, T < tau -> Rabs (intensity tau - 1) < 0.5.
Proof.
  assert (H01 : 0 <= 1) by lra.
  assert (H12 : 1 < 2) by lra.
  assert (Heps : 0 < 0.5) by lra.
  destruct attenuation_law as (_ & _ & _ & Hinc & _ & Hrange & Hlim).
  split; [by split_and!|].
  split; [exact (Hinc 1 2 H01 H12)|].
  split; [exact (Hrange 1 H01)|].
  exact (Hlim 0.5 Heps).
Defined.

(** ** C8 *)

(** C8.  For a grid of the shape its metadata records, the grid integrator
    raises if and only if some cell holds a tag outside the domain of the
    density map; the exception is then the [KeyError] of such a tag, and no
    image is produced; without such a cell the image is produced.  The ray
    march looks densities up with the default 0: a solid without an assigned
    coefficient contributes 0, and the march of a ray always ends with a
    pixel value. *)
Theorem unknown_tag_fatal_only_for_grid {Obj : Type} `{Countable Obj}
    (dm : gmap string R) (g : array3 string) (width height : nat) (step : R)
    (depth_slices : nat)
    (scene_ray_cast : Vector -> Vector -> R -> option (Vector * Vector * Obj))
    (object_to_density : gmap Obj R)
    (cam_location ray_dir : Vector) (clip_start clip_end : R) :
  shape3 height width depth_slices g ->
  (unknown_tag_in_grid dm g <->
   raises (render_voxelgrid dm g width height step depth_slices)) /\
  (forall e, render_voxelgrid dm g width height step depth_slices = Raise e ->
     exists tag, e = KeyError tag /\ dm !! tag = None) /\
  (~ unknown_tag_in_grid dm g ->
     exists image, render_voxelgrid dm g width height step depth_slices = Ok image) /\
  (forall o, object_to_density !! o = None -> density_get object_to_density o = 0) /\
  (exists fuel v,
     ray_pixel scene_ray_cast object_to_density cam_location ray_dir clip_start
       clip_end fuel = Some v).
Proof.
  intros Hg.
  assert (Hraise : forall e,
    render_voxelgrid dm g width height step depth_slices = Raise e ->
    exists j i k tag, at3 g j i k = Some tag /\ dm !! tag = None /\ e = KeyError tag).
  { intros e He. apply render_raise_iff, projection_raise in He
      as (j & i & k & Hj & Hi & Hk & [[Hnone _]|(tag & Ht & Hd & ->)]).
    - destruct (proj2 (at3_is_Some _ _ _ g j i k Hg)) as [t Hs]; [done|].
      congruence.
    - by exists j, i, k, tag. }
  assert (Hiff : unknown_tag_in_grid dm g <->
                 raises (render_voxelgrid dm g width height step depth_slices)).
  { split.
    - intros (j & i & k & tag & Ht & Hd).
      destruct (proj1 (at3_is_Some _ _ _ g j i k Hg)) as (Hj & Hi & Hk); [by eexists|].
      destruct (projection_raises dm g width height step depth_slices j i k tag)
        as [e He]; [done..|].
      exists e. by apply render_raise_iff.
    - intros [e He]. destruct (Hraise e He) as (j & i & k & tag & Ht & Hd & _).
      by exists j, i, k, tag. }
  split_and!.
  - exact Hiff.
  - intros e He. destruct (Hraise e He) as (j & i & k & tag & Ht & Hd & ->).
    by exists tag.
  - intros Hno.
    destruct (render_voxelgrid dm g width height step depth_slices) as [image|e] eqn:Hr.
    + by exists image.
    + exfalso. apply Hno, Hiff. by exists e.
  - apply density_get_fallback.
  - destruct (march_loop_terminates scene_ray_cast object_to_density cam_location
                ray_dir clip_end (ray_start clip_start)) as (fuel & s' & Hs).
    exists fuel, (intensity (total_density s')). unfold ray_pixel. by rewrite Hs.
Qed.

Lemma unknown_tag_fatal_only_for_grid_witness :
  shape3 1 1 2 [[["skeleton"; "bone"]]] /\
  raises (render_voxelgrid DENSITY_MAPPING [[["skeleton"; "bone"]]] 1 1 0.1 2) /\
  density_get (∅ : gmap string R) "bone" = 0 /\
  (exists fuel v,
     ray_pixel slab_scene ∅ (mkVector 0 0 0) (mkVector 1 0 0) 0 3 fuel = Some v).
Proof.
  assert (Hg : shape3 1 1 2 [[["skeleton"; "bone"]]]).
  { repeat constructor. }
  split; [exact Hg|].
  destruct (unknown_tag_fatal_only_for_grid DENSITY_MAPPING
              [[["skeleton"; "bone"]]] 1 1 0.1 2 slab_scene ∅
              (mkVector 0 0 0) (mkVector 1 0 0) 0 3 Hg)
    as (Hiff & _ & _ & Hget & Hray).
  split_and!.
  - apply Hiff. exists 0%nat, 0%nat, 1%nat, "bone". split; reflexivity.
  - apply Hget. reflexivity.
  - exact Hray.
Defined.

End IntegratorClaims.

(** ** simulate_marrow.py: the erosion and the reclassification *)

Module ErosionFacts.
Import NumPy NumPyFacts Marrow MarrowFacts MarrowClaims MarrowSpec.

Lemma erode_loop_outer n (m : mask3) :
  erode_loop (S n) m = erode_pass (erode_loop n m).
Proof.
  revert m. induction n as [|n IH]; intros m; [done|].
  change (erode_loop (S (S n)) m) with (erode_loop (S n) (erode_pass m)).
  rewrite IH. done.
Qed.

Lemma cell_in_range X Y Z (m : mask3) i j k :
  shape3 X Y Z m -> cell m i j k = true -> i < X /\ j < Y /\ k < Z.
Proof.
  intros Hm Hc. apply (at3_is_Some X Y Z m i j k Hm).
  unfold cell in Hc. destruct (at3 m i j k); [by eexists|done].
Qed.

(** X1.  One pass of the loop of [erode_mask] on a mask of shape (X, Y, Z):
    a cell of the new mask is true exactly when no index of it is at an end
    of its axis and its six face neighbours are true in the old mask. *)
Theorem erode_pass_cell_iff X Y Z (m : mask3) i j k :
  shape3 X Y Z m ->
  cell (erode_pass m) i j k = true <->
  interior X Y Z i j k /\
  cell m (i - 1) j k = true /\ cell m (i + 1) j k = true /\
  cell m i (j - 1) k = true /\ cell m i (j + 1) k = true /\
  cell m i j (k - 1) = true /\ cell m i j (k + 1) = true.
Proof.
  intros Hm. rewrite (cell_erode_pass X Y Z) by done.
  rewrite !andb_true_iff, bool_decide_eq_true. tauto.
Qed.

Lemma erode_pass_cell_iff_witness :
  shape3 3 3 3 hollow /\
  (cell (erode_pass hollow) 1 1 1 = true <->
   interior 3 3 3 1 1 1 /\
   cell hollow 0 1 1 = true /\ cell hollow 2 1 1 = true /\
   cell hollow 1 0 1 = true /\ cell hollow 1 2 1 = true /\
   cell hollow 1 1 0 = true /\ cell hollow 1 1 2 = true).
Proof.
  assert (Hs : shape3 3 3 3 hollow) by (repeat constructor).
  split; [exact Hs|]. exact (erode_pass_cell_iff 3 3 3 hollow 1 1 1 Hs).
Defined.

(** X2.  [erode_mask] returns a mask of the shape of its argument, for every
    number of iterations. *)
Theorem erode_mask_shape X Y Z (m : mask3) n :
  shape3 X Y Z m -> shape3 X Y Z (erode_mask m n).
Proof.
  unfold erode_mask. revert m. induction n as [|n IH]; intros m Hm; simpl; [done|].
  by apply IH, shape3_erode_pass.
Qed.

Lemma erode_mask_shape_witness :
  shape3 5 5 5 checker /\ shape3 5 5 5 (erode_mask checker 2).
Proof.
  assert (Hs : shape3 5 5 5 checker) by (repeat constructor).
  split; [exact Hs|]. exact (erode_mask_shape 5 5 5 checker 2 Hs).
Defined.

(** X3.  [erode_mask] is monotone in the mask: for two masks of one shape,
    if every true cell of the first is true in the second, the same holds
    for their erosions by the same number of iterations. *)
Theorem erode_mask_monotone X Y Z (a b : mask3) n :
  shape3 X Y Z a -> shape3 X Y Z b -> subset a b ->
  subset (erode_mask a n) (erode_mask b n).
Proof.
  unfold erode_mask. revert a b. induction n as [|n IH]; intros a b Ha Hb Hab; [done|].
  simpl. apply IH; [by apply shape3_erode_pass..|].
  by apply (erode_pass_mono X Y Z).
Qed.

Lemma erode_mask_monotone_witness :
  (shape3 3 3 3 hollow /\ shape3 3 3 3 (map3 (fun _ => true) hollow) /\
   subset hollow (map3 (fun _ => true) hollow)) /\
  subset (erode_mask hollow 1) (erode_mask (map3 (fun _ => true) hollow) 1).
Proof.
  assert (Ha : shape3 3 3 3 hollow) by (repeat constructor).
  assert (Hb : shape3 3 3 3 (map3 (fun _ => true) hollow)) by (repeat constructor).
  assert (Hab : subset hollow (map3 (fun _ => true) hollow)).
  { intros i j k Hc. destruct (cell_in_range 3 3 3 hollow i j k Ha Hc) as (Hi & Hj & Hk).
    destruct i as [|[|[|i]]]; [| | |lia];
      (destruct j as [|[|[|j]]]; [| | |lia]);
      (destruct k as [|[|[|k]]]; [| | |lia]); reflexivity. }
  split; [by split_and!|].
  exact (erode_mask_monotone 3 3 3 _ _ 1 Ha Hb Hab).
Defined.

(** X4.  After [n] iterations every true cell of the eroded mask is at least
    [n] cells away from each face of the array: the [n] outermost layers of
    the array are false, and the whole mask is false when some axis is
    shorter than [2 n + 1]. *)
Theorem erode_mask_inset X Y Z (m : mask3) n i j k :
  shape3 X Y Z m -> cell (erode_mask m n) i j k = true -> inset n X Y Z i j k.
Proof.
  unfold erode_mask. intros Hm. revert i j k.
  induction n as [|n IH]; intros i j k Hc.
  - simpl in Hc. apply (cell_in_range X Y Z) in Hc; [|done]. unfold inset. lia.
  - rewrite erode_loop_outer in Hc.
    apply (erode_pass_neighbours X Y Z) in Hc
      as (Hin & H1 & H2 & H3 & H4 & H5 & H6).
    2:{ by apply (shape3_erode_mask X Y Z m n). }
    apply IH in H1, H2, H3, H4, H5, H6. unfold inset, interior in *. lia.
Qed.

Lemma erode_mask_inset_witness :
  (shape3 5 5 5 checker /\ cell (erode_mask checker 2) 2 2 2 = true) /\
  inset 2 5 5 5 2 2 2.
Proof.
  assert (Hs : shape3 5 5 5 checker) by (repeat constructor).
  assert (Hc : cell (erode_mask checker 2) 2 2 2 = true) by reflexivity.
  split; [by split|]. exact (erode_mask_inset 5 5 5 checker 2 2 2 2 Hs Hc).
Defined.

(** X5.  Iterations compose: eroding [a] times and then [b] times is eroding
    [a + b] times. *)
Theorem erode_mask_compose (m : mask3) a b :
  erode_mask (erode_mask m a) b = erode_mask m (a + b).
Proof.
  unfold erode_mask. revert m. induction a as [|a IH]; intros m; simpl; [done|].
  apply IH.
Qed.

(** X6.  The reclassification keeps the shape of the grid, writes [marrow]
    exactly at the cells where the eroded interior mask is true, and leaves
    the tag of every other cell as it was. *)
Theorem simulate_marrow_frame X Y Z (g : grid3) shell :
  shape3 X Y Z g ->
  shape3 X Y Z (simulate_marrow shell g) /\
  forall i j k tag, at3 g i j k = Some tag ->
    at3 (simulate_marrow shell g) i j k =
      Some (if cell (erode_mask (skeleton_mask g) shell) i j k
            then "marrow" else tag).
Proof.
  intros Hg. split.
  - unfold simulate_marrow, mask_assign. apply shape3_map2_3; [done|].
    apply shape3_erode_mask. unfold skeleton_mask. by apply shape3_map3.
  - intros i j k tag Ht. rewrite (simulate_marrow_at X Y Z) by done.
    rewrite Ht. by destruct (cell _ _ _ _).
Qed.

Lemma simulate_marrow_frame_witness :
  shape3 3 3 3 cavity /\
  shape3 3 3 3 (simulate_marrow 1 cavity) /\
  at3 (simulate_marrow 1 cavity) 0 1 1 = Some "skeleton".
Proof.
  assert (Hs : shape3 3 3 3 cavity) by (repeat constructor).
  split; [exact Hs|].
  destruct (simulate_marrow_frame 3 3 3 cavity 1 Hs) as [Hshape Hat].
  split; [exact Hshape|]. exact (Hat 0 1 1 "skeleton" eq_refl).
Defined.

(** X7.  With a shell of one layer, a voxel that the reclassification turns
    into [marrow] is not on the border of the array and its six face
    neighbours are [skeleton] voxels of the input grid. *)
Theorem marrow_enclosed_by_skeleton X Y Z (g : grid3) i j k tag :
  shape3 X Y Z g ->
  at3 g i j k = Some tag -> tag <> "marrow" ->
  at3 (simulate_marrow 1 g) i j k = Some "marrow" ->
  interior X Y Z i j k /\ neighbours_are g "skeleton" i j k.
Proof.
  intros Hg Ht Hne Hm.
  rewrite (simulate_marrow_at X Y Z) in Hm by done. rewrite Ht in Hm.
  destruct (cell (erode_mask (skeleton_mask g) 1) i j k) eqn:Hc;
    [|simpl in Hm; congruence].
  assert (Hsk : shape3 X Y Z (skeleton_mask g)).
  { unfold skeleton_mask. by apply shape3_map3. }
  apply (erode_pass_neighbours X Y Z) in Hc as (Hin & Hn); [|done].
  split; [done|].
  assert (Hcell : forall a b c, cell (skeleton_mask g) a b c = true ->
                                at3 g a b c = Some "skeleton").
  { intros a b c. unfold cell, skeleton_mask. rewrite at3_map3.
    destruct (at3 g a b c) as [t|]; simpl; [|done].
    intros Hb. apply bool_decide_eq_true in Hb. by subst. }
  unfold neighbours_are. destruct Hn as (H1 & H2 & H3 & H4 & H5 & H6).
  split_and!; by apply Hcell.
Qed.

Lemma marrow_enclosed_by_skeleton_witness :
  (shape3 3 3 3 cavity /\ at3 cavity 1 1 1 = Some "muscle" /\
   "muscle" <> "marrow" /\
   at3 (simulate_marrow 1 cavity) 1 1 1 = Some "marrow") /\
  interior 3 3 3 1 1 1 /\ neighbours_are cavity "skeleton" 1 1 1.
Proof.
  assert (Hs : shape3 3 3 3 cavity) by (repeat constructor).
  assert (Hne : "muscle" <> "marrow") by discriminate.
  split; [by split_and!|].
  exact (marrow_enclosed_by_skeleton 3 3 3 cavity 1 1 1 "muscle" Hs eq_refl Hne
           eq_refl).
Defined.

End ErosionFacts.

(** ** render_voxelgrid.py: the image of the integrator *)

Module IntegratorFacts.
Import NumPy NumPyFacts Py GridRender GridRenderFacts AttenuationFacts GridRenderSpec.
Local Open Scope R_scope.

Lemma mapM_ok_length {A B} (f : A -> result B) (l : list A) ys :
  mapM f l = Ok ys -> length ys = length l.
Proof.
  revert ys. induction l as [|x l IH]; intros ys; simpl.
  - by intros [= <-].
  - destruct (f x) as [y|e]; simpl; [|done].
    destruct (mapM f l) as [ys'|e]; simpl; [|done].
    intros [= <-]. simpl. f_equal. by apply IH.
Qed.

Lemma mapM_ok_lookup {A B} (f : A -> result B) (l : list A) ys n x :
  mapM f l = Ok ys -> l !! n = Some x ->
  exists y, ys !! n = Some y /\ f x = Ok y.
Proof.
  revert ys n. induction l as [|x' l IH]; intros ys n; simpl; [done|].
  destruct (f x') as [y|e] eqn:Hx; simpl; [|done].
  destruct (mapM f l) as [ys'|e]; simpl; [|done].
  intros [= <-]. destruct n as [|n]; simpl.
  - intros [= <-]. by exists y.
  - by apply IH.
Qed.

Lemma mapM_ext_in {A B} (f g : A -> result B) (l : list A) :
  (forall x, x ∈ l -> f x = g x) -> mapM f l = mapM g l.
Proof.
  induction l as [|x l IH]; intros Hfg; simpl; [done|].
  rewrite Hfg by (by left). rewrite IH; [done|].
  intros y Hy. apply Hfg. by right.
Qed.

Section integrator.
Variable dm : gmap string R.
Variable g : array3 string.
Variables (width height : nat) (step : R) (depth_slices : nat).

Lemma sum_densities_app j i ks ks' acc :
  sum_densities dm g j i (ks ++ ks') acc =
    r ← sum_densities dm g j i ks acc; sum_densities dm g j i ks' r.
Proof.
  revert acc. induction ks as [|k ks IH]; intros acc; simpl; [done|].
  destruct (voxel g j i k) as [tag|e]; simpl; [|done].
  destruct (density_of dm tag) as [d|e]; simpl; [|done].
  apply IH.
Qed.

(** The sum over a column with known densities. *)
Lemma sum_densities_column j i ds n acc :
  column_densities dm g j i ds -> (n <= length ds)%nat ->
  sum_densities dm g j i (seq 0 n) acc = Ok (fold_left Rplus (take n ds) acc).
Proof.
  intros Hds. revert acc. induction n as [|n IH]; intros acc Hn; [done|].
  rewrite seq_S, sum_densities_app, IH by lia. simpl.
  destruct (lookup_lt_is_Some_2 ds n) as [d Hd]; [lia|].
  destruct (Hds n d Hd) as (tag & Ht & Hdm).
  unfold voxel, density_of. rewrite Ht. simpl. rewrite Hdm. simpl.
  rewrite (take_S_r ds n d Hd), fold_left_app. done.
Qed.

Lemma sum_densities_nonneg j i ks acc r :
  nonneg_densities dm -> 0 <= acc ->
  sum_densities dm g j i ks acc = Ok r -> 0 <= r.
Proof.
  intros Hdm. revert acc. induction ks as [|k ks IH]; intros acc Hacc; simpl.
  - by intros [= <-].
  - destruct (voxel g j i k) as [tag|e]; simpl; [|done].
    unfold density_of. destruct (dm !! tag) as [d|] eqn:Hd; simpl; [|done].
    apply IH. pose proof (Hdm tag d Hd). lra.
Qed.

Lemma pixel_range j i v :
  nonneg_densities dm -> 0 <= step ->
  pixel dm g step depth_slices j i = Ok v -> 0 <= v < 1.
Proof.
  intros Hdm Hstep. unfold pixel.
  destruct (sum_densities dm g j i (seq 0 depth_slices) 0) as [r|e] eqn:Hs;
    simpl; [|done].
  intros [= <-]. apply intensity_range.
  apply sum_densities_nonneg in Hs; [|done|lra]. nra.
Qed.

End integrator.

Lemma sum_densities_agree dm g g' j i ks acc :
  (forall k, k ∈ ks -> at3 g j i k = at3 g' j i k) ->
  sum_densities dm g j i ks acc = sum_densities dm g' j i ks acc.
Proof.
  revert acc. induction ks as [|k ks IH]; intros acc Hag; simpl; [done|].
  unfold voxel. rewrite (Hag k) by (by left).
  destruct (at3 g' j i k) as [tag|]; simpl; [|done].
  destruct (density_of dm tag) as [d|e]; simpl; [|done].
  apply IH. intros k' Hk'. apply Hag. by right.
Qed.

Lemma rgba_length (proj : list (list R)) width :
  Forall (fun row => length row = width) proj ->
  length (rgba proj) = (4 * (length proj * width))%nat.
Proof.
  unfold rgba. induction 1 as [|row proj Hrow _ IH]; [done|].
  rewrite bind_cons, length_app, IH. subst width.
  assert (Hr : forall r : list R,
    length (r ≫= fun val => [val; val; val; 1.0]) = (4 * length r)%nat).
  { induction r as [|v r IHr]; [done|]. rewrite bind_cons, length_app, IHr.
    simpl. lia. }
  rewrite Hr. simpl. lia.
Qed.

Lemma pixels_length (proj : list (list R)) width :
  Forall (fun row => length row = width) proj ->
  length (pixels proj) = (4 * (length proj * width))%nat.
Proof.
  unfold pixels. induction 1 as [|row proj Hrow _ IH]; [done|].
  rewrite bind_cons, length_app, IH. subst width.
  assert (Hr : forall r : list R,
    length (r ≫= fun val => let gray := Rmax 0.0 (Rmin val 1.0) in
                            [gray; gray; gray; 1.0]) = (4 * length r)%nat).
  { induction r as [|v r IHr]; [done|]. rewrite bind_cons, length_app, IHr.
    simpl. lia. }
  rewrite Hr. simpl. lia.
Qed.

Lemma pixels_unit (proj : list (list R)) : Forall (fun x => 0 <= x <= 1) (pixels proj).
Proof.
  unfold pixels. apply Forall_bind. apply Forall_forall. intros row _.
  apply Forall_bind. apply Forall_forall. intros val _. simpl.
  assert (0 <= Rmax 0.0 (Rmin val 1.0) <= 1).
  { split.
    - etrans; [|apply Rmax_l]. lra.
    - apply Rmax_lub; [lra|]. etrans; [apply Rmin_r|]. lra. }
  repeat (apply Forall_cons_2; [simpl; lra|]). apply Forall_nil_2.
Qed.

Lemma pixels_no_clamp (proj : list (list R)) :
  Forall (Forall (fun v => 0 <= v <= 1)) proj -> pixels proj = rgba proj.
Proof.
  unfold pixels, rgba. induction 1 as [|row proj Hrow _ IH]; [done|].
  rewrite !bind_cons, IH. f_equal.
  induction Hrow as [|v row Hv _ IHr]; [done|].
  rewrite !bind_cons, IHr. f_equal. simpl.
  rewrite Rmin_left by lra. rewrite Rmax_right by lra. done.
Qed.

Lemma projection_shape dm g width height step depth_slices proj :
  projection dm g width height step depth_slices = Ok proj ->
  length proj = height /\ Forall (fun row => length row = width) proj.
Proof.
  unfold projection. intros Hp. split.
  - apply mapM_ok_length in Hp. by rewrite length_seq in Hp.
  - apply Forall_lookup. intros n row Hrow.
    assert (Hn : (n < height)%nat).
    { apply mapM_ok_length in Hp. rewrite length_seq in Hp.
      apply lookup_lt_Some in Hrow. lia. }
    destruct (mapM_ok_lookup _ _ _ n n Hp) as (row' & Hrow' & Hm).
    { by apply lookup_seq_lt. }
    rewrite Hrow in Hrow'. injection Hrow' as <-.
    apply mapM_ok_length in Hm. by rewrite length_seq in Hm.
Qed.

Lemma projection_range dm g width height step depth_slices proj :
  nonneg_densities dm -> 0 <= step ->
  projection dm g width height step depth_slices = Ok proj ->
  Forall (Forall (fun v => 0 <= v < 1)) proj.
Proof.
  intros Hdm Hstep Hp. unfold projection in Hp.
  apply Forall_lookup. intros n row Hrow.
  assert (Hn : (n < height)%nat).
  { apply mapM_ok_length in Hp. rewrite length_seq in Hp.
    apply lookup_lt_Some in Hrow. lia. }
  destruct (mapM_ok_lookup _ _ _ n n Hp) as (row' & Hrow' & Hm).
  { by apply lookup_seq_lt. }
  rewrite Hrow in Hrow'. injection Hrow' as <-.
  apply Forall_lookup. intros c v Hv.
  assert (Hc : (c < width)%nat).
  { apply mapM_ok_length in Hm. rewrite length_seq in Hm.
    apply lookup_lt_Some in Hv. lia. }
  destruct (mapM_ok_lookup _ _ _ c c Hm) as (v' & Hv' & Hpx).
  { by apply lookup_seq_lt. }
  rewrite Hv in Hv'. injection Hv' as <-.
  by eapply pixel_range.
Qed.

Lemma sum_densities_index_raises dm g j i ks acc k :
  k ∈ ks -> at3 g j i k = None -> raises (sum_densities dm g j i ks acc).
Proof.
  intros Hin Hk. revert acc. induction ks as [|k' ks IH]; intros acc.
  { by apply elem_of_nil in Hin. }
  simpl. destruct (voxel g j i k') as [tag'|e] eqn:Hv; simpl; [|by exists e].
  destruct (density_of dm tag') as [d|e] eqn:Hd'; simpl; [|by exists e].
  apply elem_of_cons in Hin as [->|Hin]; [|by apply IH].
  unfold voxel in Hv. by rewrite Hk in Hv.
Qed.

Lemma mapM_const {A B} (y : B) (l : list A) :
  mapM (fun _ => Ok y) l = Ok (replicate (length l) y).
Proof. induction l as [|x l IH]; simpl; [done|]. by rewrite IH. Qed.

(** X8.  When the grid integrator produces an image, its pixel buffer holds
    four values for each of the [width * height] pixels, every one of them
    between 0 and 1. *)
Theorem render_image_shape dm g width height step depth_slices image :
  render_voxelgrid dm g width height step depth_slices = Ok image ->
  length image = (4 * (height * width))%nat /\
  Forall (fun x => 0 <= x <= 1) image.
Proof.
  unfold render_voxelgrid.
  destruct (projection dm g width height step depth_slices) as [proj|e] eqn:Hp;
    simpl; [|done].
  intros [= <-]. apply projection_shape in Hp as [Hlen Hrows].
  split; [|apply pixels_unit]. rewrite (pixels_length proj width) by done.
  by rewrite Hlen.
Qed.

Lemma render_image_shape_witness :
  let image := pixels [[intensity ((0 + 0.0) * 0.1)]] in
  render_voxelgrid DENSITY_MAPPING [[["none"]]] 1 1 0.1 1 = Ok image /\
  length image = 4%nat /\ Forall (fun x => 0 <= x <= 1) image.
Proof.
  assert (Hr : render_voxelgrid DENSITY_MAPPING [[["none"]]] 1 1 0.1 1
               = Ok (pixels [[intensity ((0 + 0.0) * 0.1)]])) by reflexivity.
  split; [exact Hr|].
  exact (render_image_shape DENSITY_MAPPING [[["none"]]] 1 1 0.1 1 _ Hr).
Defined.

(** X9.  When every slice of a pixel's column holds a tag with a density,
    the pixel value is the attenuation of [step] times the sum of those
    densities. *)
Theorem pixel_formula dm g step depth_slices j i ds :
  column_densities dm g j i ds -> length ds = depth_slices ->
  pixel dm g step depth_slices j i = Ok (intensity (py_sum ds * step)).
Proof.
  intros Hds Hlen. unfold pixel.
  rewrite (sum_densities_column dm g j i ds depth_slices 0 Hds) by lia.
  simpl. rewrite <- Hlen, firstn_all. done.
Qed.

Lemma pixel_formula_witness :
  (column_densities DENSITY_MAPPING [[["skeleton"; "muscle"]]] 0 0 [0.5; 0.05] /\
   length [0.5; 0.05] = 2%nat) /\
  pixel DENSITY_MAPPING [[["skeleton"; "muscle"]]] 0.1 2 0 0
  = Ok (intensity (py_sum [0.5; 0.05] * 0.1)).
Proof.
  assert (Hc : column_densities DENSITY_MAPPING [[["skeleton"; "muscle"]]] 0 0
                 [0.5; 0.05]).
  { intros k d Hk. destruct k as [|[|k]]; [| |done].
    - injection Hk as <-. exists "skeleton". split; reflexivity.
    - injection Hk as <-. exists "muscle". split; reflexivity. }
  split; [by split|].
  exact (pixel_formula DENSITY_MAPPING _ 0.1 2 0 0 [0.5; 0.05] Hc eq_refl).
Defined.

(** X10.  With a density map without negative entries and a step that is
    not negative, every value of the projection lies in [0,1], so the clamp
    to [0..1] applied when the image is written changes no pixel. *)
Theorem render_no_clamp dm g width height step depth_slices image :
  nonneg_densities dm -> 0 <= step ->
  render_voxelgrid dm g width height step depth_slices = Ok image ->
  exists proj,
    projection dm g width height step depth_slices = Ok proj /\
    Forall (Forall (fun v => 0 <= v <= 1)) proj /\
    image = rgba proj.
Proof.
  intros Hdm Hstep. unfold render_voxelgrid.
  destruct (projection dm g width height step depth_slices) as [proj|e] eqn:Hp;
    simpl; [|done].
  intros [= <-]. exists proj.
  assert (Hr : Forall (Forall (fun v => 0 <= v <= 1)) proj).
  { eapply Forall_impl; [exact (projection_range _ _ _ _ _ _ _ Hdm Hstep Hp)|].
    intros row Hrow. eapply Forall_impl; [exact Hrow|]. simpl. intros v Hv. lra. }
  split_and!; [done|done|by apply pixels_no_clamp].
Qed.

Lemma DENSITY_MAPPING_nonneg : nonneg_densities DENSITY_MAPPING.
Proof.
  intros tag d. unfold DENSITY_MAPPING. simpl.
  rewrite !lookup_insert. repeat case_decide; intros [= <-]; lra.
Qed.

Lemma render_no_clamp_witness :
  let image := pixels [[intensity ((0 + 0.0) * 0.1)]] in
  (nonneg_densities DENSITY_MAPPING /\ 0 <= 0.1 /\
   render_voxelgrid DENSITY_MAPPING [[["none"]]] 1 1 0.1 1 = Ok image) /\
  exists proj,
    projection DENSITY_MAPPING [[["none"]]] 1 1 0.1 1 = Ok proj /\
    Forall (Forall (fun v => 0 <= v <= 1)) proj /\
    image = rgba proj.
Proof.
  assert (Hs : 0 <= 0.1) by lra.
  assert (Hr : render_voxelgrid DENSITY_MAPPING [[["none"]]] 1 1 0.1 1
               = Ok (pixels [[intensity ((0 + 0.0) * 0.1)]])) by reflexivity.
  split; [split_and!; [apply DENSITY_MAPPING_nonneg|exact Hs|exact Hr]|].
  exact (render_no_clamp DENSITY_MAPPING _ 1 1 0.1 1 _
           DENSITY_MAPPING_nonneg Hs Hr).
Defined.

(** X11.  The grid integrator reads no cell outside the bounds its metadata
    gives: two grids that agree on every index below (height, width,
    depth_slices) give the same outcome, image or exception. *)
Theorem render_reads_within_bounds dm g g' width height step depth_slices :
  agree_within height width depth_slices g g' ->
  render_voxelgrid dm g width height step depth_slices
  = render_voxelgrid dm g' width height step depth_slices.
Proof.
  intros Hag. unfold render_voxelgrid, projection. f_equal.
  apply mapM_ext_in. intros j Hj. apply elem_of_seq in Hj.
  apply mapM_ext_in. intros i Hi. apply elem_of_seq in Hi.
  unfold pixel. f_equal. apply sum_densities_agree.
  intros k Hk. apply elem_of_seq in Hk. apply Hag; lia.
Qed.

Lemma render_reads_within_bounds_witness :
  agree_within 1 1 1 [[["skeleton"]]] [[["skeleton"; "bone"]]; [["tumour"]]] /\
  render_voxelgrid DENSITY_MAPPING [[["skeleton"]]] 1 1 0.1 1
  = render_voxelgrid DENSITY_MAPPING [[["skeleton"; "bone"]]; [["tumour"]]]
      1 1 0.1 1.
Proof.
  assert (Hag : agree_within 1 1 1 [[["skeleton"]]]
                  [[["skeleton"; "bone"]]; [["tumour"]]]).
  { intros j i k Hj Hi Hk.
    destruct j; [|lia]. destruct i; [|lia]. destruct k; [|lia]. reflexivity. }
  split; [exact Hag|].
  exact (render_reads_within_bounds DENSITY_MAPPING _ _ 1 1 0.1 1 Hag).
Defined.

(** X12.  When every tag of the grid has a density but the metadata covers
    an index that the grid does not have, the integrator ends in an
    [IndexError] and writes no image. *)
Theorem render_index_error dm g width height step depth_slices j i k :
  known_tags dm g ->
  (j < height)%nat -> (i < width)%nat -> (k < depth_slices)%nat ->
  at3 g j i k = None ->
  render_voxelgrid dm g width height step depth_slices = Raise IndexError.
Proof.
  intros Hknown Hj Hi Hk Hnone.
  assert (Hr : raises (projection dm g width height step depth_slices)).
  { unfold projection.
    eapply (mapM_raises _ _ j); [apply elem_of_seq; lia|].
    eapply (mapM_raises _ _ i); [apply elem_of_seq; lia|].
    unfold pixel.
    destruct (sum_densities_index_raises dm g j i (seq 0 depth_slices) 0 k)
      as [e ->]; [apply elem_of_seq; lia|done|]. by exists e. }
  destruct Hr as [e He]. apply render_raise_iff. rewrite He. f_equal.
  apply projection_raise in He
    as (j' & i' & k' & _ & _ & _ & [[_ ->]|(tag & Ht & Hd & ->)]); [done|].
  destruct (Hknown j' i' k' tag Ht) as [d Hd']. congruence.
Qed.

Lemma render_index_error_witness :
  (known_tags DENSITY_MAPPING [[["skeleton"]]] /\
   at3 [[["skeleton"]]] 0 0 1 = None) /\
  render_voxelgrid DENSITY_MAPPING [[["skeleton"]]] 1 1 0.1 2 = Raise IndexError.
Proof.
  assert (Hk : known_tags DENSITY_MAPPING [[["skeleton"]]]).
  { intros j i k tag Ht.
    destruct j as [|j]; [|by destruct j].
    destruct i as [|i]; [|by destruct i].
    destruct k as [|k]; [|by destruct k].
    injection Ht as <-. by eexists. }
  split; [by split|].
  exact (render_index_error DENSITY_MAPPING _ 1 1 0.1 2 0 0 1 Hk
           (le_n 1) (le_n 1) (le_n 2) eq_refl).
Defined.

(** X13.  With a slice count of zero the integrator reads no cell at all:
    whatever the grid and the density map, every pixel of the image is
    black (0, 0, 0) with alpha 1. *)
Theorem render_no_slices dm g width height step :
  render_voxelgrid dm g width height step 0
  = Ok (rgba (replicate height (replicate width 0))).
Proof.
  unfold render_voxelgrid, projection.
  assert (Hpx : forall j i, pixel dm g step 0 j i = Ok 0).
  { intros j i. unfold pixel. simpl. f_equal.
    transitivity (intensity 0); [f_equal; lra|apply intensity_0]. }
  rewrite (mapM_ext_in _ (fun _ => Ok (replicate width 0))).
  2:{ intros j _. rewrite (mapM_ext_in _ (fun _ => Ok 0)) by (intros; apply Hpx).
      by rewrite mapM_const, length_seq. }
  rewrite mapM_const, length_seq. simpl. f_equal.
  apply pixels_no_clamp. apply Forall_replicate, Forall_replicate. lra.
Qed.

End IntegratorFacts.

(** ** raycasting.py: the ray march *)

Module RayMarchFacts.
Import Py RayCast RayCastFacts AttenuationFacts RayCastSpec.
Local Open Scope R_scope.

Lemma fold_left_Rplus (l : list R) (a : R) :
  fold_left Rplus l a = a + fold_left Rplus l 0.
Proof.
  revert a. induction l as [|x l IH]; intros a; simpl; [lra|].
  rewrite (IH (a + x)), (IH (0 + x)). lra.
Qed.

Lemma py_sum_cons x l : py_sum (x :: l) = x + py_sum l.
Proof. unfold py_sum. simpl. rewrite fold_left_Rplus. lra. Qed.

Lemma py_sum_app l l' : py_sum (l ++ l') = py_sum l + py_sum l'.
Proof.
  induction l as [|x l IH]; simpl.
  - unfold py_sum at 2. simpl. lra.
  - rewrite !py_sum_cons, IH. lra.
Qed.

Lemma py_sum_nonneg l : Forall (fun x => 0 <= x) l -> 0 <= py_sum l.
Proof.
  induction 1 as [|x l Hx _ IH]; [unfold py_sum; simpl; lra|].
  rewrite py_sum_cons. lra.
Qed.

Section ray.
Context {Obj : Type} `{Countable Obj}.
Variable scene_ray_cast : Vector -> Vector -> R -> option (Vector * Vector * Obj).
Variable object_to_density : gmap Obj R.
Variables (cam_location ray_dir : Vector) (clip_start clip_end : R).

Local Abbreviation body :=
  (march_body scene_ray_cast object_to_density cam_location ray_dir clip_end).
Local Abbreviation loop :=
  (march_loop scene_ray_cast object_to_density cam_location ray_dir clip_end).
Local Abbreviation density := (stack_density object_to_density).

Lemma march_loop_mono fuel fuel' s s' :
  loop fuel s = Some s' -> (fuel <= fuel')%nat -> loop fuel' s = Some s'.
Proof.
  revert fuel' s. induction fuel as [|fuel IH]; intros fuel' s Hl Hf.
  - simpl in Hl. destruct fuel'; simpl; case_decide; done.
  - destruct fuel' as [|fuel']; [lia|]. simpl in *.
    case_decide; [|done].
    destruct (body s).2 as [s1|s1]; [|done].
    apply IH; [done|lia].
Qed.

Lemma stack_density_push stack o :
  density (stack ++ [o]) = density stack + density_get object_to_density o.
Proof.
  unfold stack_density. rewrite fmap_app, py_sum_app. simpl.
  rewrite py_sum_cons. unfold py_sum at 2. simpl. lra.
Qed.

Lemma stack_density_cons stack o :
  density (o :: stack) = density_get object_to_density o + density stack.
Proof. unfold stack_density. by rewrite fmap_cons, py_sum_cons. Qed.

Lemma stack_density_remove stack o :
  o ∈ stack ->
  density (list_remove o stack) = density stack - density_get object_to_density o
  /\ S (length (list_remove o stack)) = length stack.
Proof.
  induction stack as [|y stack IH]; intros Hin.
  { by apply elem_of_nil in Hin. }
  cbn [list_remove]. case_decide as Hy.
  - subst y. rewrite stack_density_cons. split; [lra|done].
  - apply elem_of_cons in Hin as [->|Hin]; [done|].
    destruct (IH Hin) as [Hd Hl].
    rewrite !stack_density_cons, Hd. split; [lra|]. simpl. by rewrite Hl.
Qed.

Lemma list_remove_absent stack (o : Obj) : o ∉ stack -> list_remove o stack = stack.
Proof.
  induction stack as [|y stack IH]; intros Hin; [done|].
  simpl. apply not_elem_of_cons in Hin as [Hy Hin].
  rewrite decide_False by done. by rewrite IH.
Qed.

Lemma density_get_nonneg o :
  nonneg_object_densities object_to_density ->
  0 <= density_get object_to_density o.
Proof.
  intros Hn. unfold density_get.
  destruct (object_to_density !! o) as [d|] eqn:Hd; simpl; [by eapply Hn|lra].
Qed.

Lemma stack_density_nonneg stack :
  nonneg_object_densities object_to_density -> 0 <= density stack.
Proof.
  intros Hn. unfold stack_density. apply py_sum_nonneg.
  apply Forall_fmap, Forall_forall. intros o _. by apply density_get_nonneg.
Qed.

Lemma march_body_total s s' :
  nonneg_object_densities object_to_density ->
  current_dist s < clip_end ->
  (body s).2 = Continue s' \/ (body s).2 = Break s' ->
  total_density s <= total_density s'.
Proof.
  intros Hn Hguard. unfold march_body.
  pose proof (stack_density_nonneg (inside_stack s) Hn) as Hd.
  destruct (scene_ray_cast _ _ _) as [[[hit_loc hit_norm] hit_obj]|].
  - set (d := vlength _).
    assert (0 <= d) by apply vlength_nonneg.
    repeat case_decide; simpl; intros [[= <-]|[= <-]]; simpl; nra.
  - simpl. intros [[= <-]|[= <-]]. simpl. nra.
Qed.

Lemma march_loop_total fuel s s' :
  nonneg_object_densities object_to_density ->
  loop fuel s = Some s' -> total_density s <= total_density s'.
Proof.
  intros Hn. revert s. induction fuel as [|fuel IH]; intros s; simpl.
  - case_decide; [done|]. intros [= <-]. lra.
  - case_decide as Hg; [|intros [= <-]; lra].
    destruct (body s).2 as [s1|s1] eqn:Hb.
    + intros Hl. apply IH in Hl.
      pose proof (march_body_total s s1 Hn Hg (or_introl Hb)). lra.
    + intros [= <-]. apply (march_body_total s s1 Hn Hg). by right.
Qed.

End ray.

(** X14.  The ray march makes at most [n] passes when the clip range is no
    longer than [n] minimum steps ([n * EPS_DIST]): [n] passes are enough to
    end the loop, and the state it ends in does not depend on how many more
    passes are allowed. *)
Theorem march_pass_bound {Obj : Type} `{Countable Obj}
    (scene_ray_cast : Vector -> Vector -> R -> option (Vector * Vector * Obj))
    (object_to_density : gmap Obj R)
    (cam_location ray_dir : Vector) (clip_start clip_end : R) (n : nat) :
  clip_end - clip_start <= INR n * EPS_DIST ->
  exists s',
    forall fuel, (n <= fuel)%nat ->
      march_loop scene_ray_cast object_to_density cam_location ray_dir clip_end
        fuel (ray_start clip_start) = Some s'.
Proof.
  intros Hn.
  destruct (march_loop_bounded scene_ray_cast object_to_density cam_location
              ray_dir clip_end n (ray_start clip_start) Hn) as [s' Hs].
  exists s'. intros fuel Hf. by eapply march_loop_mono.
Qed.

Lemma march_pass_bound_witness :
  0.01 - 0 <= INR 100 * EPS_DIST /\
  exists s',
    forall fuel, (100 <= fuel)%nat ->
      march_loop slab_scene ∅ (mkVector 0 0 0) (mkVector 1 0 0) 0.01
        fuel (ray_start 0) = Some s'.
Proof.
  assert (Hn : 0.01 - 0 <= INR 100 * EPS_DIST).
  { rewrite INR_IZR_INZ. change (Z.of_nat 100) with 100%Z. unfold EPS_DIST. lra. }
  split; [exact Hn|].
  exact (march_pass_bound slab_scene ∅ (mkVector 0 0 0) (mkVector 1 0 0) 0 0.01
           100 Hn).
Defined.

(** X15.  When no solid has a negative density, the optical depth
    accumulated along a ray is never negative, so the pixel value the ray
    march writes lies in [0,1]. *)
Theorem ray_pixel_range {Obj : Type} `{Countable Obj}
    (scene_ray_cast : Vector -> Vector -> R -> option (Vector * Vector * Obj))
    (object_to_density : gmap Obj R)
    (cam_location ray_dir : Vector) (clip_start clip_end : R) (fuel : nat) (v : R) :
  nonneg_object_densities object_to_density ->
  ray_pixel scene_ray_cast object_to_density cam_location ray_dir clip_start
    clip_end fuel = Some v ->
  0 <= v <= 1.
Proof.
  intros Hn. unfold ray_pixel.
  destruct (march_loop _ _ _ _ _ _ _) as [s'|] eqn:Hl; simpl; [|done].
  intros [= <-].
  apply (march_loop_total _ _ _ _ _ _ _ _ Hn) in Hl. simpl in Hl.
  pose proof (intensity_range (total_density s')) as Hr. lra.
Qed.

(** X16.  The stack operations and the density of the stack: a push adds the
    density of the solid, the removal of a solid that is on the stack takes
    one entry off and subtracts its density, the removal of a solid that is
    not on the stack changes nothing, and a push followed by the removal of
    the same solid restores the density of the stack. *)
Theorem stack_density_algebra {Obj : Type} `{Countable Obj}
    (object_to_density : gmap Obj R) (stack : list Obj) (o : Obj) :
  stack_density object_to_density (stack ++ [o])
    = stack_density object_to_density stack + density_get object_to_density o /\
  (o ∈ stack ->
     stack_density object_to_density (list_remove o stack)
       = stack_density object_to_density stack - density_get object_to_density o /\
     S (length (list_remove o stack)) = length stack) /\
  (o ∉ stack -> list_remove o stack = stack) /\
  stack_density object_to_density (list_remove o (stack ++ [o]))
    = stack_density object_to_density stack.
Proof.
  split_and!.
  - apply stack_density_push.
  - apply stack_density_remove.
  - apply list_remove_absent.
  - destruct (stack_density_remove object_to_density (stack ++ [o]) o) as [Hd _].
    { apply elem_of_app. right. by left. }
    rewrite Hd, stack_density_push. lra.
Qed.

Lemma stack_density_algebra_witness :
  ("bone" ∈ ["skin"; "bone"] /\ "muscle" ∉ ["skin"; "bone"]) /\
  S (length (list_remove "bone" ["skin"; "bone"])) = 2%nat /\
  list_remove "muscle" ["skin"; "bone"] = ["skin"; "bone"].
Proof.
  assert (Hin : "bone" ∈ ["skin"; "bone"]).
  { apply elem_of_cons. right. apply elem_of_cons. by left. }
  assert (Hout : "muscle" ∉ ["skin"; "bone"]).
  { intros Hx. apply elem_of_cons in Hx as [Hx|Hx]; [done|].
    apply elem_of_cons in Hx as [Hx|Hx]; [done|]. by apply elem_of_nil in Hx. }
  split; [by split|].
  split.
  - exact (proj2 (proj1 (proj2 (stack_density_algebra
             (∅ : gmap string R) ["skin"; "bone"] "bone")) Hin)).
  - exact (proj1 (proj2 (proj2 (stack_density_algebra
             (∅ : gmap string R) ["skin"; "bone"] "muscle"))) Hout).
Defined.

(** X17.  A ray that meets nothing gives a black pixel: when the clip range
    is empty, or the scene reports no hit from the near clip on, the pixel
    value is 0. *)
Theorem ray_without_hit {Obj : Type} `{Countable Obj}
    (scene_ray_cast : Vector -> Vector -> R -> option (Vector * Vector * Obj))
    (object_to_density : gmap Obj R)
    (cam_location ray_dir : Vector) (clip_start clip_end : R) (fuel : nat) :
  clip_end <= clip_start \/
  scene_ray_cast (vadd cam_location (vscale ray_dir clip_start)) ray_dir
    (clip_end - clip_start) = None ->
  (1 <= fuel)%nat ->
  ray_pixel scene_ray_cast object_to_density cam_location ray_dir clip_start
    clip_end fuel = Some 0.
Proof.
  intros Hcase Hfuel. unfold ray_pixel.
  destruct fuel as [|fuel]; [lia|]. simpl.
  case_decide as Hg.
  - destruct Hcase as [Hc|Hc]; [lra|].
    rewrite march_body_no_hit by done. simpl. f_equal.
    transitivity (intensity 0); [|apply intensity_0]. f_equal.
    unfold stack_density, py_sum. simpl. lra.
  - simpl. f_equal. transitivity (intensity 0); [|apply intensity_0].
    f_equal. lra.
Qed.

Lemma ray_without_hit_witness :
  ((3 <= 5 \/ slab_scene (vadd (mkVector 0 0 0) (vscale (mkVector 1 0 0) 5))
                 (mkVector 1 0 0) (3 - 5) = None) /\ (1 <= 1)%nat) /\
  ray_pixel slab_scene ∅ (mkVector 0 0 0) (mkVector 1 0 0) 5 3 1 = Some 0.
Proof.
  assert (Hc : 3 <= 5 \/
               slab_scene (vadd (mkVector 0 0 0) (vscale (mkVector 1 0 0) 5))
                 (mkVector 1 0 0) (3 - 5) = None) by (left; lra).
  split; [by split|].
  exact (ray_without_hit slab_scene ∅ (mkVector 0 0 0) (mkVector 1 0 0) 5 3 1
           Hc (le_n 1)).
Defined.

End RayMarchFacts.

(** ** raycasting.py: a ray through one slab *)

Module SlabFacts.
Import Py RayCast RayCastFacts AttenuationFacts RayCastSpec RayMarchFacts.
Local Open Scope R_scope.

Section slab.
Context {Obj : Type} `{Countable Obj}.
Variable object_to_density : gmap Obj R.
Variable o : Obj.
Variables (a b clip_start clip_end : R).
Hypothesis Hnear : clip_start + EPS_DIST <= a.
Hypothesis Hthick : a + 2 * EPS_DIST <= b.
Hypothesis Hfar : b <= clip_end.

Local Abbreviation cam := (mkVector 0 0 0).
Local Abbreviation dir := (mkVector 1 0 0).
Local Abbreviation body :=
  (march_body (slab a b o) object_to_density cam dir clip_end).
Local Abbreviation loop :=
  (march_loop (slab a b o) object_to_density cam dir clip_end).

Lemma seg_x t : vx (vadd cam (vscale dir t)) = t.
Proof. simpl. lra. Qed.

Lemma seg_length x t :
  t <= x -> vlength (vsub (mkVector x 0 0) (vadd cam (vscale dir t))) = x - t.
Proof.
  intros Hx. transitivity (vlength (mkVector (x - t) 0 0)).
  - unfold vsub, vadd, vscale. simpl. do 2 f_equal; lra.
  - rewrite vlength_x. apply Rabs_right. lra.
Qed.

Lemma slab_enter stack total t :
  t + EPS_DIST <= a -> a - t <= clip_end - t ->
  body (mkMarch stack total t) =
    (Push o, Continue (mkMarch (stack ++ [o])
                         (total + stack_density object_to_density stack * (a - t))
                         (t + (a - t) + EPS_DIST))).
Proof.
  intros Ht Hd. pose proof EPS_DIST_pos.
  rewrite (march_body_hit _ _ _ _ _ _ (mkVector a 0 0) (mkVector (-1) 0 0) o (a - t)).
  - rewrite decide_True; [done|]. unfold vdot. simpl. lra.
  - unfold slab. cbn [current_dist]. rewrite seg_x.
    rewrite decide_True by lra. by rewrite decide_True.
  - cbn [current_dist]. apply seg_length. lra.
  - lra.
  - unfold vdot, DOT_THRESHOLD. simpl.
    replace (1 * -1 + 0 * 0 + 0 * 0) with (- (1)) by lra.
    rewrite Rabs_Ropp, Rabs_right; lra.
Qed.

Lemma slab_leave stack total t :
  a <= t -> t + EPS_DIST <= b ->
  body (mkMarch stack total t) =
    if decide (o ∈ stack) then
      (Remove o, Continue (mkMarch (list_remove o stack)
                             (total + stack_density object_to_density stack * (b - t))
                             (t + (b - t) + EPS_DIST)))
    else
      (Outside o, Continue (mkMarch stack
                              (total + stack_density object_to_density stack * (b - t))
                              (t + (b - t) + EPS_DIST))).
Proof.
  intros Ha Ht. pose proof EPS_DIST_pos.
  rewrite (march_body_hit _ _ _ _ _ _ (mkVector b 0 0) (mkVector 1 0 0) o (b - t)).
  - rewrite decide_False; [done|]. unfold vdot. simpl. lra.
  - unfold slab. cbn [current_dist]. rewrite seg_x.
    rewrite decide_False by lra. rewrite decide_True by lra.
    rewrite decide_True; [done|]. lra.
  - cbn [current_dist]. apply seg_length. lra.
  - lra.
  - unfold vdot, DOT_THRESHOLD. simpl.
    replace (1 * 1 + 0 * 0 + 0 * 0) with 1 by lra.
    rewrite Rabs_right; lra.
Qed.

Lemma slab_beyond stack total t :
  b <= t ->
  body (mkMarch stack total t) =
    (NoHit, Break (mkMarch stack
                     (total + stack_density object_to_density stack * (clip_end - t))
                     t)).
Proof.
  intros Ht. pose proof EPS_DIST_pos. rewrite march_body_no_hit; [done|].
  unfold slab. cbn [current_dist]. rewrite seg_x.
  rewrite decide_False by lra. by rewrite decide_False by lra.
Qed.

Lemma slab_march :
  exists s',
    loop 3 (ray_start clip_start) = Some s' /\
    inside_stack s' = [] /\
    total_density s' = density_get object_to_density o * (b - a - EPS_DIST).
Proof.
  pose proof EPS_DIST_pos as Heps.
  assert (Hd0 : stack_density object_to_density [] = 0) by done.
  assert (Hd1 : stack_density object_to_density [o]
                = density_get object_to_density o).
  { rewrite stack_density_cons, Hd0. lra. }
  unfold ray_start. cbn [march_loop current_dist].
  rewrite decide_True by lra.
  rewrite slab_enter by lra. cbn [snd current_dist app].
  rewrite decide_True by lra.
  rewrite slab_leave by lra. rewrite decide_True by (by left).
  cbn [snd current_dist list_remove]. rewrite (decide_True (P := o = o)) by done.
  case_decide.
  - rewrite slab_beyond by lra. cbn [snd]. eexists. split; [done|].
    split; [done|]. cbn [total_density]. rewrite Hd0, Hd1. lra.
  - eexists. split; [done|]. split; [done|].
    cbn [total_density]. rewrite Hd0, Hd1. lra.
Qed.

End slab.

Lemma bone_half_nonneg :
  nonneg_object_densities ({["bone" := 0.5]} : gmap string R).
Proof.
  intros o d Hd. apply lookup_singleton_Some in Hd as [_ <-]. lra.
Qed.

Lemma ray_pixel_range_witness :
  nonneg_object_densities ({["bone" := 0.5]} : gmap string R) /\
  exists v,
    ray_pixel (slab 1 3 "bone") {["bone" := 0.5]} (mkVector 0 0 0)
      (mkVector 1 0 0) 0 5 3 = Some v /\
    0 <= v <= 1.
Proof.
  split; [exact bone_half_nonneg|].
  destruct (slab_march ({["bone" := 0.5]} : gmap string R) "bone" 1 3 0 5)
    as (s' & Hs & _ & _); [unfold EPS_DIST; lra..|].
  assert (Hp : ray_pixel (slab 1 3 "bone") {["bone" := 0.5]} (mkVector 0 0 0)
                 (mkVector 1 0 0) 0 5 3 = Some (intensity (total_density s'))).
  { unfold ray_pixel. by rewrite Hs. }
  exists (intensity (total_density s')). split; [exact Hp|].
  exact (ray_pixel_range (slab 1 3 "bone") {["bone" := 0.5]} (mkVector 0 0 0)
           (mkVector 1 0 0) 0 5 3 _ bone_half_nonneg Hp).
Defined.

(** X18.  A ray along [+x] through one slab between [x = a] and [x = b]
    (entered at least one minimum step after the near clip, at least two
    minimum steps thick, left before the far clip): the solid is pushed and
    removed once, and the optical depth accumulated is the density of the
    solid times [b - a - EPS_DIST]: the margin by which the march steps past
    the entering hit is not counted as path inside the solid. *)
Theorem slab_optical_depth {Obj : Type} `{Countable Obj}
    (object_to_density : gmap Obj R) (o : Obj)
    (a b clip_start clip_end : R) (fuel : nat) :
  clip_start + EPS_DIST <= a -> a + 2 * EPS_DIST <= b -> b <= clip_end ->
  (3 <= fuel)%nat ->
  (exists s',
     march_loop (slab a b o) object_to_density (mkVector 0 0 0) (mkVector 1 0 0)
       clip_end fuel (ray_start clip_start) = Some s' /\
     inside_stack s' = [] /\
     total_density s' = density_get object_to_density o * (b - a - EPS_DIST)) /\
  ray_pixel (slab a b o) object_to_density (mkVector 0 0 0) (mkVector 1 0 0)
    clip_start clip_end fuel
  = Some (intensity (density_get object_to_density o * (b - a - EPS_DIST))).
Proof.
  intros Hnear Hthick Hfar Hfuel.
  destruct (slab_march object_to_density o a b clip_start clip_end
              Hnear Hthick Hfar) as (s' & Hs & Hstack & Htotal).
  apply (march_loop_mono _ _ _ _ _ 3 fuel) in Hs; [|done].
  split; [by exists s'|]. unfold ray_pixel. rewrite Hs. simpl. by rewrite Htotal.
Qed.

Lemma slab_optical_depth_witness :
  (0 + EPS_DIST <= 1 /\ 1 + 2 * EPS_DIST <= 3 /\ 3 <= 5 /\ (3 <= 3)%nat) /\
  ray_pixel (slab 1 3 "bone") {["bone" := 0.5]} (mkVector 0 0 0) (mkVector 1 0 0)
    0 5 3
  = Some (intensity (density_get {["bone" := 0.5]} "bone" * (3 - 1 - EPS_DIST))).
Proof.
  assert (H1 : 0 + EPS_DIST <= 1) by (unfold EPS_DIST; lra).
  assert (H2 : 1 + 2 * EPS_DIST <= 3) by (unfold EPS_DIST; lra).
  assert (H3 : 3 <= 5) by lra.
  split; [by split_and!|].
  exact (proj2 (slab_optical_depth ({["bone" := 0.5]} : gmap string R) "bone"
                  1 3 0 5 3 H1 H2 H3 (le_n 3))).
Defined.

End SlabFacts.

(** ** The classification of the scene objects *)

Module SceneFacts.
Import Py RayCast VoxelGrid RayCastSpec Scene RayCastSetup VoxelGridSetup.
Local Open Scope R_scope.

Example lower_example : lower "Obj_Skeleton_ARM.001" = "obj_skeleton_arm.001".
Proof. reflexivity. Qed.

Example contains_example :
  contains "muscle" "objmuscles_arm" = true /\ contains "body" "objmuscles_arm" = false.
Proof. split; reflexivity. Qed.

Lemma prefix_app_l a c s :
  String.prefix (a ++ c)%string s = true -> String.prefix a s = true.
Proof.
  revert s. induction a as [|x a IH]; intros [|y s]; simpl; try done.
  destruct (Ascii.ascii_dec x y); [|done]. apply IH.
Qed.

Lemma contains_app_l a c s :
  contains (a ++ c)%string s = true -> contains a s = true.
Proof.
  induction s as [|y s IH]; cbn [contains].
  - destruct (String.prefix (a ++ c) "") eqn:Hp; [|done].
    intros _. by rewrite (prefix_app_l a c "" Hp).
  - destruct (String.prefix (a ++ c) (String y s)) eqn:Hp.
    + intros _. by rewrite (prefix_app_l a c _ Hp).
    + intros Hc. rewrite (IH Hc). by destruct (String.prefix a (String y s)).
Qed.

Lemma muscles_muscle s : contains "muscles" s = true -> contains "muscle" s = true.
Proof. apply (contains_app_l "muscle" "s"). Qed.

Lemma classify_object_cases obj cls :
  classify_object obj = Some cls ->
  (cls = "Bone" /\ DENSITY_VALUES !! cls = Some 0.5) \/
  (cls = "Muscle" /\ DENSITY_VALUES !! cls = Some 0.08) \/
  (cls = "Skin" /\ DENSITY_VALUES !! cls = Some 0.05).
Proof.
  unfold classify_object.
  destruct (contains "skeleton" _); [intros [= <-]; left; by split|].
  destruct (contains "muscles" _); [intros [= <-]; right; left; by split|].
  destruct (contains "body" _); [intros [= <-]; right; right; by split|done].
Qed.

Lemma assigned_density_cases obj d :
  assigned_density obj = Some d <->
  obj_type obj = "MESH" /\
  exists cls, classify_object obj = Some cls /\ DENSITY_VALUES !! cls = Some d.
Proof.
  unfold assigned_density. case_bool_decide as Hm.
  - destruct (classify_object obj) as [cls|]; simpl.
    + split; [intros Hd; split; [done|by exists cls]|].
      by intros (_ & c & [= <-] & Hd).
    + split; [done|]. by intros (_ & c & ? & _).
  - split; [done|]. by intros [? _].
Qed.

Lemma build_object_to_density_ok objects acc :
  build_object_to_density objects acc
  = Ok (foldl (fun m obj => match assigned_density obj with
                            | Some d => <[obj := d]> m
                            | None => m
                            end) acc objects).
Proof.
  revert acc. induction objects as [|o objects IH]; intros acc; simpl; [done|].
  unfold assigned_density. case_bool_decide; [|apply IH].
  destruct (classify_object o) as [cls|] eqn:Hcls; simpl; [|apply IH].
  destruct (classify_object_cases o cls Hcls) as [[_ ->]|[[_ ->]|[_ ->]]];
    apply IH.
Qed.

Lemma foldl_assigned_lookup objects (acc : gmap blender_object R) obj :
  foldl (fun m o => match assigned_density o with
                    | Some d => <[o := d]> m
                    | None => m
                    end) acc objects !! obj
  = match assigned_density obj with
    | Some d => if decide (obj ∈ objects) then Some d else acc !! obj
    | None => acc !! obj
    end.
Proof.
  revert acc. induction objects as [|o objects IH]; intros acc; cbn [foldl].
  - destruct (assigned_density obj); [|done].
    rewrite decide_False; [done|]. apply not_elem_of_nil.
  - rewrite IH. destruct (assigned_density obj) as [d|] eqn:Hd.
    + destruct (decide (obj ∈ objects)) as [Hin|Hin].
      * by rewrite decide_True by (by right).
      * destruct (decide (obj = o)) as [->|Hne].
        -- rewrite Hd, lookup_insert_eq. by rewrite decide_True by (by left).
        -- rewrite decide_False by (by intros [?|?]%elem_of_cons).
           destruct (assigned_density o); [by rewrite lookup_insert_ne|done].
    + destruct (assigned_density o) eqn:Ho; [|done].
      rewrite lookup_insert_ne; [done|]. congruence.
Qed.

(** X19.  Building [object_to_density] never raises, whatever the objects of
    the scene.  The map it builds holds exactly the mesh objects whose
    lower-cased name contains [skeleton], [muscles] or [body], each with the
    density of its class (0.5, 0.08 or 0.05, the first keyword in that order
    deciding), so no density is negative. *)
Theorem object_to_density_built (objects : list blender_object) :
  exists otd,
    build_object_to_density objects ∅ = Ok otd /\
    (forall obj d, otd !! obj = Some d <->
       obj ∈ objects /\ obj_type obj = "MESH" /\
       exists cls, classify_object obj = Some cls /\
                   DENSITY_VALUES !! cls = Some d) /\
    (forall obj d, otd !! obj = Some d -> d = 0.5 \/ d = 0.08 \/ d = 0.05) /\
    nonneg_object_densities otd.
Proof.
  eexists. split; [apply build_object_to_density_ok|].
  set (otd := foldl _ _ _).
  assert (Hiff : forall obj d, otd !! obj = Some d <->
            obj ∈ objects /\ obj_type obj = "MESH" /\
            exists cls, classify_object obj = Some cls /\
                        DENSITY_VALUES !! cls = Some d).
  { intros obj d. unfold otd. rewrite foldl_assigned_lookup.
    rewrite <- assigned_density_cases.
    destruct (assigned_density obj) as [d'|].
    - case_decide as Hin.
      + split; [by intros [= <-]|]. by intros [_ [= <-]].
      + rewrite lookup_empty. split; [done|]. by intros [? _].
    - rewrite lookup_empty. split; [done|]. by intros [_ ?]. }
  assert (Hval : forall obj d, otd !! obj = Some d ->
                               d = 0.5 \/ d = 0.08 \/ d = 0.05).
  { intros obj d Hd. apply Hiff in Hd as (_ & _ & cls & Hc & Hd).
    destruct (classify_object_cases obj cls Hc) as [[_ ?]|[[_ ?]|[_ ?]]];
      [left|right; left|right; right]; congruence. }
  split_and!; [done|done|].
  intros obj d Hd. destruct (Hval obj d Hd) as [->|[->| ->]]; lra.
Qed.

(** X20.  The two scripts classify by different keywords.  For a mesh
    object: what the ray caster calls Bone, the grid builder puts in the
    skeleton bucket; what it calls Muscle (keyword [muscles]) goes in the
    muscle bucket (keyword [muscle]); what it calls Skin goes in the body
    bucket or, when the name also contains [muscle], in the muscle bucket;
    an object the grid builder leaves out has no density in the ray caster.
    The converse fails: a mesh named [Muscle_arm] is in the muscle bucket
    and has no class, hence density 0, in the ray caster. *)
Theorem classification_agreement (obj : blender_object) :
  obj_type obj = "MESH" ->
  (classify_object obj = Some "Bone" -> bucket_of obj = Some "skeleton") /\
  (classify_object obj = Some "Muscle" -> bucket_of obj = Some "muscle") /\
  (classify_object obj = Some "Skin" ->
     bucket_of obj = Some "body" \/ bucket_of obj = Some "muscle") /\
  (bucket_of obj = None -> classify_object obj = None) /\
  bucket_of (mkObject "Muscle_arm" "MESH") = Some "muscle" /\
  classify_object (mkObject "Muscle_arm" "MESH") = None.
Proof.
  intros Hmesh. unfold classify_object, bucket_of.
  rewrite bool_decide_eq_true_2 by done. cbv zeta.
  pose proof (muscles_muscle (lower (obj_name obj))) as Hmm.
  destruct (contains "skeleton" (lower (obj_name obj))).
  { split_and!; try done. }
  destruct (contains "muscles" (lower (obj_name obj))).
  { rewrite Hmm by done. split_and!; try done. }
  destruct (contains "muscle" (lower (obj_name obj)));
    destruct (contains "body" (lower (obj_name obj)));
    split_and!; try done; auto.
Qed.

Lemma classification_agreement_witness :
  obj_type (mkObject "objmuscles_arm_left_001" "MESH") = "MESH" /\
  classify_object (mkObject "objmuscles_arm_left_001" "MESH") = Some "Muscle" /\
  bucket_of (mkObject "objmuscles_arm_left_001" "MESH") = Some "muscle".
Proof.
  split; [reflexivity|]. split; [reflexivity|].
  exact (proj1 (proj2 (classification_agreement
                         (mkObject "objmuscles_arm_left_001" "MESH") eq_refl))
           eq_refl).
Defined.

Lemma bucket_of_keys obj key :
  bucket_of obj = Some key -> key = "skeleton" \/ key = "muscle" \/ key = "body".
Proof.
  unfold bucket_of. case_bool_decide; [|done]. cbv zeta.
  destruct (contains "skeleton" _); [intros [= <-]; auto|].
  destruct (contains "muscle" _); [intros [= <-]; auto|].
  destruct (contains "body" _); [intros [= <-]; auto|done].
Qed.

Lemma filter_none {A} (P : A -> Prop) `{forall x, Decision (P x)} (l : list A) :
  ~ Exists P l -> filter P l = [].
Proof.
  induction l as [|x l IH]; intros Hn; [done|].
  rewrite filter_cons_False by (intros Hx; apply Hn; by left).
  apply IH. intros Hl. apply Hn. by right.
Qed.

Lemma classify_objects_lookup objects m key :
  classify_objects objects m !! key =
    if decide (Exists (fun obj => bucket_of obj = Some key) objects)
    then Some (default [] (m !! key)
               ++ filter (fun obj => bucket_of obj = Some key) objects)
    else m !! key.
Proof.
  revert m. induction objects as [|o objects IH]; intros m;
    cbn [classify_objects].
  - rewrite decide_False; [done|]. by intros ?%Exists_nil.
  - destruct (bucket_of o) as [k|] eqn:Hk.
    + rewrite IH. destruct (decide (k = key)) as [->|Hne].
      * rewrite lookup_insert_eq. simpl.
        rewrite filter_cons_True by done.
        rewrite (decide_True (P := Exists _ (o :: objects)))
          by (by apply Exists_cons_hd).
        case_decide; [by rewrite <- app_assoc|].
        by rewrite filter_none.
      * rewrite lookup_insert_ne by done.
        rewrite filter_cons_False by congruence.
        destruct (decide (Exists _ objects)) as [He|He].
        -- by rewrite decide_True by (by apply Exists_cons_tl).
        -- rewrite decide_False; [done|].
           intros [?|?]%Exists_cons; [congruence|done].
    + rewrite IH. rewrite filter_cons_False by congruence.
      destruct (decide (Exists _ objects)) as [He|He].
      * by rewrite decide_True by (by apply Exists_cons_tl).
      * rewrite decide_False; [done|].
        intros [?|?]%Exists_cons; [congruence|done].
Qed.

(** X21.  After the classification loop each of the three buckets of
    [objects_by_type] lists, in scene order, exactly the mesh objects whose
    lower-cased name has that bucket's keyword as its first match in the
    order skeleton, muscle, body; hence no object is in two buckets and an
    object that is not a mesh is in none. *)
Theorem buckets_partition (objects : list blender_object) (key : string) :
  key = "skeleton" \/ key = "muscle" \/ key = "body" ->
  classify_objects objects empty_buckets !! key
    = Some (filter (fun obj => bucket_of obj = Some key) objects) /\
  (forall obj key' l l',
     classify_objects objects empty_buckets !! key = Some l ->
     classify_objects objects empty_buckets !! key' = Some l' ->
     obj ∈ l -> obj ∈ l' -> key = key') /\
  (forall obj l,
     classify_objects objects empty_buckets !! key = Some l ->
     obj ∈ l -> obj_type obj = "MESH").
Proof.
  intros Hkey.
  assert (Hlook : forall k, k = "skeleton" \/ k = "muscle" \/ k = "body" ->
    classify_objects objects empty_buckets !! k
    = Some (filter (fun obj => bucket_of obj = Some k) objects)).
  { intros k Hk. rewrite classify_objects_lookup.
    assert (He : empty_buckets !! k = Some []).
    { by destruct Hk as [->|[->| ->]]. }
    rewrite He. simpl. case_decide as Hex; [done|].
    by rewrite filter_none. }
  assert (Hother : forall k l, classify_objects objects empty_buckets !! k = Some l ->
                               k = "skeleton" \/ k = "muscle" \/ k = "body").
  { intros k l. rewrite classify_objects_lookup. case_decide as Hex.
    - intros _. apply Exists_exists in Hex as (o & _ & Ho).
      by apply bucket_of_keys in Ho.
    - unfold empty_buckets. simpl. rewrite !lookup_insert.
      repeat case_decide; subst; auto. by rewrite lookup_empty. }
  split_and!.
  - by apply Hlook.
  - intros obj key' l l' Hl Hl' Hin Hin'.
    rewrite (Hlook key Hkey) in Hl. injection Hl as <-.
    rewrite (Hlook key' (Hother _ _ Hl')) in Hl'. injection Hl' as <-.
    apply list_elem_of_filter in Hin as [Hb _], Hin' as [Hb' _]. congruence.
  - intros obj l Hl Hin. rewrite (Hlook key Hkey) in Hl. injection Hl as <-.
    apply list_elem_of_filter in Hin as [Hb _]. unfold bucket_of in Hb.
    by case_bool_decide.
Qed.

Lemma buckets_partition_witness :
  ("muscle" = "skeleton" \/ "muscle" = "muscle" \/ "muscle" = "body") /\
  classify_objects
    [mkObject "Body" "MESH"; mkObject "Muscle_arm" "MESH"; mkObject "Camera" "CAMERA"]
    empty_buckets !! "muscle"
  = Some (filter (fun obj => bucket_of obj = Some "muscle")
            [mkObject "Body" "MESH"; mkObject "Muscle_arm" "MESH";
             mkObject "Camera" "CAMERA"]).
Proof.
  assert (Hk : "muscle" = "skeleton" \/ "muscle" = "muscle" \/ "muscle" = "body")
    by (right; left; reflexivity).
  split; [exact Hk|].
  exact (proj1 (buckets_partition _ "muscle" Hk)).
Defined.

End SceneFacts.

(** ** voxelgrid.py: field of view, depth range and grid *)

Module GridBuilderFacts.
Import NumPy NumPyFacts Py VoxelGrid FillFacts VoxelGridRange.
Local Open Scope R_scope.

(** X22.  [compute_fov]: with a lens of 0 the division raises; with a
    positive lens and a positive sensor size the field of view lies strictly
    between 0 and pi, and the tangent of its half, which scales the pixel
    rays, is the sensor size over twice the lens. *)
Theorem compute_fov_range sensor_fit sensor_height sensor_width lens :
  let sensor_size :=
    if bool_decide (sensor_fit = "VERTICAL") then sensor_height else sensor_width in
  compute_fov sensor_fit sensor_height sensor_width 0 = None /\
  (0 < lens -> 0 < sensor_size ->
   exists fov,
     compute_fov sensor_fit sensor_height sensor_width lens = Some fov /\
     0 < fov < PI /\
     tan (fov * 0.5) = sensor_size / (2 * lens)).
Proof.
  intros sensor_size. split.
  - unfold compute_fov. by rewrite decide_True.
  - intros Hlens Hsensor. unfold compute_fov. fold sensor_size.
    rewrite decide_False by lra. eexists. split; [done|].
    set (x := sensor_size * 0.5 / lens).
    assert (Hx : 0 < x).
    { unfold x. apply Rdiv_lt_0_compat; lra. }
    pose proof (atan_bound x) as [_ Hub].
    assert (0 < atan x) by (rewrite <- atan_0; by apply atan_increasing).
    split; [lra|].
    replace (2.0 * atan x * 0.5) with (atan x) by lra.
    rewrite tan_atan. unfold x.
    replace (sensor_size * 0.5) with (sensor_size * / 2) by lra.
    unfold Rdiv. rewrite Rinv_mult. ring.
Qed.

Lemma compute_fov_range_witness :
  (0 < 50 /\ 0 < 24) /\
  exists fov,
    compute_fov "VERTICAL" 24 36 50 = Some fov /\
    0 < fov < PI /\ tan (fov * 0.5) = 24 / (2 * 50).
Proof.
  assert (Hl : 0 < 50) by lra. assert (Hs : 0 < 24) by lra.
  split; [by split|].
  exact (proj2 (compute_fov_range "VERTICAL" 24 36 50) Hl Hs).
Defined.

Section depth_range.
Context {Obj : Type}.
Variable vertices : Obj -> option (list Vector).
Variable matrix_world : Obj -> Vector -> Vector.
Variable cam_inv : Vector -> Vector.

Local Abbreviation scan := (scan_buckets vertices matrix_world cam_inv).
Local Abbreviation dists := (front_distances vertices matrix_world cam_inv).

(** The scan folds [see] over the distances in front of the camera. *)
Lemma scan_object_see range obj :
  scan_object vertices matrix_world cam_inv range obj =
    foldl see range
      (co ← default [] (vertices obj);
       let z := vz (cam_inv (matrix_world obj co)) in
       if decide (z < 0) then [- z] else []).
Proof.
  unfold scan_object. destruct (vertices obj) as [vs|]; simpl; [|done].
  revert range. induction vs as [|co vs IH]; intros range; [done|].
  rewrite bind_cons, foldl_app. simpl. rewrite IH. f_equal.
  unfold see_vertex. by case_decide.
Qed.

Lemma scan_buckets_see buckets :
  scan buckets = foldl see None (dists buckets).
Proof.
  unfold scan_buckets, front_distances. generalize (@None (R * R)).
  induction buckets as [|objs buckets IH]; intros range; [done|].
  rewrite bind_cons, foldl_app. simpl. rewrite IH. f_equal.
  clear IH. revert range. induction objs as [|obj objs IHo]; intros range; [done|].
  rewrite bind_cons, foldl_app. simpl. rewrite IHo. f_equal.
  apply scan_object_see.
Qed.

End depth_range.

Lemma foldl_see_some (ds : list R) mn mx :
  exists mn' mx',
    foldl see (Some (mn, mx)) ds = Some (mn', mx') /\
    mn' <= mn /\ mx <= mx' /\
    Forall (fun d => mn' <= d <= mx') ds /\
    (mn' = mn \/ mn' ∈ ds) /\ (mx' = mx \/ mx' ∈ ds).
Proof.
  revert mn mx. induction ds as [|d ds IH]; intros mn mx.
  - exists mn, mx. split_and!; [done|lra|lra|constructor|by left|by left].
  - simpl. destruct (IH (Rmin mn d) (Rmax mx d))
      as (mn' & mx' & Hf & Hmn & Hmx & Hall & Hmin & Hmax).
    exists mn', mx'.
    pose proof (Rmin_l mn d). pose proof (Rmin_r mn d).
    pose proof (Rmax_l mx d). pose proof (Rmax_r mx d).
    split_and!; [done|lra|lra| | |].
    + constructor; [lra|done].
    + destruct Hmin as [->|Hin]; [|right; by right].
      destruct (Rmin_case mn d (fun r => r = mn \/ r = d)) as [->| ->]; auto.
      right. by left.
    + destruct Hmax as [->|Hin]; [|right; by right].
      destruct (Rmax_case mx d (fun r => r = mx \/ r = d)) as [->| ->]; auto.
      right. by left.
Qed.

(** X23.  The scan of the classified solids returns the least and the
    greatest distance in front of the camera among the vertices it visits
    (those with a negative camera-space z): both are distances of visited
    vertices and every such distance lies between them; the initial pair
    survives exactly when no vertex is in front of the camera. *)
Theorem scan_buckets_range {Obj : Type}
    (vertices : Obj -> option (list Vector))
    (matrix_world : Obj -> Vector -> Vector) (cam_inv : Vector -> Vector)
    (buckets : list (list Obj)) :
  let ds := front_distances vertices matrix_world cam_inv buckets in
  match scan_buckets vertices matrix_world cam_inv buckets with
  | None => ds = []
  | Some (min_dist, max_dist) =>
      min_dist ∈ ds /\ max_dist ∈ ds /\
      Forall (fun d => min_dist <= d <= max_dist) ds
  end.
Proof.
  intros ds. rewrite scan_buckets_see. fold ds.
  destruct ds as [|d ds]; [done|].
  simpl. destruct (foldl_see_some ds d d)
    as (mn & mx & -> & Hmn & Hmx & Hall & Hmin & Hmax).
  split_and!.
  - destruct Hmin as [->|?]; [by left|by right].
  - destruct Hmax as [->|?]; [by left|by right].
  - constructor; [lra|done].
Qed.

(** X24.  The depth range that is sampled: when the far clip is beyond the
    near clip, it lies within the clip range and is not empty, so the slice
    step is positive; a scanned range strictly inside the clip range is kept
    as it is; when the far clip is not beyond the near clip, the range falls
    back to the clip range and is empty or reversed. *)
Theorem depth_bounds_range (range : option (R * R)) (clip_start clip_end : R) :
  let '(min_dist, max_dist) := depth_bounds range clip_start clip_end in
  (clip_start < clip_end ->
     clip_start <= min_dist /\ min_dist < max_dist /\ max_dist <= clip_end) /\
  (clip_end <= clip_start -> min_dist = clip_start /\ max_dist = clip_end) /\
  (forall a b, range = Some (a, b) ->
     clip_start <= a -> a < b -> b <= clip_end ->
     min_dist = a /\ max_dist = b).
Proof.
  unfold depth_bounds.
  destruct range as [[a b]|].
  - pose proof (Rmax_r a clip_start). pose proof (Rmin_r b clip_end).
    pose proof (Rmax_l a clip_start). pose proof (Rmin_l b clip_end).
    case_decide as Hd.
    + split; [intros; lra|]. split; [done|].
      intros a' b' [= <- <-] Ha Hab Hb.
      rewrite Rmax_left, Rmin_left in Hd by lra. lra.
    + split; [intros; lra|]. split; [intros Hc; exfalso; lra|].
      intros a' b' [= <- <-] Ha Hab Hb.
      rewrite Rmax_left, Rmin_left by lra. done.
  - pose proof (Rmax_r clip_start clip_start).
    pose proof (Rmin_r clip_end clip_end).
    case_decide as Hd.
    + split; [intros; lra|]. split; [done|]. done.
    + split.
      * intros Hc. rewrite Rmax_left, Rmin_left by lra. lra.
      * split; [|done]. intros Hc. exfalso. apply Hd.
        rewrite Rmax_left by lra. rewrite Rmin_left by lra. lra.
Qed.

Lemma depth_bounds_range_witness :
  (0.1 < 100 /\ 0.1 <= 2 /\ 2 < 5 /\ 5 <= 100) /\
  depth_bounds (Some (2, 5)) 0.1 100 = (2, 5).
Proof.
  assert (H1 : 0.1 < 100) by lra. assert (H2 : 0.1 <= 2) by lra.
  assert (H3 : 2 < 5) by lra. assert (H4 : 5 <= 100) by lra.
  split; [by split_and!|].
  pose proof (depth_bounds_range (Some (2, 5)) 0.1 100) as Hb.
  destruct (depth_bounds (Some (2, 5)) 0.1 100) as [mn mx].
  destruct Hb as (_ & _ & Hkeep).
  destruct (Hkeep 2 5 eq_refl H2 H3 H4) as [-> ->]. reflexivity.
Defined.

Lemma voxel_tag_of_builder tags : builder_tag (voxel_tag_of tags).
Proof.
  unfold voxel_tag_of, builder_tag. repeat case_bool_decide; auto.
Qed.

Section fill.
Context {Obj : Type}.
Variable inside : Obj -> Vector -> bool.
Variable objects_by_type : string -> list Obj.
Variable random : nat -> R.
Variable cam_location : Vector.
Variables (sub_steps max_empty : nat).
Variable step : R.
Variable ray_dir_world : Vector.

Local Abbreviation body :=
  (slice_body inside objects_by_type random cam_location sub_steps max_empty
     step ray_dir_world).
Local Abbreviation fill :=
  (fill_slices inside objects_by_type random cam_location sub_steps max_empty
     step ray_dir_world).

Lemma slice_body_fields k base s :
  exists tag count found exited,
    body k base s = mkRay (<[k := tag]> (row s)) found exited count
                      (draws s + sub_steps) /\
    builder_tag tag /\ (count <= empty_count s + 1)%nat /\
    (exited = true -> exited_geometry s = true \/ (max_empty < count)%nat).
Proof.
  pose proof (slice_body_draws inside objects_by_type random cam_location
                sub_steps max_empty step ray_dir_world k base s) as Hd.
  unfold slice_body in *.
  destruct (sample_tags _ _ _ _ _ _ _ _ _) as [tags n'].
  pose proof (voxel_tag_of_builder tags) as Ht.
  case_bool_decide; [|destruct (found_geometry s); [case_bool_decide|]];
    simpl in Hd; subst n'; do 4 eexists; (split; [reflexivity|]);
    (split_and!; [done|simpl; lia|auto]).
Qed.

Lemma fill_fields slices s :
  length (row (fill slices s)) = length (row s) /\
  (Forall builder_tag (row s) -> Forall builder_tag (row (fill slices s))) /\
  (draws s <= draws (fill slices s) <= draws s + length slices * sub_steps)%nat /\
  (empty_count (fill slices s) <= empty_count s + length slices)%nat.
Proof.
  revert s. induction slices as [|[k base] rest IH]; intros s; simpl.
  { split_and!; try done; lia. }
  destruct (exited_geometry s); [split_and!; try done; lia|].
  destruct (slice_body_fields k base s)
    as (tag & count & found & exited & Hb & Htag & Hcount & _).
  destruct (IH (body k base s)) as (Hlen & Htags & Hdraws & Hec).
  rewrite Hb in *. simpl in *.
  split; [by rewrite Hlen, length_insert|].
  split; [|lia].
  intros Hrow. apply Htags.
  destruct (decide (k < length (row s))%nat) as [Hk|Hk].
  - apply Forall_insert; [done|done].
  - by rewrite list_insert_ge by lia.
Qed.

(** When the threshold is not below the number of slices, no ray ends
    early. *)
Lemma fill_no_exit slices s :
  exited_geometry s = false ->
  (empty_count s + length slices <= max_empty)%nat ->
  exited_geometry (fill slices s) = false /\
  draws (fill slices s) = (draws s + length slices * sub_steps)%nat.
Proof.
  revert s. induction slices as [|[k base] rest IH]; intros s Hex Hc; simpl.
  { split; [done|lia]. }
  rewrite Hex.
  destruct (slice_body_fields k base s)
    as (tag & count & found & exited & Hb & _ & Hcount & Hexit).
  simpl in Hc.
  destruct (IH (body k base s)) as (Hex' & Hd).
  - rewrite Hb. simpl. destruct exited; [|done].
    destruct (Hexit eq_refl) as [?|?]; [congruence|lia].
  - rewrite Hb. simpl. lia.
  - split; [done|]. rewrite Hd, Hb. simpl. lia.
Qed.

End fill.

Section grid.
Context {Obj : Type}.
Variable inside : Obj -> Vector -> bool.
Variable objects_by_type : string -> list Obj.
Variable random : nat -> R.
Variable cam_world_matrix : Vector -> Vector.
Variables (cam_location : Vector) (fov_y aspect shift_x shift_y : R).
Variables (width height depth_slices sub_steps max_empty : nat).
Variables (jitter min_dist step : R).

Local Abbreviation pixel_of :=
  (fill_pixel inside objects_by_type random cam_world_matrix cam_location fov_y
     aspect shift_x shift_y width height depth_slices sub_steps max_empty jitter
     min_dist step).
Local Abbreviation row_of :=
  (VoxelGrid.fill_row inside objects_by_type random cam_world_matrix cam_location
     fov_y aspect shift_x shift_y width height depth_slices sub_steps max_empty
     jitter min_dist step).
Local Abbreviation rows_of :=
  (fill_rows inside objects_by_type random cam_world_matrix cam_location fov_y
     aspect shift_x shift_y width height depth_slices sub_steps max_empty jitter
     min_dist step).

(** The random values one pixel draws when no ray ends early. *)
Local Abbreviation per_pixel := (2 + depth_slices * sub_steps)%nat.

Lemma depth_values_length : length (depth_values depth_slices min_dist step) = depth_slices.
Proof. unfold depth_values. by rewrite length_fmap, length_seq. Qed.

Lemma fill_pixel_fields j i n :
  length (pixel_of j i n).1 = depth_slices /\
  Forall builder_tag (pixel_of j i n).1 /\
  ((pixel_of j i n).2 <= n + per_pixel)%nat /\
  ((depth_slices <= max_empty)%nat -> (pixel_of j i n).2 = (n + per_pixel)%nat).
Proof.
  unfold fill_pixel, pixel_ray. cbv zeta. cbn [fst snd].
  set (ray := normalized _).
  destruct (fill_fields inside objects_by_type random cam_location sub_steps
              max_empty step ray (depth_values depth_slices min_dist step)
              (ray_init depth_slices (S (S n)))) as (Hlen & Htags & Hdraws & _).
  rewrite depth_values_length in Hdraws. unfold ray_init in *. simpl in *.
  rewrite length_replicate in Hlen.
  split; [done|]. split; [apply Htags, Forall_replicate; unfold builder_tag; auto|].
  split; [lia|]. intros Hmax.
  destruct (fill_no_exit inside objects_by_type random cam_location sub_steps
              max_empty step ray (depth_values depth_slices min_dist step)
              (mkRay (replicate depth_slices "none") false false 0 (S (S n))))
    as [_ Hd]; [done|simpl; rewrite depth_values_length; lia|].
  rewrite Hd, depth_values_length. simpl. lia.
Qed.

Lemma fill_row_fields j cols n :
  length (row_of j cols n).1 = length cols /\
  Forall (fun r => length r = depth_slices /\ Forall builder_tag r)
    (row_of j cols n).1 /\
  ((row_of j cols n).2 <= n + length cols * per_pixel)%nat /\
  ((depth_slices <= max_empty)%nat ->
   (row_of j cols n).2 = (n + length cols * per_pixel)%nat).
Proof.
  revert n. induction cols as [|i cols IH]; intros n.
  { simpl. split_and!; [done|constructor|lia|lia]. }
  cbn [VoxelGrid.fill_row].
  destruct (fill_pixel_fields j i n) as (Hlen & Htags & Hd & Hdeq).
  destruct (pixel_of j i n) as [r n'] eqn:Hp. cbn [fst snd] in *.
  specialize (IH n'). destruct (row_of j cols n') as [rs n''] eqn:Hr.
  cbn [fst snd length] in *. destruct IH as (Hlen' & Htags' & Hd' & Hdeq').
  split_and!; [by rewrite Hlen'|by constructor|lia|].
  intros Hmax. rewrite (Hdeq' Hmax), (Hdeq Hmax). lia.
Qed.

Lemma fill_rows_fields js n :
  length (rows_of js n).1 = length js /\
  Forall (fun p => length p = width /\
            Forall (fun r => length r = depth_slices /\ Forall builder_tag r) p)
    (rows_of js n).1 /\
  ((rows_of js n).2 <= n + length js * (width * per_pixel))%nat /\
  ((depth_slices <= max_empty)%nat ->
   (rows_of js n).2 = (n + length js * (width * per_pixel))%nat).
Proof.
  revert n. induction js as [|j js IH]; intros n.
  { simpl. split_and!; [done|constructor|lia|lia]. }
  cbn [fill_rows].
  destruct (fill_row_fields j (seq 0 width) n) as (Hlen & Htags & Hd & Hdeq).
  rewrite length_seq in *.
  destruct (row_of j (seq 0 width) n) as [p n'] eqn:Hp. cbn [fst snd] in *.
  specialize (IH n'). destruct (rows_of js n') as [ps n''] eqn:Hr.
  cbn [fst snd length] in *. destruct IH as (Hlen' & Htags' & Hd' & Hdeq').
  split_and!; [by rewrite Hlen'|by constructor|lia|].
  intros Hmax. rewrite (Hdeq' Hmax), (Hdeq Hmax). lia.
Qed.

Lemma fill_grid_shape_tags :
  shape3 height width depth_slices (rows_of (seq 0 height) 0%nat).1 /\
  all_tags builder_tag (rows_of (seq 0 height) 0%nat).1.
Proof.
  destruct (fill_rows_fields (seq 0 height) 0) as (Hlen & Hall & _).
  rewrite length_seq in Hlen. split.
  - split; [done|]. eapply Forall_impl; [exact Hall|].
    intros p [Hp Hrows]. split; [done|].
    eapply Forall_impl; [exact Hrows|]. by intros r [? _].
  - unfold all_tags. eapply Forall_impl; [exact Hall|].
    intros p [_ Hrows]. eapply Forall_impl; [exact Hrows|]. by intros r [_ ?].
Qed.

End grid.

Lemma all_tags_at3 (P : string -> Prop) g j i k tag :
  all_tags P g -> at3 g j i k = Some tag -> P tag.
Proof.
  unfold all_tags, at3. intros Hall Hat.
  destruct (g !! j) as [p|] eqn:Hp; [|done]. simpl in Hat.
  destruct (p !! i) as [r|] eqn:Hr; [|done]. simpl in Hat.
  pose proof (Forall_lookup_1 _ _ _ _ Hall Hp) as H1.
  pose proof (Forall_lookup_1 _ _ _ _ H1 Hr) as H2.
  by apply (Forall_lookup_1 _ _ _ _ H2 Hat).
Qed.

End GridBuilderFacts.

(** ** The voxel approach from builder to image *)

Module PipelineFacts.
Import NumPy NumPyFacts Py VoxelGrid FillFacts GridRender GridRenderFacts.
Import Marrow MarrowFacts MarrowClaims.
Import GridRenderSpec IntegratorFacts VoxelGridRange GridBuilderFacts.
Local Open Scope R_scope.

Lemma render_ok_known dm g width height step depth_slices :
  shape3 height width depth_slices g -> known_tags dm g ->
  exists image, render_voxelgrid dm g width height step depth_slices = Ok image.
Proof.
  intros Hg Hk.
  destruct (render_voxelgrid dm g width height step depth_slices) as [image|e] eqn:Hr;
    [by exists image|].
  exfalso. apply render_raise_iff, projection_raise in Hr
    as (j & i & k & Hj & Hi & Hkk & [[Hnone _]|(tag & Ht & Hd & _)]).
  - destruct (proj2 (at3_is_Some _ _ _ g j i k Hg)) as [t Hs]; [done|]. congruence.
  - destruct (Hk j i k tag Ht) as [d Hd']. congruence.
Qed.

Lemma DENSITY_MAPPING_known tag :
  builder_tag tag \/ tag = "marrow" -> is_Some (DENSITY_MAPPING !! tag).
Proof. intros [[->|[->|[->| ->]]]| ->]; by eexists. Qed.

(** X25.  The grid the builder fills has the shape (height, width,
    depth_slices), and every cell of it holds one of the four tags
    [skeleton], [muscle], [body] and [none], whatever the scene and the
    random source. *)
Theorem builder_grid_shape {Obj : Type}
    (inside : Obj -> Vector -> bool) (objects_by_type : string -> list Obj)
    (random : nat -> R) (cam_world_matrix : Vector -> Vector)
    (cam_location : Vector) (fov_y aspect shift_x shift_y : R)
    (width height depth_slices sub_steps max_empty : nat)
    (jitter min_dist step : R) :
  let grid := fill_grid inside objects_by_type random cam_world_matrix
                cam_location fov_y aspect shift_x shift_y width height
                depth_slices sub_steps max_empty jitter min_dist step in
  shape3 height width depth_slices grid /\
  forall j i k tag, at3 grid j i k = Some tag -> builder_tag tag.
Proof.
  intros grid.
  destruct (fill_grid_shape_tags inside objects_by_type random cam_world_matrix
              cam_location fov_y aspect shift_x shift_y width height depth_slices
              sub_steps max_empty jitter min_dist step) as [Hs Ht].
  split; [exact Hs|]. intros j i k tag. by apply all_tags_at3.
Qed.

(** X26.  The three scripts of the voxel approach fit together: on the grid
    the builder fills, reclassified by [simulate_marrow] with any shell or
    left as it is, the integrator with the density map of the script and the
    metadata of the builder never meets an unknown tag or a missing cell; it
    produces an image. *)
Theorem voxel_pipeline_renders {Obj : Type}
    (inside : Obj -> Vector -> bool) (objects_by_type : string -> list Obj)
    (random : nat -> R) (cam_world_matrix : Vector -> Vector)
    (cam_location : Vector) (fov_y aspect shift_x shift_y : R)
    (width height depth_slices sub_steps max_empty : nat)
    (jitter min_dist step : R) (shell : nat) :
  let grid := fill_grid inside objects_by_type random cam_world_matrix
                cam_location fov_y aspect shift_x shift_y width height
                depth_slices sub_steps max_empty jitter min_dist step in
  (exists image,
     render_voxelgrid DENSITY_MAPPING grid width height step depth_slices
     = Ok image) /\
  (exists image,
     render_voxelgrid DENSITY_MAPPING (simulate_marrow shell grid) width height
       step depth_slices = Ok image).
Proof.
  intros grid.
  destruct (fill_grid_shape_tags inside objects_by_type random cam_world_matrix
              cam_location fov_y aspect shift_x shift_y width height depth_slices
              sub_steps max_empty jitter min_dist step) as [Hs Ht].
  fold grid in Hs. split.
  - apply render_ok_known; [done|]. intros j i k tag Hat.
    apply DENSITY_MAPPING_known. left. by eapply all_tags_at3.
  - apply render_ok_known.
    + unfold simulate_marrow, mask_assign. apply shape3_map2_3; [done|].
      apply shape3_erode_mask. unfold skeleton_mask. by apply shape3_map3.
    + intros j i k tag Hat.
      rewrite (simulate_marrow_at height width depth_slices) in Hat by done.
      apply DENSITY_MAPPING_known.
      destruct (at3 grid j i k) as [t|] eqn:Hg.
      * destruct (cell _ _ _ _); simpl in Hat; injection Hat as <-; [by right|].
        left. by eapply all_tags_at3.
      * by destruct (cell _ _ _ _).
Qed.

(** X27.  The early exit needs a threshold below the number of slices: when
    [depth_slices <= max_empty], as with the values of the script (150
    slices, threshold 200), no ray ends early, every slice of every pixel is
    sampled, and the builder draws exactly [2 + depth_slices * sub_steps]
    random values per pixel.  For any threshold it draws at most that
    many. *)
Theorem builder_draw_count {Obj : Type}
    (inside : Obj -> Vector -> bool) (objects_by_type : string -> list Obj)
    (random : nat -> R) (cam_world_matrix : Vector -> Vector)
    (cam_location : Vector) (fov_y aspect shift_x shift_y : R)
    (width height depth_slices sub_steps max_empty : nat)
    (jitter min_dist step : R) :
  let drawn := (fill_rows inside objects_by_type random cam_world_matrix
                  cam_location fov_y aspect shift_x shift_y width height
                  depth_slices sub_steps max_empty jitter min_dist step
                  (seq 0 height) 0).2 in
  (drawn <= height * (width * (2 + depth_slices * sub_steps)))%nat /\
  ((depth_slices <= max_empty)%nat ->
   drawn = (height * (width * (2 + depth_slices * sub_steps)))%nat) /\
  (DEPTH_SLICES <= MAX_EMPTY)%nat.
Proof.
  intros drawn.
  destruct (fill_rows_fields inside objects_by_type random cam_world_matrix
              cam_location fov_y aspect shift_x shift_y width height depth_slices
              sub_steps max_empty jitter min_dist step (seq 0 height) 0)
    as (_ & _ & Hle & Heq).
  rewrite length_seq in *. split_and!; [exact Hle|exact Heq|].
  unfold DEPTH_SLICES, MAX_EMPTY. lia.
Qed.

Lemma builder_draw_count_witness :
  (DEPTH_SLICES <= MAX_EMPTY)%nat /\
  (fill_rows near_solid bone_only (constant_source 0) (fun p => p)
     (mkVector 0 0 0) 0.8 1 0 0 2 2 DEPTH_SLICES SUB_STEPS MAX_EMPTY
     PIXEL_JITTER_STRENGTH 0 1 (seq 0 2) 0).2
  = (2 * (2 * (2 + DEPTH_SLICES * SUB_STEPS)))%nat.
Proof.
  assert (Hle : (DEPTH_SLICES <= MAX_EMPTY)%nat).
  { unfold DEPTH_SLICES, MAX_EMPTY. lia. }
  split; [exact Hle|].
  exact (proj1 (proj2 (builder_draw_count near_solid bone_only (constant_source 0)
                         (fun p => p) (mkVector 0 0 0) 0.8 1 0 0 2 2 DEPTH_SLICES
                         SUB_STEPS MAX_EMPTY PIXEL_JITTER_STRENGTH 0 1)) Hle).
Defined.

End PipelineFacts.

(** ** combine_results.py: gamma conversions and composite *)

Module CompositeFacts.
Import Py Combine CombineFacts CombineSpec.
Local Open Scope R_scope.

Lemma clip_range x : 0 <= clip x 0 1 <= 1.
Proof.
  unfold clip. split.
  - apply Rmin_glb; [|lra]. apply Rmax_r.
  - apply Rmin_r.
Qed.

Lemma clip_idem x : clip (clip x 0 1) 0 1 = clip x 0 1.
Proof. apply clip_unit, clip_range. Qed.

Lemma power_pos x y : 0 < x -> power x y = Rpower x y.
Proof. intros Hx. unfold power. by rewrite decide_True. Qed.

Lemma power_range x y : 0 <= x <= 1 -> 0 < y -> 0 <= power x y <= 1.
Proof.
  intros [[Hx|<-] Hx1] Hy.
  - rewrite power_pos by done. unfold Rpower. split; [left; apply exp_pos|].
    rewrite <- exp_0. destruct Hx1 as [Hx1| ->].
    + left. apply exp_increasing.
      assert (ln x < 0) by (rewrite <- ln_1; apply ln_increasing; lra). nra.
    + rewrite ln_1, Rmult_0_r. lra.
  - rewrite power_0 by lra. lra.
Qed.

Lemma power_mono x x' y : 0 <= x <= x' -> 0 < y -> power x y <= power x' y.
Proof.
  intros [[Hx|<-] Hxx] Hy.
  - rewrite !power_pos by lra. apply Rle_Rpower_l; lra.
  - rewrite power_0 by lra. destruct Hxx as [Hx'|<-].
    + rewrite power_pos by done. left. apply exp_pos.
    + rewrite power_0 by lra. lra.
Qed.

Lemma one_over y : 1.0 / y = / y.
Proof. unfold Rdiv. lra. Qed.

Lemma power_round_trip x y :
  0 <= x <= 1 -> 0 < y -> power (clip (power x y) 0 1) (1.0 / y) = x.
Proof.
  intros Hx Hy. rewrite clip_unit by (by apply power_range).
  destruct Hx as [[Hx|<-] Hx1].
  - rewrite !power_pos; [|done|rewrite power_pos by done; apply exp_pos].
    rewrite Rpower_mult.
    rewrite one_over, Rinv_r by lra.
    by apply Rpower_1.
  - rewrite power_0 by lra. apply power_0.
    rewrite one_over. assert (0 < / y) by (by apply Rinv_0_lt_compat). lra.
Qed.

(** X28.  The two gamma conversions undo each other on values in [0,1], for
    every positive gamma: encoding the decoded image, or decoding the
    encoded image, gives the image clipped to [0,1]. *)
Theorem gamma_round_trip (img : list R) (gamma : R) :
  0 < gamma ->
  linear_to_srgb (srgb_to_linear img gamma) gamma = (fun x => clip x 0 1) <$> img /\
  srgb_to_linear (linear_to_srgb img gamma) gamma = (fun x => clip x 0 1) <$> img.
Proof.
  intros Hg. unfold linear_to_srgb, srgb_to_linear.
  rewrite <- !list_fmap_compose. split.
  - apply list_fmap_ext. intros _ x _. simpl.
    apply power_round_trip; [apply clip_range|done].
  - apply list_fmap_ext. intros _ x _. simpl.
    assert (Hinv : 0 < 1.0 / gamma).
    { rewrite one_over. by apply Rinv_0_lt_compat. }
    pose proof (power_round_trip (clip x 0 1) (1.0 / gamma) (clip_range x) Hinv)
      as Hr.
    assert (He : 1.0 / (1.0 / gamma) = gamma).
    { rewrite !one_over. apply Rinv_inv. }
    rewrite He in Hr. done.
Qed.

Lemma gamma_round_trip_witness :
  0 < 2.2 /\
  linear_to_srgb (srgb_to_linear [0.5; 1.5] 2.2) 2.2
  = (fun x => clip x 0 1) <$> [0.5; 1.5].
Proof.
  assert (Hg : 0 < 2.2) by lra.
  split; [exact Hg|]. exact (proj1 (gamma_round_trip [0.5; 1.5] 2.2 Hg)).
Defined.

Lemma transmission_range img p t :
  transmission img !! p = Some t -> 0 <= t <= 1.
Proof.
  rewrite transmission_lookup. destruct (img !! p) as [e|]; simpl; [|done].
  intros [= <-]. pose proof (power_range (clip e 0 1) 2.2 (clip_range e)). lra.
Qed.

Lemma product_range ts : Forall (fun t => 0 <= t <= 1) ts -> 0 <= product ts <= 1.
Proof.
  induction 1 as [|t ts Ht _ IH]; [unfold product; simpl; lra|].
  rewrite product_cons. nra.
Qed.

Lemma product_le_member ts t :
  Forall (fun t => 0 <= t <= 1) ts -> t ∈ ts -> product ts <= t.
Proof.
  induction 1 as [|t' ts Ht' Hts IH]; intros Hin.
  { by apply elem_of_nil in Hin. }
  rewrite product_cons. pose proof (product_range ts Hts).
  apply elem_of_cons in Hin as [->|Hin]; [nra|].
  specialize (IH Hin). nra.
Qed.

Lemma product_permutation ts ts' : ts ≡ₚ ts' -> product ts = product ts'.
Proof.
  induction 1 as [|t ts ts' _ IH|t t' ts|ts ts' ts'' _ IH1 _ IH2].
  - done.
  - by rewrite !product_cons, IH.
  - rewrite !product_cons. lra.
  - by rewrite IH1.
Qed.

(** X29.  The composite does not depend on the order in which the layers
    are read: for layers of one size, any reordering of the list of images
    gives the same composite (and the same exception when the list is
    empty). *)
Theorem composite_order_independent (n : nat) (images images' : list (list R)) :
  same_size n images -> images ≡ₚ images' ->
  composite_srgb images = composite_srgb images'.
Proof.
  intros Hs Hperm.
  assert (Hs' : same_size n images').
  { unfold same_size. by rewrite <- Hperm. }
  destruct images as [|img images].
  { apply Permutation_nil_l in Hperm. by subst. }
  destruct images' as [|img' images'].
  { by apply Permutation_nil_r in Hperm. }
  destruct (combined_same_size n img images Hs) as (c & Hc & Hlen & Hp).
  destruct (combined_same_size n img' images' Hs') as (c' & Hc' & Hlen' & Hp').
  unfold composite_srgb. unfold combined in Hc, Hc'. rewrite Hc, Hc'.
  do 3 f_equal. apply list_eq. intros p.
  destruct (decide (p < n)%nat) as [Hlt|Hge].
  - rewrite Hp, Hp' by done. f_equal. apply product_permutation.
    unfold transmittances. by apply fmap_Permutation.
  - rewrite !lookup_ge_None_2 by lia. done.
Qed.

Lemma composite_order_independent_witness :
  (same_size 1 [[0.5]; [0.2]] /\ [[0.5]; [0.2]] ≡ₚ [[0.2]; [0.5]]) /\
  composite_srgb [[0.5]; [0.2]] = composite_srgb [[0.2]; [0.5]].
Proof.
  assert (Hs : same_size 1 [[0.5]; [0.2]]) by (repeat constructor).
  assert (Hp : [[0.5]; [0.2]] ≡ₚ [[0.2]; [0.5]]) by apply perm_swap.
  split; [by split|].
  exact (composite_order_independent 1 _ _ Hs Hp).
Defined.



End CompositeFacts.

(** ** raycasting.py: the stack along a ray through disjoint solids *)

Module CrossingFacts.
Import Py RayCast RayCastFacts RayCastSpec RayCrossings.
Local Open Scope R_scope.

Lemma seg_length_unit cam dir t d :
  vlength dir = 1 -> t <= d ->
  vlength (vsub (vadd cam (vscale dir d)) (vadd cam (vscale dir t))) = d - t.
Proof.
  intros Hdir Htd.
  transitivity (sqrt ((vx dir * vx dir + vy dir * vy dir + vz dir * vz dir)
                      * Rsqr (d - t))).
  { unfold vlength, vsub, vadd, vscale, Rsqr. simpl. f_equal. ring. }
  rewrite sqrt_mult; [|nra|apply Rle_0_sqr].
  unfold vlength in Hdir. rewrite Hdir, sqrt_Rsqr_abs, Rabs_right; lra.
Qed.

Lemma DOT_THRESHOLD_pos : 0 < DOT_THRESHOLD.
Proof. unfold DOT_THRESHOLD. lra. Qed.

Section crossings.
Context {Obj : Type} `{Countable Obj}.
Variable scene_ray_cast : Vector -> Vector -> R -> option (Vector * Vector * Obj).
Variable object_to_density : gmap Obj R.
Variables (cam_location ray_dir : Vector) (clip_start clip_end : R).
Hypothesis ray_dir_unit : vlength ray_dir = 1.

Local Abbreviation body :=
  (march_body scene_ray_cast object_to_density cam_location ray_dir clip_end).
Local Abbreviation trace :=
  (march_trace scene_ray_cast object_to_density cam_location ray_dir clip_end).

(** A hit closer than [EPS_DIST] is skipped. *)
Lemma march_body_self_hit s hit_loc hit_norm hit_obj :
  scene_ray_cast (vadd cam_location (vscale ray_dir (current_dist s))) ray_dir
    (clip_end - current_dist s) = Some (hit_loc, hit_norm, hit_obj) ->
  vlength (vsub hit_loc (vadd cam_location (vscale ray_dir (current_dist s))))
    < EPS_DIST ->
  body s = (SelfHit,
            Continue (mkMarch (inside_stack s) (total_density s)
                        (current_dist s + EPS_DIST))).
Proof. intros Hc Hd. unfold march_body. rewrite Hc. by rewrite decide_True. Qed.

Lemma trace_S fuel s :
  trace (S fuel) s =
    if decide (current_dist s < clip_end) then
      match body s with
      | (e, Continue s') => (e, inside_stack s') :: trace fuel s'
      | (e, Break s') => [(e, inside_stack s')]
      end
    else [].
Proof. done. Qed.

(** The march processes the crossings one by one. *)
Lemma crossings_trace xs : forall s inside fuel,
  inside_stack s = stack_of inside ->
  separated (current_dist s) xs ->
  Forall (fun x => at_dist x <= clip_end) xs ->
  disjoint_solids ray_dir inside xs ->
  (forall t, current_dist s <= t < clip_end ->
     scene_ray_cast (vadd cam_location (vscale ray_dir t)) ray_dir (clip_end - t)
     = reported cam_location ray_dir <$> next_crossing xs t) ->
  (length xs < fuel)%nat ->
  hits (trace fuel s) = hit_of_crossing ray_dir <$> xs /\
  stack_ops (trace fuel s) = op_of_crossing ray_dir <$> xs /\
  alternating inside (hit_of_crossing ray_dir <$> xs).
Proof.
  pose proof EPS_DIST_pos as Heps. pose proof DOT_THRESHOLD_pos as Hthr.
  induction xs as [|x xs IH]; intros s inside fuel Hs Hsep Hclip Hdis Hsee Hfuel;
    (destruct fuel as [|fuel]; [simpl in Hfuel; lia|]); rewrite trace_S.
  - case_decide as Hg; [|done].
    rewrite march_body_no_hit by (rewrite Hsee by lra; done).
    rewrite hits_cons, stack_ops_cons. done.
  - destruct Hsep as [Hx Hsep]. apply Forall_cons in Hclip as [Hxc Hclip].
    rewrite decide_True by lra.
    assert (Hcast : scene_ray_cast
              (vadd cam_location (vscale ray_dir (current_dist s))) ray_dir
              (clip_end - current_dist s) = Some (reported cam_location ray_dir x)).
    { rewrite Hsee by lra. simpl. by rewrite decide_True by lra. }
    assert (Hdot : DOT_THRESHOLD <= Rabs (vdot ray_dir (normal x))).
    { simpl in Hdis. destruct inside as [o|].
      - destruct Hdis as [Hl _]. unfold leaving in Hl. rewrite Rabs_right; lra.
      - destruct Hdis as [He _]. unfold entering in He. rewrite Rabs_left; lra. }
    rewrite (march_body_hit scene_ray_cast object_to_density cam_location ray_dir
               clip_end s _ _ _ (at_dist x - current_dist s) Hcast);
      [|apply seg_length_unit; [done|lra]|lra|done].
    assert (Hrest : forall s' : @march Obj,
      current_dist s' = current_dist s + (at_dist x - current_dist s) + EPS_DIST ->
      separated (current_dist s') xs /\
      forall t, current_dist s' <= t < clip_end ->
        scene_ray_cast (vadd cam_location (vscale ray_dir t)) ray_dir (clip_end - t)
        = reported cam_location ray_dir <$> next_crossing xs t).
    { intros s' Hs'. split.
      - replace (current_dist s') with (at_dist x + EPS_DIST) by lra. done.
      - intros t Ht. rewrite Hsee by lra. simpl. by rewrite decide_False by lra. }
    simpl in Hfuel. simpl in Hdis. rewrite !fmap_cons.
    unfold hit_of_crossing at 1 3, op_of_crossing at 1.
    destruct inside as [o|].
    + destruct Hdis as (Hl & Ho & Hdis). unfold leaving in Hl.
      rewrite !(decide_False (P := vdot ray_dir (normal x) < 0)) by lra.
      rewrite decide_True by (rewrite Hs, Ho; by left).
      rewrite hits_cons, stack_ops_cons. simpl.
      match goal with |- context [trace fuel ?s1] =>
        destruct (Hrest s1 eq_refl) as [Hsep1 Hsee1];
        destruct (IH s1 None fuel) as (Hh & Hop & Halt);
          [|done|done|done|done|lia|] end.
      { simpl. rewrite Hs, <- Ho. simpl. by rewrite decide_True. }
      rewrite Hh, Hop. split_and!; [done|done|done|done].
    + destruct Hdis as (He & Hdis). unfold entering in He.
      rewrite !(decide_True (P := vdot ray_dir (normal x) < 0)) by lra.
      rewrite hits_cons, stack_ops_cons. simpl.
      match goal with |- context [trace fuel ?s1] =>
        destruct (Hrest s1 eq_refl) as [Hsep1 Hsee1];
        destruct (IH s1 (Some (solid x)) fuel) as (Hh & Hop & Halt);
          [|done|done|done|done|lia|] end.
      { simpl. by rewrite Hs. }
      rewrite Hh, Hop. split_and!; [done|done|done|done].
Qed.

End crossings.

(** The slab answers with its two faces. *)
Lemma slab_sees {Obj : Type} (a b : R) (o : Obj) (clip_start clip_end : R) :
  a < b -> b <= clip_end ->
  sees (mkVector 0 0 0) (mkVector 1 0 0) clip_start clip_end (slab a b o)
    [mkCrossing a (mkVector (-1) 0 0) o; mkCrossing b (mkVector 1 0 0) o].
Proof.
  intros Hab Hb t Ht. unfold slab, reported. simpl.
  repeat case_decide; try lra; simpl; try done;
    unfold vadd, vscale; simpl; repeat f_equal; lra.
Qed.

Lemma slab_disjoint {Obj : Type} (a b : R) (o : Obj) :
  disjoint_solids (mkVector 1 0 0) None
    [mkCrossing a (mkVector (-1) 0 0) o; mkCrossing b (mkVector 1 0 0) o].
Proof.
  unfold disjoint_solids, entering, leaving, vdot, DOT_THRESHOLD. simpl.
  split_and!; [lra|lra|done|done].
Qed.

Lemma unit_x : vlength (mkVector 1 0 0) = 1.
Proof. rewrite vlength_x. apply Rabs_right. lra. Qed.

(** ** C6 *)




End CrossingFacts.

(** ** What the integrator, the eroder and the builder depend on *)

Module DeterminismFacts.
Import NumPy NumPyFacts Py GridRender GridRenderFacts GridRenderSpec IntegratorFacts.
Import Marrow MarrowFacts MarrowClaims ErosionFacts.
Import VoxelGrid FillFacts GridBuilderFacts BuilderFacts Dependence.
Local Open Scope R_scope.

(** *** The integrator *)

Lemma sum_densities_depends dm dm' g g' j i ks acc :
  (forall k, k ∈ ks -> at3 g j i k = at3 g' j i k) ->
  (forall k tag, k ∈ ks -> at3 g j i k = Some tag -> dm !! tag = dm' !! tag) ->
  sum_densities dm g j i ks acc = sum_densities dm' g' j i ks acc.
Proof.
  revert acc. induction ks as [|k ks IH]; intros acc Hag Hdm; simpl; [done|].
  unfold voxel. rewrite <- (Hag k) by (by left).
  destruct (at3 g j i k) as [tag|] eqn:Ht; simpl; [|done].
  unfold density_of. rewrite <- (Hdm k tag) by (done || by left).
  destruct (dm !! tag) as [d|]; simpl; [|done].
  apply IH.
  - intros k' Hk'. apply Hag. by right.
  - intros k' tag' Hk'. apply Hdm. by right.
Qed.

Lemma render_depends dm dm' g g' width height step depth_slices :
  agree_within height width depth_slices g g' ->
  densities_agree_within height width depth_slices g dm dm' ->
  render_voxelgrid dm g width height step depth_slices
  = render_voxelgrid dm' g' width height step depth_slices.
Proof.
  intros Hag Hdm. unfold render_voxelgrid, projection. f_equal.
  apply mapM_ext_in. intros j Hj. apply elem_of_seq in Hj.
  apply mapM_ext_in. intros i Hi. apply elem_of_seq in Hi.
  unfold pixel. f_equal. apply sum_densities_depends.
  - intros k Hk. apply elem_of_seq in Hk. apply Hag; lia.
  - intros k tag Hk. apply elem_of_seq in Hk. apply Hdm; lia.
Qed.

(** *** The eroder *)

Lemma within_steps_self n i j k : within_steps n i j k i j k.
Proof. unfold within_steps, axis_dist. lia. Qed.

Lemma axis_dist_triangle a b c : (axis_dist a c <= axis_dist a b + axis_dist b c)%nat.
Proof. unfold axis_dist. lia. Qed.

Lemma masks_agree_near_step n i j k i' j' k' (m m' : mask3) :
  (axis_dist i' i + axis_dist j' j + axis_dist k' k <= 1)%nat ->
  masks_agree_near (S n) i j k m m' -> masks_agree_near n i' j' k' m m'.
Proof.
  intros Hd Hag a b c Hn. apply Hag. unfold within_steps in *.
  pose proof (axis_dist_triangle a i' i). pose proof (axis_dist_triangle b j' j).
  pose proof (axis_dist_triangle c k' k). lia.
Qed.

Lemma erode_loop_local X Y Z (m m' : mask3) n : forall i j k,
  shape3 X Y Z m -> shape3 X Y Z m' ->
  masks_agree_near n i j k m m' ->
  cell (erode_loop n m) i j k = cell (erode_loop n m') i j k.
Proof.
  induction n as [|n IH]; intros i j k Hm Hm' Hag.
  { simpl. apply Hag, within_steps_self. }
  rewrite !erode_loop_outer.
  rewrite !(cell_erode_pass X Y Z) by (by apply (shape3_erode_mask X Y Z)).
  assert (Hnb : forall i' j' k',
    (axis_dist i' i + axis_dist j' j + axis_dist k' k <= 1)%nat ->
    cell (erode_loop n m) i' j' k' = cell (erode_loop n m') i' j' k').
  { intros i' j' k' Hd. apply IH; [done|done|].
    by eapply masks_agree_near_step. }
  rewrite (Hnb (i - 1)%nat j k), (Hnb (i + 1)%nat j k), (Hnb i (j - 1)%nat k),
    (Hnb i (j + 1)%nat k), (Hnb i j (k - 1)%nat), (Hnb i j (k + 1)%nat);
    [done|unfold axis_dist; lia..].
Qed.

(** *** The builder *)

Section sources.
Context {Obj : Type}.
Variable inside : Obj -> Vector -> bool.
Variable objects_by_type : string -> list Obj.
Variables random random' : nat -> R.
Variable cam_world_matrix : Vector -> Vector.
Variables (cam_location : Vector) (fov_y aspect shift_x shift_y : R).
Variables (width height depth_slices sub_steps max_empty : nat).
Variables (jitter min_dist step : R).

Lemma sample_tags_sources dir base s n :
  sources_agree (n + s) random random' ->
  sample_tags inside objects_by_type random cam_location step dir base s n
  = sample_tags inside objects_by_type random' cam_location step dir base s n.
Proof.
  revert n. induction s as [|s IH]; intros n Hag; [done|].
  simpl. rewrite (Hag n) by lia. rewrite IH; [done|].
  intros idx Hidx. apply Hag. lia.
Qed.

Lemma slice_body_sources dir k base st :
  sources_agree (draws st + sub_steps) random random' ->
  slice_body inside objects_by_type random cam_location sub_steps max_empty step
    dir k base st
  = slice_body inside objects_by_type random' cam_location sub_steps max_empty
      step dir k base st.
Proof. intros Hag. unfold slice_body. by rewrite sample_tags_sources. Qed.

Lemma fill_slices_sources dir slices st :
  sources_agree (draws st + length slices * sub_steps) random random' ->
  fill_slices inside objects_by_type random cam_location sub_steps max_empty step
    dir slices st
  = fill_slices inside objects_by_type random' cam_location sub_steps max_empty
      step dir slices st.
Proof.
  revert st. induction slices as [|[k base] rest IH]; intros st Hag; [done|].
  simpl. destruct (exited_geometry st); [done|].
  rewrite slice_body_sources by (intros idx Hidx; apply Hag; simpl; lia).
  apply IH. intros idx Hidx. apply Hag.
  rewrite slice_body_draws in Hidx. simpl. lia.
Qed.

Lemma fill_pixel_sources j i n :
  sources_agree (n + (2 + depth_slices * sub_steps)) random random' ->
  fill_pixel inside objects_by_type random cam_world_matrix cam_location fov_y
    aspect shift_x shift_y width height depth_slices sub_steps max_empty jitter
    min_dist step j i n
  = fill_pixel inside objects_by_type random' cam_world_matrix cam_location fov_y
      aspect shift_x shift_y width height depth_slices sub_steps max_empty jitter
      min_dist step j i n.
Proof.
  intros Hag. unfold fill_pixel, pixel_ray. cbv zeta.
  rewrite (Hag n), (Hag (S n)) by lia.
  rewrite fill_slices_sources; [done|].
  intros idx Hidx. apply Hag.
  rewrite depth_values_length in Hidx. simpl in Hidx. lia.
Qed.

Lemma fill_row_sources j cols n :
  sources_agree (n + length cols * (2 + depth_slices * sub_steps)) random random' ->
  VoxelGrid.fill_row inside objects_by_type random cam_world_matrix cam_location
    fov_y aspect shift_x shift_y width height depth_slices sub_steps max_empty
    jitter min_dist step j cols n
  = VoxelGrid.fill_row inside objects_by_type random' cam_world_matrix
      cam_location fov_y aspect shift_x shift_y width height depth_slices
      sub_steps max_empty jitter min_dist step j cols n.
Proof.
  revert n. induction cols as [|i cols IH]; intros n Hag; [done|].
  cbn [VoxelGrid.fill_row].
  rewrite fill_pixel_sources by (intros idx Hidx; apply Hag; simpl; lia).
  pose proof (fill_pixel_fields inside objects_by_type random' cam_world_matrix
                cam_location fov_y aspect shift_x shift_y width height
                depth_slices sub_steps max_empty jitter min_dist step j i n)
    as (_ & _ & Hn' & _).
  destruct (fill_pixel _ _ random' _ _ _ _ _ _ _ _ _ _ _ _ _ _ j i n) as [r n'].
  rewrite IH; [done|]. intros idx Hidx. apply Hag. simpl in *. lia.
Qed.

Lemma fill_rows_sources js n :
  sources_agree (n + length js * (width * (2 + depth_slices * sub_steps)))
    random random' ->
  fill_rows inside objects_by_type random cam_world_matrix cam_location fov_y
    aspect shift_x shift_y width height depth_slices sub_steps max_empty jitter
    min_dist step js n
  = fill_rows inside objects_by_type random' cam_world_matrix cam_location fov_y
      aspect shift_x shift_y width height depth_slices sub_steps max_empty jitter
      min_dist step js n.
Proof.
  revert n. induction js as [|j js IH]; intros n Hag; [done|].
  cbn [fill_rows].
  rewrite fill_row_sources
    by (intros idx Hidx; apply Hag; rewrite length_seq in Hidx; simpl; lia).
  pose proof (fill_row_fields inside objects_by_type random' cam_world_matrix
                cam_location fov_y aspect shift_x shift_y width height
                depth_slices sub_steps max_empty jitter min_dist step j
                (seq 0 width) n) as (_ & _ & Hn' & _).
  rewrite length_seq in Hn'.
  destruct (VoxelGrid.fill_row _ _ random' _ _ _ _ _ _ _ _ _ _ _ _ _ _ j
              (seq 0 width) n) as [p n'].
  rewrite IH; [done|]. intros idx Hidx. apply Hag. simpl in *. lia.
Qed.

End sources.

(** ** C10 *)

(** C10.  The outputs of the grid integrator and of the eroder are functions
    of their inputs, and of no more than the part of them they read.  Two
    runs of the integrator on the same metadata end alike, in the same image
    or the same exception, as soon as the grids hold the same tags at the
    indices the metadata covers and the density maps agree on these tags.
    Two runs of the eroder with the same iteration count [n] on masks of one
    shape give the same value at a cell as soon as the masks agree within
    [n] steps of that cell.  The grid builder needs its random source as
    well: its grid is the same for two sources that agree on the first
    [height * width * (2 + depth_slices * sub_steps)] draws, and on one scene
    two random sources give two grids. *)
Theorem integrator_and_eroder_deterministic :
  (forall dm dm' g g' width height step depth_slices,
     agree_within height width depth_slices g g' ->
     densities_agree_within height width depth_slices g dm dm' ->
     render_voxelgrid dm g width height step depth_slices
     = render_voxelgrid dm' g' width height step depth_slices) /\
  (forall X Y Z (mask mask' : mask3) iterations i j k,
     shape3 X Y Z mask -> shape3 X Y Z mask' ->
     masks_agree_near iterations i j k mask mask' ->
     cell (erode_mask mask iterations) i j k
     = cell (erode_mask mask' iterations) i j k) /\
  (forall (Obj : Type) (inside : Obj -> Vector -> bool)
          (objects_by_type : string -> list Obj) (random random' : nat -> R)
          (cam_world_matrix : Vector -> Vector) (cam_location : Vector)
          (fov_y aspect shift_x shift_y : R)
          (width height depth_slices sub_steps max_empty : nat)
          (jitter min_dist step : R),
     sources_agree (height * (width * (2 + depth_slices * sub_steps)))
       random random' ->
     fill_grid inside objects_by_type random cam_world_matrix cam_location fov_y
       aspect shift_x shift_y width height depth_slices sub_steps max_empty
       jitter min_dist step
     = fill_grid inside objects_by_type random' cam_world_matrix cam_location
         fov_y aspect shift_x shift_y width height depth_slices sub_steps
         max_empty jitter min_dist step) /\
  (exists random1 random2, one_voxel_grid random1 <> one_voxel_grid random2).
Proof.
  split_and!.
  - apply render_depends.
  - intros X Y Z mask mask' n i j k Hm Hm' Hag. unfold erode_mask.
    by apply (erode_loop_local X Y Z).
  - intros Obj inside objects_by_type random random' cam_world_matrix
      cam_location fov_y aspect shift_x shift_y width height depth_slices
      sub_steps max_empty jitter min_dist step Hag.
    unfold fill_grid. rewrite (fill_rows_sources _ _ random random'); [done|].
    by rewrite length_seq.
  - exists (centred_source 0.9), (centred_source 0).
    apply builder_depends_on_randomness.
Qed.

Lemma integrator_and_eroder_deterministic_witness :
  (agree_within 1 1 1 [[["skeleton"]]] [[["skeleton"; "bone"]]; [["tumour"]]] /\
   densities_agree_within 1 1 1 [[["skeleton"]]] DENSITY_MAPPING
     (<["bone" := 7]> DENSITY_MAPPING) /\
   masks_agree_near 1 0 0 0 hollow (map3 (fun _ => true) hollow) /\
   sources_agree (1 * (1 * (2 + 1 * SUB_STEPS))) (centred_source 0.9)
     (source_then (centred_source 0.9) 4 0)) /\
  render_voxelgrid DENSITY_MAPPING [[["skeleton"]]] 1 1 0.1 1
  = render_voxelgrid (<["bone" := 7]> DENSITY_MAPPING)
      [[["skeleton"; "bone"]]; [["tumour"]]] 1 1 0.1 1 /\
  cell (erode_mask hollow 1) 0 0 0
  = cell (erode_mask (map3 (fun _ => true) hollow) 1) 0 0 0 /\
  one_voxel_grid (centred_source 0.9)
  = one_voxel_grid (source_then (centred_source 0.9) 4 0).
Proof.
  assert (Hg : agree_within 1 1 1 [[["skeleton"]]]
                 [[["skeleton"; "bone"]]; [["tumour"]]]).
  { intros j i k Hj Hi Hk.
    destruct j; [|lia]. destruct i; [|lia]. destruct k; [|lia]. reflexivity. }
  assert (Hd : densities_agree_within 1 1 1 [[["skeleton"]]] DENSITY_MAPPING
                 (<["bone" := 7]> DENSITY_MAPPING)).
  { intros j i k tag Hj Hi Hk.
    destruct j; [|lia]. destruct i; [|lia]. destruct k; [|lia].
    intros [= <-]. reflexivity. }
  assert (Hm : masks_agree_near 1 0 0 0 hollow (map3 (fun _ => true) hollow)).
  { intros a b c Hn. unfold within_steps, axis_dist in Hn.
    destruct a as [|[|a]]; destruct b as [|[|b]]; destruct c as [|[|c]];
      simpl in Hn; try lia; reflexivity. }
  assert (Hr : sources_agree (1 * (1 * (2 + 1 * SUB_STEPS))) (centred_source 0.9)
                 (source_then (centred_source 0.9) 4 0)).
  { intros idx Hidx. unfold SUB_STEPS in Hidx. simpl in Hidx.
    unfold source_then. destruct (Nat.ltb_spec idx 4); [done|lia]. }
  destruct integrator_and_eroder_deterministic as (Hint & Herode & Hbuild & _).
  split; [by split_and!|]. split_and!.
  - exact (Hint _ _ _ _ 1%nat 1%nat 0.1 1%nat Hg Hd).
  - assert (Hs : shape3 3 3 3 hollow) by (repeat constructor).
    assert (Hs' : shape3 3 3 3 (map3 (fun _ => true) hollow))
      by (repeat constructor).
    exact (Herode 3%nat 3%nat 3%nat _ _ 1%nat 0%nat 0%nat 0%nat Hs Hs' Hm).
  - exact (Hbuild string far_solid bone_only _ _ (fun p => p) (mkVector 0 0 0)
             0.8 1 0 0 1%nat 1%nat 1%nat SUB_STEPS MAX_EMPTY
             PIXEL_JITTER_STRENGTH 0 1 Hr).
Defined.

End DeterminismFacts.
